(** * AuthGHPages: the secret-collection engine, embedded and verified

    A shallow embedding of the gistless secret-collection backend
    ([features/sessions-gistless.js], [features/encryption-gistless.js],
    [features/vault-operations-gistless.js], the workflow trigger, the legacy
    gist encryption helpers and the [POST /api/sessions/:sessionId/secrets]
    route of [index.js]).

    Conventions of the embedding:
    - a JavaScript string is a [string] of bytes (well-formed text is
      identified with its UTF-8 encoding), so [trim] and [toLowerCase] act on
      the ASCII range;
    - a property that may be [undefined] is an [option]; JavaScript truthiness
      of such a property is [truthy];
    - what [JSON.parse] returns is a [Json]; a number is the double it
      parses to;
    - the own properties of a plain object are a [gmap string _], written
      with [Js.set_own], which is what an assignment [o[k] = v] does to them;
      the [Map] of sessions is a [gmap], and so is the part of
      [workflowRunIdMap] that has strings as keys;
    - what JavaScript reads from the clock or from the random generator
      (session ids, timestamps, initialisation vectors) is an explicit
      argument;
    - a [throw] is the [Thrown] outcome;
    - a handler runs from one [await] to the next without interruption; the
      submission route is given in two parts, before and after its first
      [await], which [Routes.postSecret] runs back to back and [Overlap]
      interleaves with the parts of other requests. *)

From Stdlib Require Import String Ascii ZArith Bool Floats.
From stdpp Require Import base option list gmap strings pretty.

Open Scope string_scope.
Open Scope list_scope.

(** ** JavaScript string helpers *)

Module JsString.

(** [s.split(sep)] for a one-character separator: never empty. *)
Fixpoint split_on (sep : ascii) (s : string) : list string :=
  match s with
  | EmptyString => [EmptyString]
  | String c rest =>
      if Ascii.eqb c sep then EmptyString :: split_on sep rest
      else match split_on sep rest with
           | [] => [String c EmptyString]
           | h :: t => String c h :: t
           end
  end.

(** White space removed by [trim], on the ASCII range:
    TAB, LF, VT, FF, CR and SPACE. *)
Definition is_space (c : ascii) : bool :=
  let n := nat_of_ascii c in
  (Nat.leb 9 n && Nat.leb n 13) || Nat.eqb n 32.

Definition is_empty (s : string) : bool :=
  match s with EmptyString => true | String _ _ => false end.

Fixpoint trim_left (s : string) : string :=
  match s with
  | EmptyString => EmptyString
  | String c rest => if is_space c then trim_left rest else s
  end.

Fixpoint trim_right (s : string) : string :=
  match s with
  | EmptyString => EmptyString
  | String c rest =>
      let rest' := trim_right rest in
      if is_space c && is_empty rest' then EmptyString else String c rest'
  end.

Definition trim (s : string) : string := trim_right (trim_left s).

(** [c.toLowerCase()] on the ASCII range. *)
Definition lower_ascii (c : ascii) : ascii :=
  let n := nat_of_ascii c in
  if Nat.leb 65 n && Nat.leb n 90 then ascii_of_nat (n + 32) else c.

Fixpoint toLowerCase (s : string) : string :=
  match s with
  | EmptyString => EmptyString
  | String c rest => String (lower_ascii c) (toLowerCase rest)
  end.

(** [s.startsWith(p)] *)
Definition startsWith (p s : string) : bool := String.prefix p s.

(** [s.substring(0, n)] *)
Definition take (n : nat) (s : string) : string := String.substring 0 n s.

(** [arr.includes(x)] on an array of strings. *)
Definition includes (x : string) (l : list string) : bool :=
  bool_decide (x ∈ l).

(** Does [c] occur in [s]? *)
Fixpoint has_char (c : ascii) (s : string) : bool :=
  match s with
  | EmptyString => false
  | String d rest => Ascii.eqb d c || has_char c rest
  end.

(** [str.split(',').map(k => k.trim()).filter(Boolean)] *)
Definition split_trim_filter (s : string) : list string :=
  List.filter (fun k => negb (is_empty k)) (List.map trim (split_on "," s)).

End JsString.

(** Truthiness of an optional string property: present and non-empty. *)
Definition truthy (o : option string) : bool :=
  match o with
  | Some s => negb (JsString.is_empty s)
  | None => false
  end.

(** [o || ''] *)
Definition or_empty (o : option string) : string :=
  if truthy o then default "" o else "".

(** The outcome of a JavaScript call: a value, or a thrown [Error]. *)
Inductive Outcome (A : Type) : Type :=
| Returned (a : A)
| Thrown (message : string).
Arguments Returned {A} a.
Arguments Thrown {A} message.

#[global] Instance Outcome_ret : MRet Outcome := fun _ a => Returned a.
#[global] Instance Outcome_bind : MBind Outcome := fun _ _ k o =>
  match o with
  | Returned a => k a
  | Thrown e => Thrown e
  end.

(** ** JavaScript values *)

(** A value made by [JSON.parse] and possibly mutated afterwards: an
    [Array] may have acquired own properties besides its elements
    ([JSON.parse] makes none). [undefined] is the [None] of an [option]. *)
#[warnings="-register-all"]
Inductive Json : Type :=
| JNull
| JBool (b : bool)
| JNumber (x : float)
| JString (s : string)
| JArray (items : list Json) (props : gmap string Json)
| JObject (props : gmap string Json).

(** What the language decides and the engine does not. *)
Class JsRuntime : Type := {
  (** [arr.length = s] for a string [s]: the new length, [None] for the
      RangeError of a string that converts to no array length *)
  array_length_of : string -> option nat;
  (** the message of the TypeError of [v[k] = x] in strict mode on a [v]
      that is [null] or a primitive *)
  assignment_error : string -> Json -> string
}.

Module Js.

(** JavaScript truthiness *)
Definition truthy (o : option Json) : bool :=
  match o with
  | None | Some JNull => false
  | Some (JBool b) => b
  | Some (JNumber x) => negb (PrimFloat.is_zero x || PrimFloat.is_nan x)
  | Some (JString s) => negb (JsString.is_empty s)
  | Some (JArray _ _) | Some (JObject _) => true
  end.

Definition digit (c : ascii) : option N :=
  let n := N_of_ascii c in
  if (N.leb 48 n && N.leb n 57)%N then Some (n - 48)%N else None.

Fixpoint digits (acc : N) (s : string) : option N :=
  match s with
  | EmptyString => Some acc
  | String c rest =>
      match digit c with
      | Some d => digits (10 * acc + d)%N rest
      | None => None
      end
  end.

(** The array index a property name denotes: the name is the canonical
    decimal numeral of an integer below 2^32 - 1. *)
Definition array_index (k : string) : option N :=
  match k with
  | EmptyString => None
  | String c rest =>
      if Ascii.eqb c "0" && negb (JsString.is_empty rest) then None
      else match digits 0%N k with
           | Some n => if (N.leb n 4294967294)%N then Some n else None
           | None => None
           end
  end.

(** [v[k]] for a name [k] that the built-in prototypes do not define and
    that is no array index and not [length] (the engine reads [data], [state]
    and the encryption-key id). *)
Definition get (k : string) (v : Json) : Outcome (option Json) :=
  match v with
  | JNull => Thrown ("Cannot read properties of null (reading '" +:+ k +:+ "')")
  | JBool _ | JNumber _ | JString _ => Returned None
  | JArray _ props | JObject props => Returned (props !! k)
  end.

(** [o?.[k]], for such a name *)
Definition get_opt (k : string) (o : option Json) : option Json :=
  match o with
  | Some (JArray _ props) | Some (JObject props) => props !! k
  | _ => None
  end.

(** What [o[k] = v] does to the own properties of an ordinary object when
    [v] is a primitive: the name [__proto__] reaches the setter of
    [Object.prototype], which ignores a primitive, unless the object has an own
    property of that name (as [JSON.parse] can make). *)
Definition set_own {A} (k : string) (v : A) (props : gmap string A)
  : gmap string A :=
  if String.eqb k "__proto__" && negb (bool_decide (is_Some (props !! k)))
  then props
  else <[k := v]> props.

(** The elements of an array after [arr[i] = x], as [JSON.stringify] prints
    them: the holes of a longer array are printed as [null]. *)
Definition array_store (i : nat) (x : Json) (items : list Json) : list Json :=
  if Nat.ltb i (length items) then <[i := x]> items
  else items ++ replicate (i - length items) JNull ++ [x].

(** The elements after [arr.length = n] *)
Definition array_resize (n : nat) (items : list Json) : list Json :=
  take n items ++ replicate (n - length items) JNull.

Section WithRuntime.

Context {R : JsRuntime}.

(** [v[k] = x] in strict mode, for a string [x] or for the name [data]: the
    object after the assignment. *)
Definition put (k : string) (x : Json) (v : Json) : Outcome Json :=
  match v with
  | JNull | JBool _ | JNumber _ | JString _ => Thrown (assignment_error k v)
  | JObject props => Returned (JObject (set_own k x props))
  | JArray items props =>
      match array_index k with
      | Some i => Returned (JArray (array_store (N.to_nat i) x items) props)
      | None =>
          if String.eqb k "length" then
            match x with
            | JString s =>
                match array_length_of s with
                | Some n => Returned (JArray (array_resize n items) props)
                | None => Thrown "Invalid array length"
                end
            | _ => Thrown "Invalid array length"
            end
          else Returned (JArray items (set_own k x props))
      end
  end.

(** [if (!v[k]) { v[k] = {}; }] *)
Definition ensure (k : string) (v : Json) : Outcome Json :=
  cur ← get k v;
  if truthy cur then Returned v else put k (JObject ∅) v.

End WithRuntime.

(** The object with its property [k] replaced, for a [k] that is no array
    index: how the embedding writes back an object that the code mutated in
    place. *)
Definition with_prop (k : string) (x : Json) (v : Json) : Json :=
  match v with
  | JArray items props => JArray items (<[k := x]> props)
  | JObject props => JObject (<[k := x]> props)
  | _ => v
  end.

(** What [JSON.stringify] keeps: of an array, its elements. *)
Fixpoint stringify_view (v : Json) : Json :=
  match v with
  | JArray items _ => JArray (List.map stringify_view items) ∅
  | JObject props => JObject (stringify_view <$> props)
  | _ => v
  end.

(** The own properties of an object made by [JSON.parse] from members
    listed in file order: a repeated name keeps its first place and takes
    the last value. *)
Fixpoint define {A} (k : string) (v : A) (own : list (string * A))
  : list (string * A) :=
  match own with
  | [] => [(k, v)]
  | (k', v') :: rest =>
      if String.eqb k' k then (k, v) :: rest else (k', v') :: define k v rest
  end.

Definition parse_members {A} (members : list (string * A))
  : list (string * A) :=
  foldl (fun own m => define (fst m) (snd m) own) [] members.

(** Insertion into a list sorted by index. *)
Fixpoint insert_by_index {A} (i : N) (e : A) (sorted : list (N * A))
  : list (N * A) :=
  match sorted with
  | [] => [(i, e)]
  | (j, e') :: rest =>
      if (N.leb i j)%N then (i, e) :: sorted
      else (j, e') :: insert_by_index i e rest
  end.

(** The order of [Object.entries] on own properties given in creation
    order: the array indices first, ascending, then the other names as
    created. *)
Definition ordered {A} (own : list (string * A)) : list (string * A) :=
  let indexed :=
    foldr (fun e acc =>
             match array_index (fst e) with
             | Some i => insert_by_index i e acc
             | None => acc
             end) [] own in
  (snd <$> indexed)
  ++ List.filter (fun e => negb (bool_decide (is_Some (array_index (fst e)))))
       own.

(** [Object.entries(obj)] of the object parsed from [members] *)
Definition entries {A} (members : list (string * A)) : list (string * A) :=
  ordered (parse_members members).

(** [obj[k]] of the object parsed from [members], for a name the built-in
    prototypes do not define *)
Definition member {A} (k : string) (members : list (string * A)) : option A :=
  snd <$> List.find (fun e => String.eqb (fst e) k) (parse_members members).

End Js.

(** ** Sessions ([features/sessions-gistless.js]) *)

Inductive Status : Type := awaiting_input | completed.

Inductive KeyStatus : Type := key_pending | key_completed.

#[global] Instance Status_eq_dec : EqDecision Status.
Proof. solve_decision. Defined.

#[global] Instance KeyStatus_eq_dec : EqDecision KeyStatus.
Proof. solve_decision. Defined.

(** [metadata.workflow.run_id] as the pipeline posts it: a JSON string,
    number or boolean ([null] is [None], as a missing one; an array or an
    object is left out, printing one in the logs can already throw). *)
Inductive RunId : Type :=
| RunIdString (s : string)
| RunIdNumber (x : float)
| RunIdBool (b : bool).

(** Truthiness of an optional run id *)
Definition truthy_run_id (o : option RunId) : bool :=
  match o with
  | None => false
  | Some (RunIdString s) => negb (JsString.is_empty s)
  | Some (RunIdNumber x) => negb (PrimFloat.is_zero x || PrimFloat.is_nan x)
  | Some (RunIdBool b) => b
  end.

(** The workflow metadata posted by the pipeline; only the properties the
    engine reads are kept. *)
Record Metadata : Type := {
  workflow_run_id : option RunId;            (* metadata.workflow?.run_id *)
  secrets_needs_input : option string;       (* metadata.secrets_needs_input *)
  inputs_build_env : option string;          (* metadata.inputs?.build_env *)
  inputs_application_namespace : option string;
  inputs_listOfKeysToBeEncrypted : option string;
  encryption_key : string;                   (* metadata.encryption_key *)
  github_secrets_GIT_TOKEN : option string;
  github_secrets_VAULT_TOKEN : option string;
  computed_config_vault_url : option string;
  environment_ORG_NAME : option string;
  environment_GH_API : option string
}.

(** One element of [session.secrets.completed]. *)
Record CompletedEntry : Type := {
  ce_key : string;
  ce_encryptedValue : string;
  ce_submittedBy : string;
  ce_timestamp : string
}.

(** One element of [session.audit]. *)
Inductive AuditRecord : Type :=
| secret_submitted (key submittedBy timestamp : string) (remainingPending : nat)
| all_secrets_completed (timestamp completedBy : string).

Record Session : Type := {
  sessionId : string;
  metadata : Metadata;                 (* ...metadata *)
  createdAt : string;                  (* metadata.createdAt *)
  status : Status;                     (* metadata.status *)
  pending : list string;               (* secrets.pending *)
  completedEntries : list CompletedEntry;  (* secrets.completed *)
  keyStatus : gmap string KeyStatus;   (* secrets.status *)
  vault_url : option string;           (* vault.url *)
  encKey : string;                     (* encryption.encKey *)
  keysToEncrypt : list string;         (* encryption.keysToEncrypt *)
  runId : option RunId;                (* workflow.runId *)
  audit : list AuditRecord
}.

(** The two module-level [Map]s. [workflowRunIdMap] is read with strings
    only (the [:workflowRunId] of a url), and a key that is a number or a
    boolean is never the same as a string: the embedding keeps the entries
    under strings, which every operation of the module maps to themselves. *)
Record Store : Type := {
  sessions : gmap string Session;
  workflowRunIdMap : gmap string string
}.

(** The entries under strings after
    [workflowRunIdMap.set(workflowRunId, sessionId)] *)
Definition setRunId (workflowRunId : RunId) (sid : string)
  (m : gmap string string) : gmap string string :=
  match workflowRunId with
  | RunIdString rid => <[rid := sid]> m
  | RunIdNumber _ | RunIdBool _ => m
  end.

Definition empty_store : Store :=
  {| sessions := ∅; workflowRunIdMap := ∅ |}.

Definition completedKeys (s : Session) : list string :=
  ce_key <$> completedEntries s.

(** [createSession(metadata)]; [sid] is the generated session id and [now]
    the creation time. *)
Definition createSession (sid now : string) (md : Metadata) (st : Store)
  : Session * Store :=
  let workflowRunId := workflow_run_id md in
  let secretsNeedsInput := or_empty (secrets_needs_input md) in
  let pendingKeys := JsString.split_trim_filter secretsNeedsInput in
  let session :=
    {| sessionId := sid;
       metadata := md;
       createdAt := now;
       status := awaiting_input;
       pending := pendingKeys;
       completedEntries := [];
       keyStatus :=
         foldl (fun m key => Js.set_own key key_pending m) ∅ pendingKeys;
       vault_url := computed_config_vault_url md;
       encKey := encryption_key md;
       keysToEncrypt :=
         match inputs_listOfKeysToBeEncrypted md with
         | Some l => JsString.split_trim_filter l
         | None => []
         end;
       runId := workflowRunId;
       audit := [] |} in
  let sessions' := <[sid := session]> (sessions st) in
  let runmap' :=
    match workflowRunId with
    | Some rid =>
        if truthy_run_id workflowRunId
        then setRunId rid sid (workflowRunIdMap st)
        else workflowRunIdMap st
    | None => workflowRunIdMap st
    end in
  (session, {| sessions := sessions'; workflowRunIdMap := runmap' |}).

(** [getSession(sessionId)] *)
Definition getSession (sid : string) (st : Store) : option Session :=
  sessions st !! sid.

(** [findSessionByWorkflowRunId(workflowRunId)] *)
Definition findSessionByWorkflowRunId (rid : string) (st : Store)
  : option Session :=
  match workflowRunIdMap st !! rid with
  | Some sid => if JsString.is_empty sid then None else sessions st !! sid
  | None => None
  end.

(** The in-place mutation performed by [updateSessionSecret] on the session
    object it found. *)
Definition applySecret (key encryptedValue submittedBy now : string)
  (s : Session) : Session :=
  let completed' :=
    completedEntries s ++
      [ {| ce_key := key; ce_encryptedValue := "*****";
           ce_submittedBy := submittedBy; ce_timestamp := now |} ] in
  let pending' := List.filter (fun k => negb (String.eqb k key)) (pending s) in
  let wasCompleted := bool_decide (status s = completed) in
  let status' :=
    if Nat.eqb (length pending') 0 then completed else awaiting_input in
  let audit1 :=
    audit s ++ [secret_submitted key submittedBy now (length pending')] in
  let audit2 :=
    if bool_decide (status' = completed) && negb wasCompleted
    then audit1 ++ [all_secrets_completed now submittedBy]
    else audit1 in
  {| sessionId := sessionId s;
     metadata := metadata s;
     createdAt := createdAt s;
     status := status';
     pending := pending';
     completedEntries := completed';
     keyStatus := Js.set_own key key_completed (keyStatus s);
     vault_url := vault_url s;
     encKey := encKey s;
     keysToEncrypt := keysToEncrypt s;
     runId := runId s;
     audit := audit2 |}.

(** [updateSessionSecret(sessionId, key, encryptedValue, submittedBy)] *)
Definition updateSessionSecret (sid key encryptedValue submittedBy now : string)
  (st : Store) : Outcome Session * Store :=
  match sessions st !! sid with
  | None => (Thrown "Session not found", st)
  | Some s =>
      let s' := applySecret key encryptedValue submittedBy now s in
      (Returned s',
       {| sessions := <[sid := s']> (sessions st);
          workflowRunIdMap := workflowRunIdMap st |})
  end.

(** ** Buffers and hex encoding *)

(** A [Buffer] is a sequence of bytes. *)
Abbreviation Buffer := (list ascii).

Module Hex.

(** The digit of a nibble, as [buf.toString('hex')] prints it. *)
Definition hex_digit (n : nat) : ascii :=
  match n with
  | 0 => "0" | 1 => "1" | 2 => "2" | 3 => "3" | 4 => "4" | 5 => "5"
  | 6 => "6" | 7 => "7" | 8 => "8" | 9 => "9" | 10 => "a" | 11 => "b"
  | 12 => "c" | 13 => "d" | 14 => "e" | _ => "f"
  end%char.

(** The value of a hex digit, either case; [None] for any other character. *)
Definition hex_value (c : ascii) : option nat :=
  let n := nat_of_ascii c in
  if Nat.leb 48 n && Nat.leb n 57 then Some (n - 48)
  else if Nat.leb 97 n && Nat.leb n 102 then Some (n - 87)
  else if Nat.leb 65 n && Nat.leb n 70 then Some (n - 55)
  else None.

Definition is_hex_digit (c : ascii) : bool :=
  match hex_value c with Some _ => true | None => false end.

(** [buf.toString('hex')] *)
Fixpoint toHex (b : Buffer) : string :=
  match b with
  | [] => EmptyString
  | c :: rest =>
      let n := nat_of_ascii c in
      String (hex_digit (n / 16)) (String (hex_digit (n mod 16)) (toHex rest))
  end.

(** [Buffer.from(s, 'hex')]: decoding stops at the first pair that is not
    two hex digits; a trailing single character is dropped. *)
Fixpoint fromHex (s : string) : Buffer :=
  match s with
  | String c1 (String c2 rest) =>
      match hex_value c1, hex_value c2 with
      | Some h, Some l => ascii_of_nat (16 * h + l) :: fromHex rest
      | _, _ => []
      end
  | _ => []
  end.

Fixpoint all_hex (s : string) : bool :=
  match s with
  | EmptyString => true
  | String c rest => is_hex_digit c && all_hex rest
  end.

End Hex.

(** [Buffer.from(str)] and [buf.toString('utf8')] on well-formed text. *)
Definition utf8_bytes (s : string) : Buffer := list_ascii_of_string s.
Definition utf8_text (b : Buffer) : string := string_of_list_ascii b.

(** The key normalisation shared by [getEncryptionKey] and [encryptSecret]:
    zero-padded to 32 bytes when shorter, cut to 32 bytes otherwise. *)
Definition normalize_key (keyBuf : Buffer) : Buffer :=
  if Nat.ltb (length keyBuf) 32
  then keyBuf ++ replicate (32 - length keyBuf) Ascii.zero
  else take 32 keyBuf.

(** ** The primitives of Node's [crypto] module

    The block cipher and the digest are library code; the engine only fixes
    how keys, initialisation vectors and results are laid out around them.
    [None] stands for a primitive that throws. *)
Class NodeCrypto : Type := {
  (** [createHash('sha1').update(x).digest('hex')] *)
  sha1_hex : string -> string;
  (** [createCipheriv('aes-256-cbc', key, iv)], [update] then [final] *)
  aes256cbc_encrypt : Buffer -> Buffer -> Buffer -> option Buffer;
  (** [createCipheriv('aes-256-gcm', key, iv)]: ciphertext and auth tag *)
  aes256gcm_seal : Buffer -> Buffer -> Buffer -> option (Buffer * Buffer);
  (** [createDecipheriv('aes-256-gcm', key, iv)], [setAuthTag], [update],
      [final]: key, iv, tag, ciphertext *)
  aes256gcm_open : Buffer -> Buffer -> Buffer -> Buffer -> option Buffer
}.

(** What AES-256-GCM guarantees for a 32-byte key and the 16-byte vector
    the engine draws: sealing succeeds and opening what was sealed gives the
    plaintext back. *)
Class GcmCorrect (C : NodeCrypto) : Prop :=
  gcm_seal_open :
    forall key iv plain,
      length key = 32 -> length iv = 16 ->
      exists ct tag,
        aes256gcm_seal key iv plain = Some (ct, tag) /\
        aes256gcm_open key iv tag ct = Some plain.

(** AES-256-CBC does not throw for a 32-byte key and a 16-byte vector. *)
Class CbcTotal (C : NodeCrypto) : Prop :=
  cbc_encrypts :
    forall key iv plain,
      length key = 32 -> length iv = 16 ->
      is_Some (aes256cbc_encrypt key iv plain).

(** The envelope of an encrypted value: the literal tag [enc], then three
    hex fields (vector, authentication tag, ciphertext), separated by
    colons. *)
Definition is_envelope (v : string) : Prop :=
  exists nonce tag ct,
    Hex.all_hex nonce = true /\ Hex.all_hex tag = true /\ Hex.all_hex ct = true
    /\ v = "enc:" +:+ nonce +:+ ":" +:+ tag +:+ ":" +:+ ct.

(** ** Legacy gist helpers: [encryptValue] / [decryptValue] *)

Module Gist.
Section WithCrypto.

Context {C : NodeCrypto}.

(** [process.env.ENCRYPTION_KEY || process.env.JWT_SECRET] *)
Variable ENCRYPTION_KEY : string.

Definition getEncryptionKey : Buffer :=
  normalize_key (utf8_bytes ENCRYPTION_KEY).

(** [encryptValue(text)]; [iv] is [crypto.randomBytes(16)]. *)
Definition encryptValue (iv : Buffer) (text : string) : Outcome string :=
  match aes256gcm_seal getEncryptionKey iv (utf8_bytes text) with
  | Some (encrypted, authTag) =>
      Returned ("enc:" +:+ Hex.toHex iv +:+ ":" +:+ Hex.toHex authTag
                  +:+ ":" +:+ Hex.toHex encrypted)
  | None => Thrown "Encryption failed"
  end.

(** The body of the [try] block of [decryptValue]. *)
Definition decryptValue_try (encryptedText : string) : Outcome string :=
  if negb (JsString.startsWith "enc:" encryptedText)
  then Returned encryptedText
  else
    let parts := JsString.split_on ":" encryptedText in
    if negb (Nat.eqb (length parts) 4)
    then Returned encryptedText
    else
      let iv := Hex.fromHex (nth 1 parts "") in
      let authTag := Hex.fromHex (nth 2 parts "") in
      let encrypted := nth 3 parts "" in
      match aes256gcm_open getEncryptionKey iv authTag
              (Hex.fromHex encrypted) with
      | Some decrypted => Returned (utf8_text decrypted)
      | None => Thrown "Unsupported state or unable to authenticate data"
      end.

(** [decryptValue(encryptedText)]: the [catch] returns the input. *)
Definition decryptValue (encryptedText : string) : Outcome string :=
  match decryptValue_try encryptedText with
  | Returned v => Returned v
  | Thrown _ => Returned encryptedText
  end.

End WithCrypto.
End Gist.

(** ** [features/encryption-gistless.js] *)

Module Encryption.
Section WithCrypto.

Context {C : NodeCrypto}.

(** [generateHash(input)]: the first 32 characters of the SHA-1 hex digest. *)
Definition generateHash (input : string) : string :=
  JsString.take 32 (sha1_hex input).

(** [encryptSecret(plainValue, encKey, secretKey)]; [iv] is
    [crypto.randomBytes(16)]. *)
Definition encryptSecret (iv : Buffer) (plainValue encKey secretKey : string)
  : Outcome string :=
  let keyBuf := normalize_key (utf8_bytes encKey) in
  match aes256cbc_encrypt keyBuf iv (utf8_bytes plainValue) with
  | Some encrypted => Returned (Hex.toHex iv +:+ ":" +:+ Hex.toHex encrypted)
  | None => Thrown "Encryption failed: cipher error"
  end.

Definition KEY_STORE_PASSWORD : string := "app.key-store-password".
Definition ENCRYPTION_KEY_ID : string :=
  "app-config.secret-encryption.encryption-key".

(** [processSecretValue(secretKey, plainValue, buildEnvironment,
    applicationNamespace, encKey, keysToEncrypt)] *)
Definition processSecretValue (iv : Buffer)
  (secretKey plainValue buildEnvironment applicationNamespace encKey : string)
  (keysToEncrypt : list string) : Outcome string :=
  if String.eqb secretKey KEY_STORE_PASSWORD
     && (String.eqb buildEnvironment "hodc"
         || String.eqb buildEnvironment "pcdc")
  then Returned (generateHash (applicationNamespace +:+ "-jks"))
  else if String.eqb secretKey ENCRYPTION_KEY_ID
  then Returned encKey
  else if JsString.includes secretKey keysToEncrypt
  then encryptSecret iv plainValue encKey secretKey
  else Returned plainValue.

End WithCrypto.
End Encryption.

(** A toy instance of the primitives, used to run the definitions: the
    "cipher" copies its input, the tag is the vector, the digest is its
    argument. *)
Definition toy_crypto : NodeCrypto :=
  {| sha1_hex := fun x => x;
     aes256cbc_encrypt := fun _ _ plain => Some plain;
     aes256gcm_seal := fun _ iv plain => Some (plain, iv);
     aes256gcm_open := fun _ iv tag ct =>
       if bool_decide (tag = iv) then Some ct else None |}.


(** ** The outside world: HTTP *)

Inductive Method : Type := GET | POST.

(** The Vault document [{ data: { data: {...} } }] of string values *)
Definition vault_json (kv : gmap string string) : Json :=
  JObject {[ "data" := JObject {[ "data" := JObject (JString <$> kv) ]} ]}.

(** The string values of [json.data?.data] *)
Definition vault_entries (j : Json) : gmap string string :=
  match Js.get_opt "data" (Js.get_opt "data" (Some j)) with
  | Some (JObject props) =>
      omap (fun v => match v with JString s => Some s | _ => None end) props
  | _ => ∅
  end.

(** The answer [{ state }] of the membership endpoint *)
Definition membership_json (state : string) : Json :=
  JObject {[ "state" := JString state ]}.

(** The payload of the downstream dispatch:
    [{ ...session.metadata, status, completedAt, secrets_stats, audit }]. *)
Record DispatchPayload : Type := {
  dp_metadata : Metadata;
  dp_createdAt : string;
  dp_status : Status;
  dp_completedAt : string;
  dp_total : nat;
  dp_completed : nat;
  dp_pending : nat;
  dp_audit : list AuditRecord
}.

Inductive Body : Type :=
| NoBody
| VaultBody (payload : Json)
| DispatchBody (ref : string) (payload : DispatchPayload).

Record Request : Type := {
  req_method : Method;
  req_url : string;
  req_credential : string;     (* X-Vault-Token or Authorization header *)
  req_body : Body
}.

(** A response: its status, [await response.text()], and
    [await response.json()] ([None] when the body is not JSON). *)
Record Response : Type := {
  resp_status : nat;
  resp_text : string;
  resp_json : option Json
}.

(** [response.ok] *)
Definition resp_ok (r : Response) : bool :=
  Nat.leb 200 (resp_status r) && Nat.leb (resp_status r) 299.

Inductive FetchResult : Type :=
| Responded (r : Response)
| NetworkError (message : string).

(** The servers the engine talks to, as a transition system on the state
    [W] of the outside world. *)
Class Network (W : Type) : Type :=
  http_fetch : Request -> W -> FetchResult * W.

(** ** The effects of a request handler *)

(** What a handler can touch: the session store of the process, the outside
    world, and (for the proofs) the requests sent so far, oldest first. *)
Record Runtime (W : Type) : Type := {
  rt_store : Store;
  rt_world : W;
  rt_trace : list Request
}.
Arguments rt_store {W} _.
Arguments rt_world {W} _.
Arguments rt_trace {W} _.

Definition Eff (W A : Type) : Type := Runtime W -> Outcome A * Runtime W.

Definition eff_ret {W A} (a : A) : Eff W A := fun rt => (Returned a, rt).

Definition eff_bind {W A B} (m : Eff W A) (k : A -> Eff W B) : Eff W B :=
  fun rt =>
    match m rt with
    | (Returned a, rt') => k a rt'
    | (Thrown e, rt') => (Thrown e, rt')
    end.

Definition throw {W A} (message : string) : Eff W A :=
  fun rt => (Thrown message, rt).

(** [try { m } catch (err) { h(err.message) }] *)
Definition try_catch {W A} (m : Eff W A) (h : string -> Eff W A) : Eff W A :=
  fun rt =>
    match m rt with
    | (Returned a, rt') => (Returned a, rt')
    | (Thrown e, rt') => h e rt'
    end.

Notation "'do' x <- m ; k" := (eff_bind m (fun x => k))
  (at level 10, x name, m at level 100, k at level 200,
   format "'[v' 'do'  x  <-  m ; '/' k ']'").

(** [await fetch(url, ...)]: a rejected promise is a [Thrown]. *)
Definition fetch {W} `{Network W} (rq : Request) : Eff W Response :=
  fun rt =>
    let '(fr, w') := http_fetch rq (rt_world rt) in
    let rt' := {| rt_store := rt_store rt; rt_world := w';
                  rt_trace := rt_trace rt ++ [rq] |} in
    match fr with
    | Responded r => (Returned r, rt')
    | NetworkError e => (Thrown e, rt')
    end.

(** Run a function of the session module on the store. *)
Definition on_store {W A} (f : Store -> A * Store) : Eff W A :=
  fun rt =>
    let '(a, st') := f (rt_store rt) in
    (Returned a, {| rt_store := st'; rt_world := rt_world rt;
                    rt_trace := rt_trace rt |}).

(** Run a function of the session module that may throw. *)
Definition on_store_try {W A} (f : Store -> Outcome A * Store) : Eff W A :=
  fun rt =>
    let '(o, st') := f (rt_store rt) in
    (o, {| rt_store := st'; rt_world := rt_world rt;
           rt_trace := rt_trace rt |}).

(** Run a function of the session module that only reads the store. *)
Definition read_store {W A} (f : Store -> A) : Eff W A :=
  fun rt => (Returned (f (rt_store rt)), rt).

Definition lift_outcome {W A} (o : Outcome A) : Eff W A :=
  fun rt => (o, rt).

(** [m] relates the runtime before to the runtime after by [R]. *)
Definition eff_step {W A} (R : Runtime W -> Runtime W -> Prop) (m : Eff W A)
  : Prop :=
  forall rt, R rt (snd (m rt)).

(** The session store is left as it was. *)
Definition same_store {W} (rt rt' : Runtime W) : Prop :=
  rt_store rt' = rt_store rt.

(** The requests sent in between all satisfy [P]. *)
Definition sent_only {W} (P : Request -> Prop) (rt rt' : Runtime W) : Prop :=
  exists added, rt_trace rt' = rt_trace rt ++ added /\ Forall P added.

(** A request that writes a document to the Vault. *)
Definition is_vault_write (rq : Request) : Prop :=
  exists p, req_body rq = VaultBody p.

(** ** [features/vault-operations-gistless.js] *)

Module Vault.
Section WithNetwork.

Context {W : Type} `{Network W} {R : JsRuntime}.

Definition fetch_failed (r : Response) : string :=
  "Vault fetch failed: " +:+ pretty (resp_status r) +:+ " " +:+ resp_text r.

Definition update_failed (r : Response) : string :=
  "Vault update failed: " +:+ pretty (resp_status r) +:+ " " +:+ resp_text r.

(** What [fetchVaultPayload] makes of the response to its GET: a parsed
    body is returned as it is, after [json.data] has been read for the
    log. *)
Definition readVaultResponse (response : Response) : Outcome Json :=
  if negb (resp_ok response) then
    if Nat.eqb (resp_status response) 404
    then Returned (vault_json ∅)
    else Thrown (fetch_failed response)
  else
    match resp_json response with
    | Some json => _ ← Js.get "data" json; Returned json
    | None => Thrown "invalid json response body"
    end.

(** [fetchVaultPayload(vaultUrl, vaultToken)] *)
Definition fetchVaultPayload (vaultUrl vaultToken : string) : Eff W Json :=
  do response <- fetch {| req_method := GET; req_url := vaultUrl;
                          req_credential := vaultToken; req_body := NoBody |};
  lift_outcome (readVaultResponse response).

(** [{ data: payload.data || payload }] *)
Definition vaultPayloadOf (payload : Json) : Outcome Json :=
  d ← Js.get "data" payload;
  Returned (JObject {[ "data" := if Js.truthy d then default JNull d
                                 else payload ]}).

(** [updateVaultPayload(vaultUrl, vaultToken, payload)]: the body of the
    request is [JSON.stringify(vaultPayload)]. *)
Definition updateVaultPayload (vaultUrl vaultToken : string)
  (payload : Json) : Eff W Response :=
  do vaultPayload <- lift_outcome (vaultPayloadOf payload);
  do response <- fetch {| req_method := POST; req_url := vaultUrl;
                          req_credential := vaultToken;
                          req_body :=
                            VaultBody (Js.stringify_view vaultPayload) |};
  if negb (resp_ok response) then throw (update_failed response)
  else match resp_json response with
       | Some _ => eff_ret response
       | None => throw "invalid json response body"
       end.

(** The update of the key in the payload, as [updateSingleVaultKey] and the
    submission route both write it:
    [if (!currentPayload.data) currentPayload.data = {};
     if (!currentPayload.data.data) currentPayload.data.data = {};
     currentPayload.data.data[key] = value]. The result is the payload after
    these assignments. *)
Definition setPayloadKey (key value : string) (currentPayload : Json)
  : Outcome Json :=
  p ← Js.ensure "data" currentPayload;
  d ← Js.get "data" p;
  match d with
  | None => Thrown "Cannot read properties of undefined (reading 'data')"
  | Some d =>
      d' ← Js.ensure "data" d;
      dd ← Js.get "data" d';
      match dd with
      | None =>
          Thrown ("Cannot set properties of undefined (setting '" +:+ key
                    +:+ "')")
      | Some dd =>
          dd' ← Js.put key (JString value) dd;
          Returned (Js.with_prop "data" (Js.with_prop "data" dd' d') p)
      end
  end.

(** The document [{ data: { ...mid, data: { ...entries, [key]: value } } }]
    with the key written by an assignment. *)
Definition overlaid (key value : string) (mid entries : gmap string Json)
  : Json :=
  JObject {[ "data" :=
    JObject (<["data" := JObject (Js.set_own key (JString value) entries)]>
               mid) ]}.

(** [updateSingleVaultKey(vaultUrl, vaultToken, key, value)] *)
Definition updateSingleVaultKey (vaultUrl vaultToken key value : string)
  : Eff W Response :=
  do currentPayload <- fetchVaultPayload vaultUrl vaultToken;
  do updated <- lift_outcome (setPayloadKey key value currentPayload);
  updateVaultPayload vaultUrl vaultToken updated.

End WithNetwork.
End Vault.

(** What [updateVaultPayload] makes of the answer to its POST. *)
Definition updateOutcome (fr : FetchResult) : Outcome Response :=
  match fr with
  | NetworkError e => Thrown e
  | Responded r2 =>
      if negb (resp_ok r2)
      then Thrown ("Vault update failed: " +:+ pretty (resp_status r2)
                     +:+ " " +:+ resp_text r2)
      else match resp_json r2 with
           | Some _ => Returned r2
           | None => Thrown "invalid json response body"
           end
  end.

(** ** Process configuration *)

(** The environment variables and the team table the engine is started
    with. [secretTeamConfig] lists the members [pattern: { teamSlug }] of
    [config/secret-teams-gistless.json] as the file has them; the object the
    module imports is read through [Js.entries] and [Js.member]. *)
Record Config : Type := {
  GH_BASE_URL : string;
  ORG_NAME : option string;
  secretTeamConfig : list (string * string)
}.

Record User : Type := { login : string; accessToken : string }.

(** ** Team access ([features/team-access-gistless.js], [utils/github.js]) *)

Module TeamAccess.
Section WithNetwork.

Context {W : Type} `{Network W}.
Variable cfg : Config.

(** [s.includes(p)] on strings *)
Fixpoint str_includes (p s : string) : bool :=
  String.prefix p s ||
  match s with
  | EmptyString => false
  | String _ rest => str_includes p rest
  end.

(** [url.replace(/\/$/, "")] *)
Fixpoint strip_trailing_slash (s : string) : string :=
  match s with
  | EmptyString => EmptyString
  | String c rest =>
      if Ascii.eqb c "/" && JsString.is_empty rest then EmptyString
      else String c (strip_trailing_slash rest)
  end.

(** Does the pattern of a table entry apply to the lower-cased key? *)
Definition pattern_applies (keyLower : string) (e : string * string) : bool :=
  negb (String.eqb (fst e) "*")
  && str_includes (JsString.toLowerCase (fst e)) keyLower.

(** [resolveTeamForSecret(key)]: the team slug of the first entry of
    [Object.entries(secretTeamConfig)] whose pattern applies, the ["*"]
    entry otherwise. *)
Definition resolveTeamForSecret (key : string) : Outcome string :=
  let keyLower := JsString.toLowerCase key in
  match List.find (pattern_applies keyLower)
          (Js.entries (secretTeamConfig cfg)) with
  | Some e => Returned (snd e)
  | None =>
      match Js.member "*" (secretTeamConfig cfg) with
      | Some team => Returned team
      | None => Thrown "Cannot read properties of undefined (reading 'teamSlug')"
      end
  end.

(** The request of [checkUserTeamMembership] *)
Definition membership_request (token orgName teamSlug username : string)
  : Request :=
  let url := strip_trailing_slash (GH_BASE_URL cfg) +:+ "/orgs/" +:+ orgName
             +:+ "/teams/" +:+ teamSlug +:+ "/memberships/" +:+ username in
  {| req_method := GET; req_url := url;
     req_credential := "Bearer " +:+ token;
     req_body := NoBody |}.

(** [checkUserTeamMembership(accessToken, orgName, teamSlug, username)] *)
Definition checkUserTeamMembership (token orgName teamSlug username : string)
  : Eff W bool :=
  do resp <- fetch (membership_request token orgName teamSlug username);
  if Nat.eqb (resp_status resp) 404 then eff_ret false
  else if negb (resp_ok resp) then eff_ret false
  else match resp_json resp with
       | Some membershipData =>
           do state <- lift_outcome (Js.get "state" membershipData);
           eff_ret match state with
                   | Some (JString st) => String.eqb st "active"
                   | _ => false
                   end
       | None => throw "invalid json response body"
       end.

(** [verifyKeyAccess(user, key, session)] *)
Definition verifyKeyAccess (user : User) (key : string) (session : Session)
  : Eff W bool :=
  do teamSlug <- lift_outcome (resolveTeamForSecret key);
  let orgName :=
    if truthy (environment_ORG_NAME (metadata session))
    then environment_ORG_NAME (metadata session)
    else ORG_NAME cfg in
  if negb (truthy orgName) then eff_ret false
  else
    try_catch
      (checkUserTeamMembership (accessToken user) (default "" orgName)
         teamSlug (login user))
      (fun _ => eff_ret false).

End WithNetwork.
End TeamAccess.

(** ** The downstream trigger ([features/workflow-trigger-gistless.js]) *)

(** What the text of [triggerDownstreamWorkflow] gives: the skipped
    result, or nothing once the dispatch has been answered with success (the
    [return] that would follow is commented out). *)
Inductive TriggerResult : Type :=
| Skipped (reason : string)            (* { ok: true, skipped: true, reason } *)
| Answered.

Module Trigger.
Section WithNetwork.

Context {W : Type} `{Network W}.
Variable cfg : Config.

Definition buildEnvOf (session : Session) : string :=
  match inputs_build_env (metadata session) with
  | Some e => JsString.toLowerCase e
  | None => ""
  end.

(** [updatedPayload] *)
Definition updatedPayload (now : string) (session : Session) : DispatchPayload :=
  {| dp_metadata := metadata session;
     dp_createdAt := createdAt session;
     dp_status := completed;
     dp_completedAt := now;
     dp_total := length (completedEntries session) + length (pending session);
     dp_completed := length (completedEntries session);
     dp_pending := 0;
     dp_audit := audit session |}.

Definition dispatch_url (baseUrl workflowFile : string) : string :=
  baseUrl +:+ "/repos/" +:+ "Microservices" +:+ "/" +:+ "ap-secondhalf"
  +:+ "/actions/workflows/" +:+ workflowFile +:+ "/dispatches".

Definition dispatch_request (baseUrl gitToken now : string) (session : Session)
  : Request :=
  {| req_method := POST;
     req_url := dispatch_url baseUrl "main.yml";
     req_credential := "token " +:+ gitToken;
     req_body := DispatchBody "main" (updatedPayload now session) |}.

(** [triggerDownstreamWorkflow(session)]; [now] is the completion time.
    The text of the function stops after the check of the response: the
    purge, the [return], the [catch] and the closing braces are commented
    out. The embedding follows the statements that are there; a [throw]
    leaves the function. *)
Definition triggerDownstreamWorkflow (now : string) (session : Session)
  : Eff W TriggerResult :=
  let buildEnv := buildEnvOf session in
  let gitToken := github_secrets_GIT_TOKEN (metadata session) in
  if negb (truthy gitToken) then throw "GIT_TOKEN not available"
  else
    if String.eqb buildEnv "dev" || String.eqb buildEnv "sit" then
      let baseUrl :=
        if truthy (environment_GH_API (metadata session))
        then default "" (environment_GH_API (metadata session))
        else GH_BASE_URL cfg in
      if JsString.is_empty baseUrl then throw "Missing workflow information"
      else
        do response <- fetch (dispatch_request baseUrl (default "" gitToken)
                                now session);
        if negb (resp_ok response)
        then throw ("Workflow trigger failed: " +:+ pretty (resp_status response)
                      +:+ " " +:+ resp_text response)
        else eff_ret Answered
    else
      eff_ret (Skipped ("No downstream workflow configured for build_env="
                          +:+ buildEnv)).

End WithNetwork.
End Trigger.

(** ** The routes of [index.js] *)

Inductive Reply : Type :=
| ReplyError (code : nat) (error : string)
| ReplyErrorMessage (code : nat) (error message : string)
| ReplyForbiddenKey (code : nat) (error key : string)
| ReplyCreated (sessionId : string) (pendingSecrets : nat)
| ReplySubmitted (key : string) (pendingKeys : list string) (allCompleted : bool).

(** The HTTP status of a reply. *)
Definition reply_code (r : Reply) : nat :=
  match r with
  | ReplyError c _ | ReplyErrorMessage c _ _ | ReplyForbiddenKey c _ _ => c
  | ReplyCreated _ _ | ReplySubmitted _ _ _ => 200
  end.

(** The body of [POST /api/sessions/:sessionId/secrets]. *)
Record SecretSubmission : Type := {
  sub_sessionId : string;          (* req.params.sessionId *)
  sub_key : option string;         (* req.body.key *)
  sub_value : option string;       (* req.body.value *)
  sub_user : User;                 (* req.user, set by verifyUserSession *)
  sub_iv : Buffer;                 (* crypto.randomBytes(16), if drawn *)
  sub_now : string                 (* the clock during the request *)
}.

(** Where the handler of the submission route stands at its first
    [await]: it has answered, or it holds the session object it found, the
    key and the value. *)
Inductive Admission : Type :=
| Rejected (reply : Reply)
| Proceed (session : Session) (key value : string).

Module Routes.
Section WithWorld.

Context {W : Type} `{Network W} {C : NodeCrypto} {R : JsRuntime}.
Variable cfg : Config.

(** [POST /api/sessions] after [verifyPipelineToken]. *)
Definition postSession (sid now : string) (md : Metadata) : Eff W Reply :=
  if negb (truthy_run_id (workflow_run_id md))
     || negb (truthy (secrets_needs_input md))
  then eff_ret (ReplyError 400
         "Missing required fields: workflow.run_id or secrets_needs_input")
  else
    do session <- on_store (createSession sid now md);
    eff_ret (ReplyCreated (sessionId session) (length (pending session))).

(** [POST /api/sessions/:sessionId/secrets], from the start of its [try]
    block to the call of [verifyKeyAccess]: the checks of the request against
    the store. *)
Definition postSecret_check (rq : SecretSubmission) : Eff W Admission :=
  if negb (truthy (sub_key rq)) || negb (truthy (sub_value rq))
  then eff_ret (Rejected (ReplyError 400 "Missing key or value"))
  else
    let key := default "" (sub_key rq) in
    let value := default "" (sub_value rq) in
    do found <- read_store (getSession (sub_sessionId rq));
    match found with
    | None => eff_ret (Rejected (ReplyError 404 "Session not found"))
    | Some session =>
        if negb (JsString.includes key (pending session))
        then eff_ret (Rejected (ReplyError 400
               "Key already processed or not in pending list"))
        else eff_ret (Proceed session key value)
    end.

(** The rest of the [try] block, from the call of [verifyKeyAccess] on.
    [session] is the object found before the [await]; what is read from it
    here (metadata, vault, encryption) no update of the session changes. *)
Definition postSecret_resume (rq : SecretSubmission) (session : Session)
  (key value : string) : Eff W Reply :=
  let user := sub_user rq in
  do hasAccess <- TeamAccess.verifyKeyAccess cfg user key session;
  if negb hasAccess
  then eff_ret (ReplyForbiddenKey 403
         "User not authorized for this secret key" key)
  else
    let buildEnv := Trigger.buildEnvOf session in
    let applicationNamespace :=
      or_empty (inputs_application_namespace (metadata session)) in
    do processedValue <-
      lift_outcome
        (Encryption.processSecretValue (sub_iv rq) key value buildEnv
           applicationNamespace (encKey session) (keysToEncrypt session));
    let vaultUrl := vault_url session in
    let vaultToken := github_secrets_VAULT_TOKEN (metadata session) in
    if negb (truthy vaultUrl) || negb (truthy vaultToken)
    then eff_ret (ReplyError 500 "Vault configuration missing")
    else
      do currentPayload <-
        Vault.fetchVaultPayload (default "" vaultUrl)
          (default "" vaultToken);
      (* the payload with the key set is only logged:
         the call of updateSingleVaultKey is commented out *)
      do _logged <-
        lift_outcome (Vault.setPayloadKey key processedValue currentPayload);
      do _updated <-
        on_store_try
          (updateSessionSecret (sub_sessionId rq) key processedValue
             (login user) (sub_now rq));
      do updated <- read_store (getSession (sub_sessionId rq));
      match updated with
      | None => throw "Cannot read properties of null (reading 'metadata')"
      | Some updatedSession =>
          let allCompleted :=
            bool_decide (status updatedSession = completed) in
          do _fired <-
            (if allCompleted
             then try_catch
                    (do r <- Trigger.triggerDownstreamWorkflow cfg
                               (sub_now rq) updatedSession;
                     eff_ret tt)
                    (fun _ => eff_ret tt)
             else eff_ret tt);
          eff_ret (ReplySubmitted key (pending updatedSession)
                     allCompleted)
      end.

(** The [try] block of the route, its two parts back to back. *)
Definition postSecret_try (rq : SecretSubmission) : Eff W Reply :=
  do admission <- postSecret_check rq;
  match admission with
  | Rejected reply => eff_ret reply
  | Proceed session key value => postSecret_resume rq session key value
  end.

(** The [catch] of the route. *)
Definition postSecret_catch (message : string) : Eff W Reply :=
  eff_ret (ReplyErrorMessage 500 "Failed to submit secret" message).

(** [POST /api/sessions/:sessionId/secrets] after [verifyUserSession], for
    a request that no other request overlaps. *)
Definition postSecret (rq : SecretSubmission) : Eff W Reply :=
  try_catch (postSecret_try rq) postSecret_catch.

(** The second part of the route on its own, for a handler that is resumed
    after its first [await]. *)
Definition postSecret_finish (rq : SecretSubmission) (session : Session)
  (key value : string) : Eff W Reply :=
  try_catch (postSecret_resume rq session key value) postSecret_catch.

End WithWorld.
End Routes.

(** ** Sequences of operations on the engine *)

(** The key list a session was registered with, as [createSession] reads
    it. *)
Definition originalKeys (s : Session) : list string :=
  JsString.split_trim_filter (or_empty (secrets_needs_input (metadata s))).

Inductive Op : Type :=
| OpCreate (sid now : string) (md : Metadata)     (* createSession(md) *)
| OpSubmit (rq : SecretSubmission).               (* POST .../secrets *)

Module Engine.
Section WithWorld.

Context {W : Type} `{Network W} {C : NodeCrypto} {R : JsRuntime}.
Variable cfg : Config.

Definition run_op (op : Op) (rt : Runtime W) : Runtime W :=
  match op with
  | OpCreate sid now md => snd (on_store (createSession sid now md) rt)
  | OpSubmit rq => snd (Routes.postSecret cfg rq rt)
  end.

Definition run_ops (ops : list Op) (rt : Runtime W) : Runtime W :=
  foldl (fun rt op => run_op op rt) rt ops.

End WithWorld.
End Engine.

(** ** Requests that overlap

    Node runs a handler from one [await] to the next, so another request
    can be handled while the submission route waits for GitHub or for the
    Vault. The events below let a submission arrive (its handler runs up to
    its first [await]) and let a waiting handler run to its end later. *)

Inductive Event : Type :=
| EvCreate (sid now : string) (md : Metadata)   (* createSession(md) *)
| EvArrive (rq : SecretSubmission)
| EvResume (n : nat).                           (* the n-th waiting handler *)

(** A handler that waits at its first [await]. *)
Record Waiting : Type := {
  w_request : SecretSubmission;
  w_session : Session;
  w_key : string;
  w_value : string
}.

Module Overlap.
Section WithWorld.

Context {W : Type} `{Network W} {C : NodeCrypto} {R : JsRuntime}.
Variable cfg : Config.

Definition step (ev : Event) (sv : Runtime W * list Waiting)
  : Runtime W * list Waiting :=
  let '(rt, waiting) := sv in
  match ev with
  | EvCreate sid now md =>
      (snd (on_store (createSession sid now md) rt), waiting)
  | EvArrive rq =>
      match Routes.postSecret_check rq rt with
      | (Returned (Proceed session key value), rt') =>
          (rt', waiting ++ [ {| w_request := rq; w_session := session;
                                w_key := key; w_value := value |} ])
      | (_, rt') => (rt', waiting)
      end
  | EvResume n =>
      match waiting !! n with
      | Some w =>
          (snd (Routes.postSecret_finish cfg (w_request w) (w_session w)
                  (w_key w) (w_value w) rt),
           delete n waiting)
      | None => sv
      end
  end.

Definition run (events : list Event) (sv : Runtime W * list Waiting)
  : Runtime W * list Waiting :=
  foldl (fun sv ev => step ev sv) sv events.

(** The events of operations handled one after the other. *)
Definition one_at_a_time (ops : list Op) : list Event :=
  ops ≫= (fun op =>
            match op with
            | OpCreate sid now md => [EvCreate sid now md]
            | OpSubmit rq => [EvArrive rq; EvResume 0]
            end).

End WithWorld.
End Overlap.

(** The key list of an [OpCreate] has no repeated name. *)
Definition distinct_keys (op : Op) : Prop :=
  match op with
  | OpCreate _ _ md =>
      NoDup (JsString.split_trim_filter (or_empty (secrets_needs_input md)))
  | OpSubmit _ => True
  end.

(** The pending/completed bookkeeping of one session. *)
Definition partition_inv (s : Session) : Prop :=
  length (pending s) + length (completedEntries s) = length (originalKeys s)
  /\ (forall k, k ∈ pending s -> k ∉ completedKeys s)
  /\ NoDup (pending s)
  /\ NoDup (completedKeys s).

(** The strengthened invariant: the pending names followed by the completed
    ones are the registered key list, reordered, and that list has no
    repetition. *)
Definition partition_strong (s : Session) : Prop :=
  NoDup (originalKeys s) /\ pending s ++ completedKeys s ≡ₚ originalKeys s.

(** The status agrees with the emptiness of the pending list. *)
Definition status_agrees (s : Session) : Prop :=
  status s = completed <-> pending s = [].

(** Every stored session satisfies the strengthened invariant. *)
Definition all_partitioned {W} (rt : Runtime W) : Prop :=
  forall sid s, sessions (rt_store rt) !! sid = Some s -> partition_strong s.

(** ** The decision table of [processValue], as the specification words it *)

Module DecisionTable.
Section WithCrypto.

Context {C : NodeCrypto}.

(** An ordered list of (predicate, action) pairs; the first rule whose
    predicate holds decides. *)
Fixpoint first_match {A} (rules : list (bool * A)) (otherwise : A) : A :=
  match rules with
  | [] => otherwise
  | (applies, action) :: rest =>
      if applies then action else first_match rest otherwise
  end.

Definition processValue (iv : Buffer)
  (key plaintext env namespace sessionKey : string)
  (keysRequiringEncryption : list string) : Outcome string :=
  first_match
    [ (bool_decide (key = Encryption.KEY_STORE_PASSWORD
                    /\ (env = "hodc" \/ env = "pcdc")),
       Returned (Encryption.generateHash (namespace +:+ "-jks")));
      (bool_decide (key = Encryption.ENCRYPTION_KEY_ID),
       Returned sessionKey);
      (bool_decide (key ∈ keysRequiringEncryption),
       Encryption.encryptSecret iv plaintext sessionKey key) ]
    (Returned plaintext).

End WithCrypto.
End DecisionTable.

(** ** A small outside world to run the handlers in *)

(** A Vault holding one document per url, a GitHub in which the listed
    membership urls are active, and a dispatch endpoint that records what
    it accepts. *)
Record SimWorld : Type := {
  sim_vault : gmap string (gmap string string);
  sim_members : list string;
  sim_dispatches : list Request
}.

#[global] Instance sim_network : Network SimWorld := fun rq w =>
  match req_method rq, req_body rq with
  | GET, _ =>
      if bool_decide (req_url rq ∈ sim_members w)
      then (Responded {| resp_status := 200; resp_text := "";
                         resp_json := Some (membership_json "active") |}, w)
      else match sim_vault w !! req_url rq with
           | Some kv =>
               (Responded {| resp_status := 200; resp_text := "";
                             resp_json := Some (vault_json kv) |}, w)
           | None =>
               (Responded {| resp_status := 404; resp_text := "not found";
                             resp_json := None |}, w)
           end
  | POST, VaultBody p =>
      (Responded {| resp_status := 200; resp_text := "";
                    resp_json := Some (JObject ∅) |},
       {| sim_vault := <[req_url rq := vault_entries p]> (sim_vault w);
          sim_members := sim_members w;
          sim_dispatches := sim_dispatches w |})
  | POST, DispatchBody _ _ =>
      (Responded {| resp_status := 204; resp_text := ""; resp_json := None |},
       {| sim_vault := sim_vault w;
          sim_members := sim_members w;
          sim_dispatches := sim_dispatches w ++ [rq] |})
  | POST, NoBody =>
      (Responded {| resp_status := 400; resp_text := "bad request";
                    resp_json := None |}, w)
  end.

Definition sim_config : Config :=
  {| GH_BASE_URL := "https://ghe.example/api/v3/";
     ORG_NAME := Some "acme";
     secretTeamConfig := [("db", "dba-team"); ("*", "dev-team")] |}.

Definition sim_user : User := {| login := "alice"; accessToken := "tok" |}.

(** An instance of the language's part, used to run the definitions: no
    string is an array length. *)
Definition toy_runtime : JsRuntime :=
  {| array_length_of := fun _ => None;
     assignment_error := fun k _ => "Cannot create property '" +:+ k +:+ "'" |}.

Definition sim_metadata (keys : string) (env : option string)
  (gitToken : option string) : Metadata :=
  {| workflow_run_id := Some (RunIdString "42");
     secrets_needs_input := Some keys;
     inputs_build_env := env;
     inputs_application_namespace := Some "payments";
     inputs_listOfKeysToBeEncrypted := Some "db_password";
     encryption_key := "0123456789abcdef0123456789abcdef";
     github_secrets_GIT_TOKEN := gitToken;
     github_secrets_VAULT_TOKEN := Some "vault-token";
     computed_config_vault_url := Some "https://vault.example/v1/kv/data/payments";
     environment_ORG_NAME := None;
     environment_GH_API := None |}.

Definition sim_world : SimWorld :=
  {| sim_vault := ∅;
     sim_members :=
       ["https://ghe.example/api/v3/orgs/acme/teams/dba-team/memberships/alice";
        "https://ghe.example/api/v3/orgs/acme/teams/dev-team/memberships/alice"];
     sim_dispatches := [] |}.

Definition sim_runtime (st : Store) : Runtime SimWorld :=
  {| rt_store := st; rt_world := sim_world; rt_trace := [] |}.

Definition sim_iv : Buffer := utf8_bytes "0123456789abcdef".

Definition sim_submission (sid : string) (key value : option string)
  : SecretSubmission :=
  {| sub_sessionId := sid; sub_key := key; sub_value := value;
     sub_user := sim_user; sub_iv := sim_iv; sub_now := "t1" |}.

(** ** Concrete inputs *)

(** A registration whose key list holds only a separator: it passes the
    required-field check of [POST /api/sessions]. *)
Definition blank_metadata : Metadata := sim_metadata "," (Some "dev") (Some "git").

(** A registration that names the same key twice. *)
Definition dup_metadata : Metadata := sim_metadata "a,a" (Some "dev") (Some "git").

(** A session of an environment without downstream job, registered
    without [GIT_TOKEN]. *)
Definition prod_metadata : Metadata := sim_metadata "api_key" (Some "prod") None.

Definition two_keys_metadata : Metadata :=
  sim_metadata "db_password, api_key" (Some "dev") (Some "git").

Definition one_key_metadata : Metadata :=
  sim_metadata "db_password" (Some "dev") (Some "git").

(** The session of [prod_metadata] once its only key has been submitted. *)
Definition prod_session : Session :=
  applySecret "api_key" "v" "alice" "t1"
    (fst (createSession "sess-1" "t0" prod_metadata empty_store)).

(** The runtime in which one session waits for [db_password]. *)
Definition one_key_runtime : Runtime SimWorld :=
  sim_runtime (snd (createSession "sess-1" "t0" one_key_metadata empty_store)).

Definition sim_vault_url : string := "https://vault.example/v1/kv/data/payments".

(** Two submissions of the same key of [one_key_runtime] that overlap: the
    second arrives while the first waits at its first [await]. *)
Definition overlapping_events : list Event :=
  [ EvArrive (sim_submission "sess-1" (Some "db_password") (Some "s3"));
    EvArrive (sim_submission "sess-1" (Some "db_password") (Some "s4"));
    EvResume 0;
    EvResume 0 ].

(** The runtime of an empty store in a world whose Vault holds a document
    without entries under [sim_vault_url]. *)
Definition empty_document_runtime : Runtime SimWorld :=
  {| rt_store := empty_store;
     rt_world := {| sim_vault := {[ sim_vault_url := ∅ ]};
                    sim_members := [];
                    sim_dispatches := [] |};
     rt_trace := [] |}.

(** ** More of [features/sessions-gistless.js] *)

(** [Array.from(sessions.values())]. The embedding does not keep the
    insertion order of the [Map]: the values come in the order of
    [map_to_list]. *)
Definition getAllSessions (st : Store) : list Session :=
  (map_to_list (sessions st)).*2.

(** The result of [getSessionStats()]. *)
Record SessionStats : Type := {
  stats_total : nat;
  stats_awaitingInput : nat;
  stats_completed : nat;
  stats_totalPendingSecrets : nat;
  stats_totalCompletedSecrets : nat
}.

Definition has_status (x : Status) (s : Session) : bool :=
  bool_decide (status s = x).

(** [getSessionStats()] *)
Definition getSessionStats (st : Store) : SessionStats :=
  let allSessions := getAllSessions st in
  {| stats_total := length allSessions;
     stats_awaitingInput :=
       length (List.filter (has_status awaiting_input) allSessions);
     stats_completed := length (List.filter (has_status completed) allSessions);
     stats_totalPendingSecrets :=
       foldl (fun sum s => sum + length (pending s)) 0 allSessions;
     stats_totalCompletedSecrets :=
       foldl (fun sum s => sum + length (completedEntries s)) 0 allSessions |}.

(** The removal from [workflowRunIdMap] shared by [purgeSession] and the
    loop of [purgeCompletedSessions]: the entry of the run id goes only when
    it points to this session. *)
Definition removeRunIdMapping (workflowRunId : option RunId) (sid : string)
  (m : gmap string string) : gmap string string :=
  if truthy_run_id workflowRunId then
    match workflowRunId with
    | Some (RunIdString rid) =>
        match m !! rid with
        | Some mappedSessionId =>
            if String.eqb mappedSessionId sid then delete rid m else m
        | None => m
        end
    | _ => m
    end
  else m.

(** [purgeSession(sessionId)] *)
Definition purgeSession (sid : string) (st : Store) : bool * Store :=
  match sessions st !! sid with
  | None => (false, st)
  | Some session =>
      (true,
       {| sessions := delete sid (sessions st);
          workflowRunIdMap :=
            removeRunIdMapping (runId session) sid (workflowRunIdMap st) |})
  end.

(** The result of [purgeCompletedSessions()]. *)
Record PurgeResult : Type := {
  purged : nat;
  remaining : nat;
  purgedSessionIds : list string
}.

(** One turn of the loop of [purgeCompletedSessions]. *)
Definition purgeStep (acc : Store * nat * list string) (session : Session)
  : Store * nat * list string :=
  let '(st, purgedCount, ids) := acc in
  let sid := sessionId session in
  ({| sessions := delete sid (sessions st);
      workflowRunIdMap :=
        removeRunIdMapping (runId session) sid (workflowRunIdMap st) |},
   S purgedCount, ids ++ [sid]).

(** [purgeCompletedSessions()] *)
Definition purgeCompletedSessions (st : Store) : PurgeResult * Store :=
  let allSessions := getAllSessions st in
  let completedSessions := List.filter (has_status completed) allSessions in
  let '(st', purgedCount, ids) := foldl purgeStep (st, 0, []) completedSessions in
  ({| purged := purgedCount; remaining := size (sessions st');
      purgedSessionIds := ids |}, st').

(** Every stored session carries the id it is stored under. *)
Definition well_keyed (st : Store) : Prop :=
  forall sid s, sessions st !! sid = Some s -> sessionId s = sid.

(** The key-status object mirrors the two collections, for every key
    but [__proto__], of which it never has an own property. *)
Definition key_status_mirrors (s : Session) : Prop :=
  keyStatus s !! "__proto__" = None
  /\ forall k,
       k <> "__proto__" ->
       (k ∈ pending s -> keyStatus s !! k = Some key_pending)
       /\ (k ∈ completedKeys s -> keyStatus s !! k = Some key_completed).

(** One session's record after some submissions only extends the earlier
    one. *)
Definition extends (s s' : Session) : Prop :=
  sessionId s' = sessionId s
  /\ metadata s' = metadata s
  /\ createdAt s' = createdAt s
  /\ audit s `prefix_of` audit s'
  /\ completedEntries s `prefix_of` completedEntries s'
  /\ pending s' `sublist_of` pending s.

(** The requests that dispatch the downstream workflow. *)
Definition is_dispatch (rq : Request) : bool :=
  match req_body rq with
  | DispatchBody _ _ => true
  | _ => false
  end.

Definition count_dispatches (trace : list Request) : nat :=
  length (List.filter is_dispatch trace).

(** The sessions that still wait for a key. *)
Definition open_sessions (st : Store) : nat :=
  size (filter (fun kv : string * Session => pending kv.2 <> []) (sessions st)).

(** ** More of [features/team-access-gistless.js] *)

(** [`${x}`] for a value that may be [undefined]. *)
Definition template (o : option string) : string := default "undefined" o.

Module TeamFilter.
Section WithNetwork.

Context {W : Type} `{Network W}.
Variable cfg : Config.

(** The [for] loop of [filterAuthorizedKeys]. *)
Fixpoint filterLoop (user : User) (orgName : option string)
  (keys authorizedKeys : list string) : Eff W (list string) :=
  match keys with
  | [] => eff_ret authorizedKeys
  | key :: rest =>
      do teamSlug <- lift_outcome (TeamAccess.resolveTeamForSecret cfg key);
      do authorizedKeys' <-
        try_catch
          (do hasAccess <-
             TeamAccess.checkUserTeamMembership cfg (accessToken user)
               (template orgName) teamSlug (login user);
           eff_ret (if hasAccess : bool then authorizedKeys ++ [key]
                    else authorizedKeys))
          (fun _ => eff_ret authorizedKeys);
      filterLoop user orgName rest authorizedKeys'
  end.

(** [filterAuthorizedKeys(user, pendingKeys, session)] *)
Definition filterAuthorizedKeys (user : User) (pendingKeys : list string)
  (session : Session) : Eff W (list string) :=
  let orgName :=
    if truthy (environment_ORG_NAME (metadata session))
    then environment_ORG_NAME (metadata session)
    else ORG_NAME cfg in
  filterLoop user orgName pendingKeys [].

End WithNetwork.
End TeamFilter.

(** Does an answer to the membership request say that the user is an
    active member of the team? *)
Definition says_active (fr : FetchResult) : bool :=
  match fr with
  | Responded r =>
      resp_ok r
      && match resp_json r with
         | Some json =>
             match Js.get "state" json with
             | Returned (Some (JString st)) => String.eqb st "active"
             | _ => false
             end
         | None => false
         end
  | NetworkError _ => false
  end.

(** What GitHub, in the state [w], answers about the team of a key when it
    is asked about the user. *)
Definition github_grants {W} `{Network W} (cfg : Config) (user : User)
  (orgName : string) (w : W) (key : string) : bool :=
  match TeamAccess.resolveTeamForSecret cfg key with
  | Returned team =>
      says_active
        (fst (http_fetch
                (TeamAccess.membership_request cfg (accessToken user) orgName
                   team (login user)) w))
  | Thrown _ => false
  end.

(** A network whose GET requests leave the outside world as it is. *)
Definition reads_are_quiet {W} (N : Network W) : Prop :=
  forall rq w, req_method rq = GET -> snd (http_fetch rq w) = w.

(** ** More of [features/encryption-gistless.js] *)

Module EncKey.
Section WithWorld.

Context {W : Type} `{Network W} {C : NodeCrypto}.

(** The three-way choice of [getAbsoluteEncKey] on what the Vault holds
    under the encryption-key identifier; a value that is truthy and no
    string has no [trim]. *)
Definition chooseEncKey (encKeyFromVault : option Json)
  (defaultKey applicationNamespace : string) : Outcome string :=
  if Js.truthy encKeyFromVault then
    match encKeyFromVault with
    | Some (JString s) =>
        if negb (String.eqb s "TBD")
           && negb (JsString.is_empty (JsString.trim s))
        then Returned (JsString.trim s)
        else if String.eqb s "TBD"
        then Returned (Encryption.generateHash applicationNamespace)
        else Returned defaultKey
    | _ => Thrown "encKeyFromVault.trim is not a function"
    end
  else Returned defaultKey.

(** [vaultData.data?.data?.['app-config.secret-encryption.encryption-key']] *)
Definition encKeyFromVault (vaultData : Json) : Outcome (option Json) :=
  d ← Js.get "data" vaultData;
  Returned (Js.get_opt Encryption.ENCRYPTION_KEY_ID (Js.get_opt "data" d)).

(** [getAbsoluteEncKey(vaultUrl, vaultToken, defaultKey,
    applicationNamespace)] *)
Definition getAbsoluteEncKey
  (vaultUrl vaultToken defaultKey applicationNamespace : string)
  : Eff W string :=
  try_catch
    (do vaultData <- Vault.fetchVaultPayload vaultUrl vaultToken;
     do fromVault <- lift_outcome (encKeyFromVault vaultData);
     lift_outcome (chooseEncKey fromVault defaultKey applicationNamespace))
    (fun _ => eff_ret defaultKey).

End WithWorld.
End EncKey.

(** ** More routes and the middleware of [index.js] *)

(** [s.substring(n)] *)
Fixpoint drop_chars (n : nat) (s : string) : string :=
  match n, s with
  | S n', String _ rest => drop_chars n' rest
  | _, _ => s
  end.

Inductive Middleware : Type :=
| Next
| Refused (code : nat) (error : string).

(** [verifyPipelineToken]; [expected] is [PIPELINE_AUTH_TOKEN] and
    [authHeader] is [req.headers.authorization]. *)
Definition verifyPipelineToken (expected authHeader : option string)
  : Middleware :=
  if negb (truthy authHeader)
     || negb (JsString.startsWith "Bearer " (default "" authHeader))
  then Refused 401 "Missing or invalid authorization header"
  else
    let token := drop_chars 7 (default "" authHeader) in
    if negb (bool_decide (Some token = expected))
    then Refused 403 "Invalid pipeline token"
    else Next.

(** The replies of the two reading routes. *)
Inductive ViewReply : Type :=
| ViewError (code : nat) (error : string)
| ViewErrorMessage (code : nat) (error message : string)
| ViewNoAuthorized (code : nat) (pendingCount authorizedCount : nat)
| ViewRunId (sessionId workflowRunId : string)
| ViewSession (sessionId : string) (pendingShown : list string)
    (completedShown : list (string * string * string))
    (statusShown : gmap string KeyStatus) (overall : Status).

Module ReadRoutes.
Section WithWorld.

Context {W : Type} `{Network W}.
Variable cfg : Config.

(** [GET /api/sessions/by-run-id/:workflowRunId] after
    [verifyUserSession]. *)
Definition getByRunId (workflowRunId : string) : Eff W ViewReply :=
  try_catch
    (do found <- read_store (findSessionByWorkflowRunId workflowRunId);
     match found with
     | None => eff_ret (ViewError 404 "Session not found for this workflow run")
     | Some session => eff_ret (ViewRunId (sessionId session) workflowRunId)
     end)
    (fun message => eff_ret (ViewErrorMessage 500 "Failed to get session"
                               message)).

(** The [try] block of [GET /api/sessions/:sessionId]. *)
Definition getSessionView_try (sid : string) (user : User) : Eff W ViewReply :=
  do found <- read_store (getSession sid);
  match found with
  | None => eff_ret (ViewError 404 "Session not found")
  | Some session =>
      do authorizedKeys <-
        TeamFilter.filterAuthorizedKeys cfg user (pending session) session;
      if Nat.eqb (length authorizedKeys) 0
         && Nat.ltb 0 (length (pending session))
      then eff_ret (ViewNoAuthorized 403 (length (pending session)) 0)
      else eff_ret
             (ViewSession (sessionId session) authorizedKeys
                ((fun e => (ce_key e, ce_timestamp e, ce_submittedBy e))
                   <$> completedEntries session)
                (keyStatus session) (status session))
  end.

(** [GET /api/sessions/:sessionId] after [verifyUserSession]. *)
Definition getSessionView (sid : string) (user : User) : Eff W ViewReply :=
  try_catch (getSessionView_try sid user)
    (fun message => eff_ret (ViewErrorMessage 500 "Failed to get session"
                               message)).

End WithWorld.
End ReadRoutes.

(** Submissions only, as operations. *)
Definition submissions (rqs : list SecretSubmission) : list Op :=
  OpSubmit <$> rqs.

(** The team table has its fallback entry. *)
Definition has_default_team (cfg : Config) : Prop :=
  exists team, Js.member "*" (secretTeamConfig cfg) = Some team.

(** A store with one completed session and one that still waits. *)
Definition mixed_store : Store :=
  snd (updateSessionSecret "sess-1" "db_password" "v" "alice" "t1"
         (snd (createSession "sess-2" "t0" two_keys_metadata
                 (snd (createSession "sess-1" "t0" one_key_metadata
                         empty_store))))).

(** A world in which every server answers 503. *)
Definition outage : Network unit := fun _ w =>
  (Responded {| resp_status := 503; resp_text := "sealed";
                resp_json := None |}, w).

Definition outage_runtime : Runtime unit :=
  {| rt_store := empty_store; rt_world := tt; rt_trace := [] |}.

(** No completed entry holds a submitted value. *)
Definition values_masked (s : Session) : Prop :=
  Forall (fun e => ce_encryptedValue e = "*****") (completedEntries s).

Definition is_completion (a : AuditRecord) : bool :=
  match a with
  | all_secrets_completed _ _ => true
  | secret_submitted _ _ _ _ => false
  end.

(** The numbers of audit records of either kind. *)
Definition completion_records (s : Session) : nat :=
  length (List.filter is_completion (audit s)).

Definition submission_records (s : Session) : nat :=
  length (List.filter (fun a => negb (is_completion a)) (audit s)).

(** The audit trail agrees with the bookkeeping of the session. *)
Definition audit_faithful (s : Session) : Prop :=
  (status s = completed -> pending s = [])
  /\ submission_records s = length (completedEntries s)
  /\ completion_records s = (if bool_decide (status s = completed) then 1 else 0).

(** * Properties *)

(** ** Sessions: status and bookkeeping *)

Lemma applySecret_status_agrees key ev who now s :
  status_agrees (applySecret key ev who now s).
Proof.
  unfold status_agrees, applySecret; simpl.
  destruct (List.filter _ (pending s)) as [|k rest]; simpl.
  - split; reflexivity.
  - split; discriminate.
Qed.

Lemma applySecret_metadata key ev who now s :
  metadata (applySecret key ev who now s) = metadata s.
Proof. reflexivity. Qed.

Lemma filter_neq_elem (key : string) (l : list string) k :
  k ∈ List.filter (fun x => negb (String.eqb x key)) l <-> k ∈ l /\ k <> key.
Proof.
  rewrite !list_elem_of_In, List.filter_In, negb_true_iff, String.eqb_neq.
  reflexivity.
Qed.

Lemma filter_neq_absent (key : string) (l : list string) :
  key ∉ l -> List.filter (fun x => negb (String.eqb x key)) l = l.
Proof.
  induction l as [|x l IH]; intros Hnot; simpl; [reflexivity|].
  apply not_elem_of_cons in Hnot as [Hne Hnot].
  destruct (String.eqb_spec x key) as [->|_]; [congruence|].
  simpl. by rewrite IH.
Qed.

(** Removing a key that occurs once and appending it elsewhere only reorders
    the names. *)
Lemma filter_neq_perm (key : string) (l : list string) :
  NoDup l -> key ∈ l ->
  List.filter (fun x => negb (String.eqb x key)) l ++ [key] ≡ₚ l.
Proof.
  induction l as [|x l IH]; intros Hnd Hin.
  - by apply elem_of_nil in Hin.
  - apply NoDup_cons in Hnd as [Hx Hnd]. simpl.
    destruct (String.eqb_spec x key) as [->|Hne]; simpl.
    + rewrite filter_neq_absent by done.
      symmetry. apply Permutation_cons_append.
    + apply elem_of_cons in Hin as [->|Hin]; [congruence|].
      f_equiv. by apply IH.
Qed.

Lemma partition_strong_inv s : partition_strong s -> partition_inv s.
Proof.
  intros [Hnd Hperm]. unfold partition_inv.
  rewrite <- Hperm in Hnd. apply NoDup_app in Hnd as (Hp & Hdis & Hc).
  repeat split; try done.
  rewrite <- Hperm, length_app. unfold completedKeys. by rewrite length_fmap.
Qed.

Lemma createSession_partition sid now md st :
  NoDup (JsString.split_trim_filter (or_empty (secrets_needs_input md))) ->
  partition_strong (fst (createSession sid now md st)).
Proof.
  intros Hnd. unfold partition_strong, originalKeys, completedKeys; simpl.
  split; [done|]. by rewrite app_nil_r.
Qed.

Lemma applySecret_partition key ev who now s :
  key ∈ pending s -> partition_strong s ->
  partition_strong (applySecret key ev who now s).
Proof.
  intros Hin [Hnd Hperm]. unfold partition_strong, originalKeys in *.
  rewrite applySecret_metadata. split; [done|].
  unfold completedKeys, applySecret; simpl.
  rewrite fmap_app; simpl.
  assert (Hp : NoDup (pending s)).
  { rewrite <- Hperm in Hnd. by apply NoDup_app in Hnd as (? & _ & _). }
  rewrite <- Hperm.
  rewrite (Permutation_app_comm (ce_key <$> completedEntries s) [key]).
  rewrite app_assoc. f_equiv; [by apply filter_neq_perm | done].
Qed.

(** ** Effects: what a handler step may change *)

Section EffStep.

Context {W : Type} `{Network W}.
Variable R : Runtime W -> Runtime W -> Prop.
Hypothesis R_refl : forall rt, R rt rt.
Hypothesis R_trans : forall a b c, R a b -> R b c -> R a c.

Lemma step_ret {A} (a : A) : eff_step R (eff_ret a).
Proof. intros rt. apply R_refl. Qed.

Lemma step_throw {A} e : eff_step R (throw (A:=A) e).
Proof. intros rt. apply R_refl. Qed.

Lemma step_lift {A} (o : Outcome A) : eff_step R (lift_outcome o).
Proof. intros rt. apply R_refl. Qed.

Lemma step_read {A} (f : Store -> A) : eff_step R (read_store f).
Proof. intros rt. apply R_refl. Qed.

Lemma step_bind {A B} (m : Eff W A) (k : A -> Eff W B) :
  eff_step R m -> (forall a, eff_step R (k a)) -> eff_step R (eff_bind m k).
Proof.
  intros Hm Hk rt. unfold eff_bind. specialize (Hm rt).
  destruct (m rt) as [[a|e] rt1]; simpl in *; [|done].
  eapply R_trans; [exact Hm | apply Hk].
Qed.

Lemma step_try_catch {A} (m : Eff W A) (h : string -> Eff W A) :
  eff_step R m -> (forall e, eff_step R (h e)) -> eff_step R (try_catch m h).
Proof.
  intros Hm Hh rt. unfold try_catch. specialize (Hm rt).
  destruct (m rt) as [[a|e] rt1]; simpl in *; [done|].
  eapply R_trans; [exact Hm | apply Hh].
Qed.

End EffStep.

Lemma same_store_refl {W} (rt : Runtime W) : same_store rt rt.
Proof. reflexivity. Qed.

Lemma same_store_trans {W} (a b c : Runtime W) :
  same_store a b -> same_store b c -> same_store a c.
Proof. unfold same_store. congruence. Qed.

Lemma sent_only_refl {W} P (rt : Runtime W) : sent_only P rt rt.
Proof. exists []. by rewrite app_nil_r. Qed.

Lemma sent_only_trans {W} P (a b c : Runtime W) :
  sent_only P a b -> sent_only P b c -> sent_only P a c.
Proof.
  intros (l1 & E1 & F1) (l2 & E2 & F2). exists (l1 ++ l2).
  rewrite E2, E1, app_assoc. split; [done|]. by apply Forall_app.
Qed.

Lemma fetch_same_store {W} `{Network W} rq : eff_step same_store (fetch rq).
Proof.
  intros rt. unfold fetch.
  destruct (http_fetch rq (rt_world rt)) as [[r|e] w']; reflexivity.
Qed.

Lemma fetch_sent_only {W} `{Network W} (P : Request -> Prop) rq :
  P rq -> eff_step (sent_only P) (fetch rq).
Proof.
  intros HP rt. unfold fetch.
  destruct (http_fetch rq (rt_world rt)) as [[r|e] w']; simpl;
    (exists [rq]; split; [done | by constructor]).
Qed.

Lemma on_store_try_sent_only {W A} P (f : Store -> Outcome A * Store) :
  eff_step (W:=W) (sent_only P) (on_store_try f).
Proof.
  intros rt. unfold on_store_try. destruct (f (rt_store rt)); simpl.
  exists []. by rewrite app_nil_r.
Qed.

(** Decompose a handler into its steps, for a reflexive and transitive
    relation on runtimes; [fetch_tac] settles the [fetch] leaves. *)
Ltac eff_steps refl_tac trans_tac fetch_tac :=
  repeat first
    [ apply step_ret; refl_tac
    | apply step_throw; refl_tac
    | apply step_lift; refl_tac
    | apply step_read; refl_tac
    | fetch_tac
    | apply step_bind; [trans_tac | | intros ?]
    | apply step_try_catch; [trans_tac | | intros ?]
    | match goal with
      | |- eff_step _ (if ?b then _ else _) => destruct b
      | |- eff_step _ (match ?x with _ => _ end) => destruct x
      | |- eff_step _ (let _ := _ in _) => cbv zeta
      end ].

Ltac same_store_steps :=
  eff_steps ltac:(exact same_store_refl) ltac:(exact same_store_trans)
            ltac:(apply fetch_same_store).

Ltac no_write_with leaf_tac :=
  eff_steps ltac:(apply sent_only_refl) ltac:(apply sent_only_trans) leaf_tac.

Ltac no_write_steps :=
  no_write_with ltac:(apply fetch_sent_only; intros [p Hp]; discriminate Hp).

Section HandlerSteps.

Context {W : Type} `{Network W} {C : NodeCrypto} {JR : JsRuntime}.
Variable cfg : Config.

Lemma verifyKeyAccess_same_store user key session :
  eff_step same_store (TeamAccess.verifyKeyAccess cfg user key session).
Proof.
  unfold TeamAccess.verifyKeyAccess, TeamAccess.checkUserTeamMembership.
  same_store_steps.
Qed.

Lemma fetchVaultPayload_same_store url token :
  eff_step same_store (Vault.fetchVaultPayload url token).
Proof. unfold Vault.fetchVaultPayload. same_store_steps. Qed.

Lemma trigger_same_store now session :
  eff_step same_store (Trigger.triggerDownstreamWorkflow cfg now session).
Proof. unfold Trigger.triggerDownstreamWorkflow. same_store_steps. Qed.

Lemma verifyKeyAccess_no_write user key session :
  eff_step (sent_only (fun rq => ~ is_vault_write rq))
    (TeamAccess.verifyKeyAccess cfg user key session).
Proof.
  unfold TeamAccess.verifyKeyAccess, TeamAccess.checkUserTeamMembership.
  no_write_steps.
Qed.

Lemma fetchVaultPayload_no_write url token :
  eff_step (sent_only (fun rq => ~ is_vault_write rq))
    (Vault.fetchVaultPayload url token).
Proof. unfold Vault.fetchVaultPayload. no_write_steps. Qed.

Lemma trigger_no_write now session :
  eff_step (sent_only (fun rq => ~ is_vault_write rq))
    (Trigger.triggerDownstreamWorkflow cfg now session).
Proof.
  unfold Trigger.triggerDownstreamWorkflow, Trigger.dispatch_request.
  no_write_steps.
Qed.

(** The submission route never sends a document to the Vault. *)
Lemma postSecret_no_write rq :
  eff_step (sent_only (fun r => ~ is_vault_write r)) (Routes.postSecret cfg rq).
Proof.
  unfold Routes.postSecret, Routes.postSecret_try, Routes.postSecret_check,
    Routes.postSecret_resume, Routes.postSecret_catch.
  no_write_with
    ltac:(first [ apply verifyKeyAccess_no_write
                | apply fetchVaultPayload_no_write
                | apply trigger_no_write
                | apply on_store_try_sent_only ]).
Qed.

(** Neither does its second part on its own. *)
Lemma postSecret_finish_no_write rq session key value :
  eff_step (sent_only (fun r => ~ is_vault_write r))
    (Routes.postSecret_finish cfg rq session key value).
Proof.
  unfold Routes.postSecret_finish, Routes.postSecret_resume,
    Routes.postSecret_catch.
  no_write_with
    ltac:(first [ apply verifyKeyAccess_no_write
                | apply fetchVaultPayload_no_write
                | apply trigger_no_write
                | apply on_store_try_sent_only ]).
Qed.

End HandlerSteps.

(** Close a branch of the submission route that replies without having
    touched the store. *)
Ltac reject_submission Hrun :=
  simpl in Hrun; injection Hrun as <- <-;
  eexists; split; [reflexivity|]; left;
  split; [first [done | congruence] | discriminate].

Section SubmissionCases.

Context {W : Type} `{Network W} {C : NodeCrypto} {JR : JsRuntime}.
Variable cfg : Config.

(** The first part of the route only reads: it answers, or it hands on the
    session stored under the id, with a key of its pending list. *)
Lemma postSecret_check_cases (rq : SecretSubmission) (rt : Runtime W) :
  (exists reply,
     Routes.postSecret_check rq rt = (Returned (Rejected reply), rt)
     /\ forall k p a, reply <> ReplySubmitted k p a)
  \/ exists key value s,
       Routes.postSecret_check rq rt = (Returned (Proceed s key value), rt)
       /\ sub_key rq = Some key
       /\ sub_value rq = Some value
       /\ sessions (rt_store rt) !! sub_sessionId rq = Some s
       /\ key ∈ pending s.
Proof.
  unfold Routes.postSecret_check.
  destruct (negb (truthy (sub_key rq)) || negb (truthy (sub_value rq))) eqn:Hkv.
  { left. eexists. split; [reflexivity | discriminate]. }
  apply orb_false_elim in Hkv as [Hk Hv].
  apply negb_false_iff in Hk, Hv.
  destruct (sub_key rq) as [key|] eqn:Ek; [|discriminate Hk].
  destruct (sub_value rq) as [value|] eqn:Ev; [|discriminate Hv].
  unfold eff_bind, read_store, getSession. cbn [default from_option id].
  destruct (sessions (rt_store rt) !! sub_sessionId rq) as [s|] eqn:Es.
  2:{ left. eexists. split; [reflexivity | discriminate]. }
  unfold JsString.includes.
  destruct (bool_decide (key ∈ pending s)) eqn:Hin.
  2:{ left. eexists. split; [reflexivity | discriminate]. }
  apply bool_decide_eq_true in Hin. right. by exists key, value, s.
Qed.

(** The route is its two parts back to back. *)
Lemma postSecret_staged (rq : SecretSubmission) (rt : Runtime W) :
  Routes.postSecret cfg rq rt
  = match Routes.postSecret_check rq rt with
    | (Returned (Rejected reply), rt1) => (Returned reply, rt1)
    | (Returned (Proceed session key value), rt1) =>
        Routes.postSecret_finish cfg rq session key value rt1
    | (Thrown e, rt1) => Routes.postSecret_catch e rt1
    end.
Proof.
  unfold Routes.postSecret, Routes.postSecret_finish, Routes.postSecret_try,
    try_catch, eff_bind.
  by destruct (Routes.postSecret_check rq rt) as [[[reply|s key value]|e] rt1].
Qed.

(** What the second part of the route does to the store: nothing, with a
    reply other than success; or exactly the update of [updateSessionSecret]
    on the session that the store holds by then, with the success reply
    computed from the updated session. *)
Lemma postSecret_finish_cases rq session key value rt o rt' :
  Routes.postSecret_finish cfg rq session key value rt = (o, rt') ->
  exists reply, o = Returned reply /\
  ((rt_store rt' = rt_store rt /\
    forall k p a, reply <> ReplySubmitted k p a)
   \/ exists s pv,
        sessions (rt_store rt) !! sub_sessionId rq = Some s /\
        let s' := applySecret key pv (login (sub_user rq)) (sub_now rq) s in
        rt_store rt' =
          {| sessions := <[sub_sessionId rq := s']> (sessions (rt_store rt));
             workflowRunIdMap := workflowRunIdMap (rt_store rt) |} /\
        reply = ReplySubmitted key (pending s')
                  (bool_decide (status s' = completed))).
Proof.
  intros Hrun.
  unfold Routes.postSecret_finish, try_catch, Routes.postSecret_resume,
    Routes.postSecret_catch in Hrun.
  unfold eff_bind at 1 in Hrun.
  pose proof (verifyKeyAccess_same_store cfg (sub_user rq) key session rt)
    as Hs1.
  destruct (TeamAccess.verifyKeyAccess cfg (sub_user rq) key session rt)
    as [[hasAccess|e1] rt1]; simpl in Hs1; unfold same_store in Hs1.
  2:{ reject_submission Hrun. }
  destruct hasAccess.
  2:{ reject_submission Hrun. }
  change (negb true) with false in Hrun. cbv beta iota in Hrun.
  unfold eff_bind at 1, lift_outcome at 1 in Hrun.
  destruct (Encryption.processSecretValue _ _ _ _ _ _ _) as [pv|e2].
  2:{ reject_submission Hrun. }
  destruct (negb (truthy (vault_url session))
            || negb (truthy (github_secrets_VAULT_TOKEN (metadata session)))).
  { reject_submission Hrun. }
  unfold eff_bind at 1 in Hrun.
  match type of Hrun with context [Vault.fetchVaultPayload ?u ?t rt1] =>
    pose proof (fetchVaultPayload_same_store u t rt1) as Hs2;
    destruct (Vault.fetchVaultPayload u t rt1) as [[payload|e3] rt2]
  end; simpl in Hs2; unfold same_store in Hs2.
  2:{ reject_submission Hrun. }
  unfold eff_bind at 1, lift_outcome at 1 in Hrun.
  destruct (Vault.setPayloadKey key pv payload) as [logged|e5].
  2:{ reject_submission Hrun. }
  unfold eff_bind at 1, on_store_try at 1, updateSessionSecret at 1 in Hrun.
  rewrite Hs2, Hs1 in Hrun.
  destruct (sessions (rt_store rt) !! sub_sessionId rq) as [s|] eqn:Es.
  2:{ simpl in Hrun. injection Hrun as <- <-.
      eexists; split; [reflexivity|]; left.
      split; [by rewrite <- Hs1, <- Hs2 | discriminate]. }
  unfold eff_bind at 1, read_store at 1, getSession at 1 in Hrun.
  cbn [rt_store sessions] in Hrun. rewrite lookup_insert_eq in Hrun.
  set (s' := applySecret key pv (login (sub_user rq)) (sub_now rq) s) in *.
  unfold eff_bind at 1 in Hrun.
  match type of Hrun with context [(if ?b then ?m else ?n) ?r] =>
    assert (Hfire : exists rt3, (if b then m else n) r = (Returned (), rt3)
                                /\ rt_store rt3 = rt_store r)
  end.
  { destruct (bool_decide (status s' = completed)).
    - unfold try_catch, eff_bind.
      match goal with |- context [Trigger.triggerDownstreamWorkflow cfg ?n ?x ?r] =>
        pose proof (trigger_same_store cfg n x r) as Hs3;
        destruct (Trigger.triggerDownstreamWorkflow cfg n x r) as [[tr|e4] rt3]
      end; simpl in Hs3; unfold same_store in Hs3; eauto.
    - eexists; split; reflexivity. }
  destruct Hfire as (rt3 & Hfire & Hs3). rewrite Hfire in Hrun.
  injection Hrun as <- <-. eexists; split; [reflexivity|]. right.
  exists s, pv. repeat split; try done.
Qed.

(** What a request to the submission route does to the store when no other
    request overlaps it: nothing, with a reply other than success; or exactly
    the update of [updateSessionSecret] for a key found in the pending list,
    with the success reply computed from the updated session. *)
Lemma postSecret_store_cases rq rt o rt' :
  Routes.postSecret cfg rq rt = (o, rt') ->
  exists reply, o = Returned reply /\
  ((rt_store rt' = rt_store rt /\
    forall k p a, reply <> ReplySubmitted k p a)
   \/ exists key s pv,
        sub_key rq = Some key /\
        sessions (rt_store rt) !! sub_sessionId rq = Some s /\
        key ∈ pending s /\
        let s' := applySecret key pv (login (sub_user rq)) (sub_now rq) s in
        rt_store rt' =
          {| sessions := <[sub_sessionId rq := s']> (sessions (rt_store rt));
             workflowRunIdMap := workflowRunIdMap (rt_store rt) |} /\
        reply = ReplySubmitted key (pending s')
                  (bool_decide (status s' = completed))).
Proof.
  rewrite postSecret_staged. intros Hrun.
  destruct (postSecret_check_cases rq rt)
    as [(reply & Hadm & Hno) | (key & value & s & Hadm & Hk & Hv & Hs & Hin)];
    rewrite Hadm in Hrun.
  - injection Hrun as <- <-. exists reply. split; [done|]. by left.
  - destruct (postSecret_finish_cases rq s key value rt o rt' Hrun)
      as (reply & -> & [Hsame | (s0 & pv & Hs0 & Hst & Hreply)]).
    + exists reply. split; [done|]. by left.
    + exists reply. split; [done|]. right.
      assert (s0 = s) as -> by congruence.
      by exists key, s, pv.
Qed.

End SubmissionCases.

(** ** C1: status and pending list *)

(** C1, the claim as written, fails: a registration whose key list is
    only a separator is accepted by [POST /api/sessions] and yields a session
    with no pending key whose status is [awaiting_input]. *)
Lemma blank_key_list_status_disagrees :
  fst (Routes.postSession "sess-1" "t0" blank_metadata (sim_runtime empty_store))
    = Returned (ReplyCreated "sess-1" 0)
  /\ pending (fst (createSession "sess-1" "t0" blank_metadata empty_store)) = []
  /\ ~ status_agrees (fst (createSession "sess-1" "t0" blank_metadata empty_store)).
Proof.
  split; [reflexivity|]. split; [reflexivity|].
  intros [_ Hc]. discriminate (Hc eq_refl).
Qed.

(** C1, amended: for a session whose key list yields at least one key, the
    status agrees with the pending list immediately after creation; after
    every [updateSessionSecret] on an existing session, and so after every
    accepted submission, the stored session has status [completed] if and
    only if its pending list is empty, and the reply's [allCompleted] flag
    says the same. *)
Theorem status_completed_iff_no_pending :
  forall (sid now : string) (md : Metadata) (st : Store),
    (pending (fst (createSession sid now md st)) <> [] ->
     sessions (snd (createSession sid now md st)) !! sid
     = Some (fst (createSession sid now md st))
     /\ status_agrees (fst (createSession sid now md st)))
    /\ (forall key ev who now' s0,
          sessions st !! sid = Some s0 ->
          exists s' st',
            updateSessionSecret sid key ev who now' st = (Returned s', st')
            /\ sessions st' !! sid = Some s'
            /\ status_agrees s')
    /\ (forall W (N : Network W) (C : NodeCrypto) (JR : JsRuntime) (cfg : Config)
               (rq : SecretSubmission) (rt rt' : Runtime W) k p a,
          Routes.postSecret cfg rq rt = (Returned (ReplySubmitted k p a), rt') ->
          exists s',
            sessions (rt_store rt') !! sub_sessionId rq = Some s'
            /\ status_agrees s'
            /\ p = pending s'
            /\ (a = true <-> pending s' = [])).
Proof.
  intros sid now md st. split; [|split].
  - intros Hne. split; [apply lookup_insert_eq|].
    unfold status_agrees. simpl in *. split; [discriminate | done].
  - intros key ev who now' s0 Hs0. unfold updateSessionSecret. rewrite Hs0.
    eexists _, _. split; [reflexivity|]. simpl. rewrite lookup_insert_eq.
    split; [reflexivity | apply applySecret_status_agrees].
  - intros W N C JR cfg rq rt rt' k p a Hrun.
    destruct (postSecret_store_cases cfg rq rt _ _ Hrun)
      as (reply & [= <-] & [[_ Hno] | (key & s & pv & _ & _ & _ & Hst & Hr)]).
    { by destruct (Hno k p a). }
    cbv zeta in Hst, Hr. injection Hr as -> -> ->.
    eexists. rewrite Hst. simpl. rewrite lookup_insert_eq.
    split; [reflexivity|].
    pose proof (applySecret_status_agrees key pv (login (sub_user rq))
                  (sub_now rq) s) as Hag.
    split; [exact Hag|]. split; [reflexivity|].
    rewrite bool_decide_eq_true. exact Hag.
Qed.

Lemma status_completed_iff_no_pending_witness :
  exists s' st',
    updateSessionSecret "sess-1" "db_password" "v" "alice" "t1"
      (snd (createSession "sess-1" "t0" one_key_metadata empty_store))
    = (Returned s', st')
    /\ sessions st' !! "sess-1" = Some s'
    /\ status_agrees s'.
Proof.
  apply (proj1 (proj2 (status_completed_iff_no_pending
                         "sess-1" "t0" one_key_metadata
                         (snd (createSession "sess-1" "t0" one_key_metadata
                                 empty_store))))
           "db_password" "v" "alice" "t1"
           (fst (createSession "sess-1" "t0" one_key_metadata empty_store))).
  vm_compute. reflexivity.
Defined.

(** ** C2: pending and completed keys partition the key list *)

Section Bookkeeping.

Context {W : Type} `{Network W} {C : NodeCrypto} {JR : JsRuntime}.
Variable cfg : Config.

Lemma run_op_partitioned op rt :
  distinct_keys op -> all_partitioned rt ->
  all_partitioned (Engine.run_op cfg op rt).
Proof.
  intros Hop Hinv sid s. destruct op as [sid0 now md | rq]; simpl.
  - rewrite lookup_insert. case_decide as Hsid.
    + intros [= <-]. by apply (createSession_partition sid0 now md (rt_store rt)).
    + apply Hinv.
  - destruct (Routes.postSecret cfg rq rt) as [o rt'] eqn:Hrun.
    destruct (postSecret_store_cases cfg rq rt o rt' Hrun)
      as (reply & _ & [[Hst _] | (key & s0 & pv & _ & Hs0 & Hin & Hst & _)]);
      simpl; rewrite Hst.
    + apply Hinv.
    + simpl. rewrite lookup_insert. case_decide as Hsid.
      * intros [= <-]. apply applySecret_partition; [done|]. by eapply Hinv.
      * apply Hinv.
Qed.

Lemma run_ops_partitioned ops rt :
  Forall distinct_keys ops -> all_partitioned rt ->
  all_partitioned (Engine.run_ops cfg ops rt).
Proof.
  intros Hops. revert rt.
  induction Hops as [|op ops Hop _ IH]; intros rt Hinv; simpl; [done|].
  apply IH. by apply run_op_partitioned.
Qed.

(** Requests handled one after the other are the operations run in
    sequence: no handler is left waiting. *)
Lemma one_at_a_time_run ops rt :
  Overlap.run cfg (Overlap.one_at_a_time ops) (rt, [])
  = (Engine.run_ops cfg ops rt, []).
Proof.
  revert rt. induction ops as [|op ops IH]; intros rt; [done|].
  unfold Overlap.one_at_a_time, Overlap.run, Engine.run_ops in *.
  cbn [mbind list_bind]. rewrite foldl_app. cbn [foldl].
  destruct op as [sid now md | rq]; cbn [foldl Overlap.step Engine.run_op].
  - apply IH.
  - rewrite postSecret_staged.
    destruct (postSecret_check_cases rq rt)
      as [(reply & Hadm & _) | (key & value & s & Hadm & _)]; rewrite Hadm.
    + cbn [Overlap.step lookup list_lookup snd]. apply IH.
    + cbn [app Overlap.step lookup list_lookup w_request w_session w_key
           w_value delete list_delete]. apply IH.
Qed.

End Bookkeeping.


(** C2 also needs the requests to be handled one after the other: when a
    second submission of a key arrives while the first one waits at its
    first [await], both pass the check of the pending list, both update the
    session, and the key has two completed entries. *)
Lemma overlapping_submissions_repeat_a_key :
  distinct_keys (OpCreate "sess-1" "t0" one_key_metadata)
  /\ one_key_runtime
     = Engine.run_ops (C:=toy_crypto) (R:=toy_runtime) sim_config
         [OpCreate "sess-1" "t0" one_key_metadata] (sim_runtime empty_store)
  /\ exists s,
       sessions
         (rt_store (fst (Overlap.run (C:=toy_crypto) (R:=toy_runtime)
                           sim_config overlapping_events
                           (one_key_runtime, []))))
         !! "sess-1" = Some s
       /\ pending s = []
       /\ completedKeys s = ["db_password"; "db_password"]
       /\ ~ partition_inv s.
Proof.
  split; [apply (bool_decide_unpack _); vm_compute; exact I|].
  split; [reflexivity|].
  eexists. split; [vm_compute; reflexivity|].
  split; [reflexivity|]. split; [reflexivity|].
  intros (_ & _ & _ & Hnd). vm_compute in Hnd.
  apply NoDup_cons in Hnd as [Hnot _]. apply Hnot. left.
Qed.



(** ** C3: rejected submissions *)

(** C3, the claim as written, fails: a submission without a value for a
    session id that does not exist is answered [400 Missing key or value],
    not [404]; the body check runs before the session lookup. *)
Lemma missing_value_precedes_not_found :
  getSession "nope" empty_store = None
  /\ Routes.postSecret (C:=toy_crypto) (R:=toy_runtime) sim_config
       (sim_submission "nope" (Some "api_key") None) (sim_runtime empty_store)
     = (Returned (ReplyError 400 "Missing key or value"),
        sim_runtime empty_store)
  /\ ReplyError 400 "Missing key or value"
     <> ReplyError 404 "Session not found".
Proof. split; [reflexivity|]. split; [reflexivity | discriminate]. Qed.

(** C3, amended: for a submission that carries a non-empty key and a
    non-empty value, an unknown session id is answered [404 Session not
    found] and a key outside the session's pending list is answered
    [400 Key already processed or not in pending list]; a submission whose key
    or value is missing or empty is answered [400 Missing key or value]
    before any lookup. In all three cases the store (hence every session's
    pending list, completed entries, key status, status and audit log), the
    outside world and the requests sent are exactly as before.
    [updateSessionSecret] itself throws [Session not found] for an unknown
    id and leaves the store as it was. *)
Theorem rejected_submission_changes_nothing :
  forall W (N : Network W) (C : NodeCrypto) (JR : JsRuntime) (cfg : Config)
         (rq : SecretSubmission) (rt : Runtime W),
    (truthy (sub_key rq) && truthy (sub_value rq) = false ->
       Routes.postSecret cfg rq rt
       = (Returned (ReplyError 400 "Missing key or value"), rt))
    /\ (truthy (sub_key rq) && truthy (sub_value rq) = true ->
        getSession (sub_sessionId rq) (rt_store rt) = None ->
        Routes.postSecret cfg rq rt
        = (Returned (ReplyError 404 "Session not found"), rt))
    /\ (forall s,
          truthy (sub_key rq) && truthy (sub_value rq) = true ->
          getSession (sub_sessionId rq) (rt_store rt) = Some s ->
          default "" (sub_key rq) ∉ pending s ->
          Routes.postSecret cfg rq rt
          = (Returned (ReplyError 400
                         "Key already processed or not in pending list"), rt))
    /\ (forall key ev who now,
          getSession (sub_sessionId rq) (rt_store rt) = None ->
          updateSessionSecret (sub_sessionId rq) key ev who now (rt_store rt)
          = (Thrown "Session not found", rt_store rt)).
Proof.
  intros W N C JR cfg rq rt.
  unfold Routes.postSecret, try_catch, Routes.postSecret_try,
    Routes.postSecret_check.
  repeat split.
  - intros Hkv. apply andb_false_iff in Hkv.
    assert (negb (truthy (sub_key rq)) || negb (truthy (sub_value rq)) = true)
      as -> by (destruct Hkv as [-> | ->]; [done | apply orb_true_r]).
    reflexivity.
  - intros Hkv Hs. apply andb_true_iff in Hkv as [-> ->]. simpl.
    unfold eff_bind, read_store. by rewrite Hs.
  - intros s Hkv Hs Hnot. apply andb_true_iff in Hkv as [-> ->]. simpl.
    unfold eff_bind, read_store. rewrite Hs. unfold JsString.includes.
    by rewrite bool_decide_eq_false_2.
  - intros key ev who now Hs. unfold updateSessionSecret.
    unfold getSession in Hs. by rewrite Hs.
Qed.

Lemma rejected_submission_changes_nothing_witness :
  Routes.postSecret (C:=toy_crypto) (R:=toy_runtime) sim_config
    (sim_submission "sess-1" (Some "unknown_key") (Some "v"))
    (sim_runtime (snd (createSession "sess-1" "t0" two_keys_metadata empty_store)))
  = (Returned (ReplyError 400 "Key already processed or not in pending list"),
     sim_runtime (snd (createSession "sess-1" "t0" two_keys_metadata empty_store))).
Proof.
  apply (proj1 (proj2 (proj2
           (rejected_submission_changes_nothing SimWorld sim_network toy_crypto toy_runtime
              sim_config
              (sim_submission "sess-1" (Some "unknown_key") (Some "v"))
              (sim_runtime (snd (createSession "sess-1" "t0" two_keys_metadata
                                   empty_store))))))
           (fst (createSession "sess-1" "t0" two_keys_metadata empty_store))).
  - reflexivity.
  - vm_compute. reflexivity.
  - apply (bool_decide_unpack _). vm_compute. exact I.
Defined.

(** ** Strings, hex and keys *)

Lemma split_on_no_sep sep s :
  JsString.has_char sep s = false -> JsString.split_on sep s = [s].
Proof.
  induction s as [|c s IH]; simpl; [done|].
  intros Hc. apply orb_false_elim in Hc as [-> Hs]. by rewrite IH.
Qed.

Lemma split_on_field sep a rest :
  JsString.has_char sep a = false ->
  JsString.split_on sep (a +:+ String sep rest)
  = a :: JsString.split_on sep rest.
Proof.
  induction a as [|c a IH]; simpl.
  - intros _. by rewrite Ascii.eqb_refl.
  - intros Hc. apply orb_false_elim in Hc as [-> Ha]. by rewrite IH.
Qed.

Lemma hex_digit_not_colon n : Ascii.eqb (Hex.hex_digit n) ":" = false.
Proof. do 16 (destruct n as [|n]; [reflexivity|]). reflexivity. Qed.

Lemma hex_digit_not_n n : Hex.hex_digit n <> "n"%char.
Proof. do 16 (destruct n as [|n]; [discriminate|]). discriminate. Qed.

Lemma hex_digit_is_hex n : Hex.is_hex_digit (Hex.hex_digit n) = true.
Proof. do 16 (destruct n as [|n]; [reflexivity|]). reflexivity. Qed.

Lemma toHex_no_colon b : JsString.has_char ":" (Hex.toHex b) = false.
Proof.
  induction b as [|c b IH]; simpl; [done|].
  by rewrite !hex_digit_not_colon, IH.
Qed.

Lemma toHex_all_hex b : Hex.all_hex (Hex.toHex b) = true.
Proof.
  induction b as [|c b IH]; simpl; [done|].
  by rewrite !hex_digit_is_hex, IH.
Qed.

(** One byte survives printing and parsing in hex. *)
Lemma hex_byte_roundtrip c :
  Hex.hex_value (Hex.hex_digit (nat_of_ascii c / 16)) = Some (nat_of_ascii c / 16)
  /\ Hex.hex_value (Hex.hex_digit (nat_of_ascii c mod 16))
     = Some (nat_of_ascii c mod 16)
  /\ ascii_of_nat (16 * (nat_of_ascii c / 16) + nat_of_ascii c mod 16) = c.
Proof.
  destruct c as [[] [] [] [] [] [] [] []]; vm_compute; done.
Qed.

Lemma fromHex_toHex b : Hex.fromHex (Hex.toHex b) = b.
Proof.
  induction b as [|c b IH]; [done|].
  destruct (hex_byte_roundtrip c) as (Hh & Hl & Hc).
  cbn [Hex.toHex Hex.fromHex]. rewrite Hh, Hl, Hc, IH. done.
Qed.

Lemma utf8_roundtrip s : utf8_text (utf8_bytes s) = s.
Proof. apply string_of_list_ascii_of_string. Qed.

Lemma normalize_key_length k : length (normalize_key k) = 32.
Proof.
  unfold normalize_key. destruct (Nat.ltb_spec (length k) 32).
  - rewrite length_app, length_replicate. lia.
  - rewrite length_take. lia.
Qed.

(** A colon-joined pair of hex fields is not tagged [enc:]. *)
Lemma hex_pair_not_tagged iv rest :
  JsString.startsWith "enc:" (Hex.toHex iv +:+ ":" +:+ rest) = false.
Proof.
  unfold JsString.startsWith. destruct iv as [|c iv]; [reflexivity|].
  change (String.prefix "enc:" (Hex.toHex (c :: iv) +:+ ":" +:+ rest))
    with (if ascii_dec "e" (Hex.hex_digit (nat_of_ascii c / 16)) then
            if ascii_dec "n" (Hex.hex_digit (nat_of_ascii c mod 16)) then
              String.prefix "c:" (Hex.toHex iv +:+ ":" +:+ rest)
            else false
          else false).
  destruct (ascii_dec "e" _); [|done].
  destruct (ascii_dec "n" _) as [Hn|]; [|done].
  symmetry in Hn. by apply hex_digit_not_n in Hn.
Qed.

#[global] Instance toy_gcm_correct : GcmCorrect toy_crypto.
Proof.
  intros key iv plain _ _. exists plain, iv. split; [reflexivity|].
  simpl. by rewrite bool_decide_eq_true_2.
Qed.

#[global] Instance toy_cbc_total : CbcTotal toy_crypto.
Proof. intros key iv plain _ _. by eexists. Qed.

Lemma startsWith_enc x : JsString.startsWith "enc:" ("enc:" +:+ x) = true.
Proof. unfold JsString.startsWith. simpl. by destruct x. Qed.

Lemma split_envelope a b c :
  JsString.has_char ":" a = false -> JsString.has_char ":" b = false ->
  JsString.has_char ":" c = false ->
  JsString.split_on ":" ("enc:" +:+ a +:+ ":" +:+ b +:+ ":" +:+ c)
  = ["enc"; a; b; c].
Proof.
  intros Ha Hb Hc.
  change ("enc:" +:+ a +:+ ":" +:+ b +:+ ":" +:+ c)
    with ("enc" +:+ String ":" (a +:+ String ":" (b +:+ String ":" c))).
  rewrite (split_on_field ":" "enc") by reflexivity.
  rewrite (split_on_field ":" a) by done.
  rewrite (split_on_field ":" b) by done.
  by rewrite split_on_no_sep.
Qed.

Lemma split_pair a b :
  JsString.has_char ":" a = false -> JsString.has_char ":" b = false ->
  JsString.split_on ":" (a +:+ ":" +:+ b) = [a; b].
Proof.
  intros Ha Hb. change (a +:+ ":" +:+ b) with (a +:+ String ":" b).
  rewrite split_on_field by done. by rewrite split_on_no_sep.
Qed.

Lemma has_colon_pair a b : JsString.has_char ":" (a +:+ ":" +:+ b) = true.
Proof.
  induction a as [|c a IH]; simpl; [reflexivity|].
  change (a +:+ String ":" b) with (a +:+ ":" +:+ b).
  rewrite IH. apply orb_true_r.
Qed.

(** ** C4, C5, C7: the encryption helpers *)

Section GistCrypto.

Context {C : NodeCrypto}.
Variable K : string.

(** What [decryptValue] computes on a well-formed envelope. *)
Lemma decryptValue_try_envelope iv tag ct :
  Gist.decryptValue_try K
    ("enc:" +:+ Hex.toHex iv +:+ ":" +:+ Hex.toHex tag +:+ ":" +:+ Hex.toHex ct)
  = match aes256gcm_open (Gist.getEncryptionKey K) iv tag ct with
    | Some decrypted => Returned (utf8_text decrypted)
    | None => Thrown "Unsupported state or unable to authenticate data"
    end.
Proof.
  unfold Gist.decryptValue_try.
  rewrite startsWith_enc.
  rewrite split_envelope by apply toHex_no_colon.
  cbn [negb length Nat.eqb nth]. by rewrite !fromHex_toHex.
Qed.

(** [decryptValue] returns the output of [encryptSecret] as it is. *)
Lemma decryptValue_of_encryptSecret iv plain key name v :
  Encryption.encryptSecret iv plain key name = Returned v ->
  Gist.decryptValue K v = Returned v.
Proof.
  unfold Encryption.encryptSecret.
  destruct (aes256cbc_encrypt _ _ _) as [ct|]; [|discriminate].
  intros [= <-]. unfold Gist.decryptValue, Gist.decryptValue_try.
  by rewrite hex_pair_not_tagged.
Qed.

End GistCrypto.

(** C4, the claim as written, fails for the encryption the session engine
    uses: [encryptSecret] writes [iv:ciphertext] without the [enc:] tag, the
    program has no decrypt operation for it, and [decryptValue] gives the
    encrypted text back instead of the plaintext, here for the plaintext
    [s3], in the small world and then for every cipher. *)
Lemma session_encryption_has_no_inverse :
  Encryption.encryptSecret (C:=toy_crypto) sim_iv "s3"
    "0123456789abcdef0123456789abcdef" "db_password"
  = Returned "30313233343536373839616263646566:7333"
  /\ Gist.decryptValue (C:=toy_crypto) "0123456789abcdef0123456789abcdef"
       "30313233343536373839616263646566:7333"
     = Returned "30313233343536373839616263646566:7333"
  /\ Returned "30313233343536373839616263646566:7333"
     <> Returned (A:=string) "s3"
  /\ (forall (C : NodeCrypto) (K : string) (iv : Buffer) (key name v : string),
        Encryption.encryptSecret iv "s3" key name = Returned v ->
        Gist.decryptValue K v <> Returned "s3").
Proof.
  split; [reflexivity|]. split; [reflexivity|]. split; [discriminate|].
  intros C K iv key name v Henc.
  rewrite (decryptValue_of_encryptSecret K iv "s3" key name v Henc).
  intros [= ->]. unfold Encryption.encryptSecret in Henc.
  destruct (aes256cbc_encrypt _ _ _) as [ct|]; [|discriminate].
  injection Henc as Henc.
  pose proof (has_colon_pair (Hex.toHex iv) (Hex.toHex ct)) as Hc.
  rewrite Henc in Hc. discriminate Hc.
Qed.

(** C4, amended: for every plaintext and every process-wide encryption key,
    [decryptValue] applied to the result of [encryptValue] returns the
    plaintext (given that AES-256-GCM opens what it sealed); the output of
    [encryptSecret], whatever the key, is returned by [decryptValue] as it
    is. *)
Theorem gist_encrypt_decrypt_roundtrip :
  forall (C : NodeCrypto) (K : string) (iv : Buffer) (text : string),
    (GcmCorrect C -> length iv = 16 ->
     exists envelope,
       Gist.encryptValue K iv text = Returned envelope
       /\ Gist.decryptValue K envelope = Returned text)
    /\ (forall key name v,
          Encryption.encryptSecret iv text key name = Returned v ->
          Gist.decryptValue K v = Returned v).
Proof.
  intros C K iv text. split.
  - intros Hgcm Hiv.
    destruct (Hgcm (Gist.getEncryptionKey K) iv (utf8_bytes text))
      as (ct & tag & Hseal & Hopen); [apply normalize_key_length | done |].
    unfold Gist.encryptValue. rewrite Hseal.
    eexists; split; [reflexivity|].
    unfold Gist.decryptValue. rewrite decryptValue_try_envelope, Hopen.
    by rewrite utf8_roundtrip.
  - intros key name v. apply decryptValue_of_encryptSecret.
Qed.

Lemma gist_encrypt_decrypt_roundtrip_witness :
  exists envelope,
    Gist.encryptValue (C:=toy_crypto) "short key" sim_iv "s3" = Returned envelope
    /\ Gist.decryptValue (C:=toy_crypto) "short key" envelope = Returned "s3".
Proof.
  apply (proj1 (gist_encrypt_decrypt_roundtrip toy_crypto "short key" sim_iv "s3")).
  - exact toy_gcm_correct.
  - reflexivity.
Defined.

(** C5, the claim as written, fails for [encryptSecret]: its value has two
    fields, no tag and no authentication field, here for the plaintext [s3]
    in the small world and then for every cipher and input. *)
Lemma session_encryption_is_not_an_envelope :
  Encryption.encryptSecret (C:=toy_crypto) sim_iv "s3"
    "0123456789abcdef0123456789abcdef" "db_password"
  = Returned "30313233343536373839616263646566:7333"
  /\ JsString.split_on ":" "30313233343536373839616263646566:7333"
     = ["30313233343536373839616263646566"; "7333"]
  /\ ~ is_envelope "30313233343536373839616263646566:7333"
  /\ (forall (C : NodeCrypto) (iv : Buffer) (plain key name v : string),
        Encryption.encryptSecret iv plain key name = Returned v ->
        ~ is_envelope v).
Proof.
  split; [reflexivity|]. split; [reflexivity|]. split.
  - intros (nonce & tag & ct & _ & _ & _ & Hv). discriminate Hv.
  - intros C iv plain key name v Henc. unfold Encryption.encryptSecret in Henc.
    destruct (aes256cbc_encrypt _ _ _) as [ct|]; [|discriminate].
    injection Henc as <-. intros (nonce & tag & ct' & _ & _ & _ & Hv).
    pose proof (hex_pair_not_tagged iv (Hex.toHex ct)) as Hno.
    rewrite Hv, startsWith_enc in Hno. discriminate Hno.
Qed.

(** C5, amended: [encryptValue] (legacy gist path, AES-256-GCM) produces
    [enc:] followed by the hex of the vector, of the authentication tag and
    of the ciphertext, separated by colons, so the value splits into exactly
    the four fields [enc], vector, tag, ciphertext. [encryptSecret] (the
    session path, AES-256-CBC) produces the hex of the vector, a colon and
    the hex of the ciphertext: two fields, never tagged [enc:], not an
    envelope. *)
Theorem encrypted_value_layout :
  forall (C : NodeCrypto) (K : string) (iv : Buffer) (text key name : string),
    length iv = 16 ->
    (GcmCorrect C ->
     exists tag ct,
       let v := "enc:" +:+ Hex.toHex iv +:+ ":" +:+ Hex.toHex tag
                  +:+ ":" +:+ Hex.toHex ct in
       Gist.encryptValue K iv text = Returned v
       /\ is_envelope v
       /\ JsString.split_on ":" v
          = ["enc"; Hex.toHex iv; Hex.toHex tag; Hex.toHex ct]
       /\ JsString.startsWith "enc:" v = true)
    /\ (CbcTotal C ->
        exists ct,
          let v := Hex.toHex iv +:+ ":" +:+ Hex.toHex ct in
          Encryption.encryptSecret iv text key name = Returned v
          /\ JsString.split_on ":" v = [Hex.toHex iv; Hex.toHex ct]
          /\ JsString.startsWith "enc:" v = false
          /\ ~ is_envelope v).
Proof.
  intros C K iv text key name Hiv. split.
  - intros Hgcm.
    destruct (Hgcm (Gist.getEncryptionKey K) iv (utf8_bytes text))
      as (ct & tag & Hseal & _); [apply normalize_key_length | done |].
    exists tag, ct. cbv zeta. unfold Gist.encryptValue. rewrite Hseal.
    split; [reflexivity|]. split; [|split].
    + exists (Hex.toHex iv), (Hex.toHex tag), (Hex.toHex ct).
      by rewrite !toHex_all_hex.
    + apply split_envelope; apply toHex_no_colon.
    + apply startsWith_enc.
  - intros Hcbc.
    destruct (Hcbc (normalize_key (utf8_bytes key)) iv (utf8_bytes text))
      as [ct Hct]; [apply normalize_key_length | done |].
    exists ct. cbv zeta. unfold Encryption.encryptSecret. rewrite Hct.
    split; [reflexivity|]. split; [|split].
    + apply split_pair; apply toHex_no_colon.
    + apply hex_pair_not_tagged.
    + intros (nonce & tag & ct' & _ & _ & _ & Hv).
      pose proof (hex_pair_not_tagged iv (Hex.toHex ct)) as Hno.
      rewrite Hv, startsWith_enc in Hno. discriminate Hno.
Qed.

Lemma encrypted_value_layout_witness :
  exists tag ct,
    Gist.encryptValue (C:=toy_crypto) "short key" sim_iv "s3"
    = Returned ("enc:" +:+ Hex.toHex sim_iv +:+ ":" +:+ Hex.toHex tag
                  +:+ ":" +:+ Hex.toHex ct)
    /\ is_envelope ("enc:" +:+ Hex.toHex sim_iv +:+ ":" +:+ Hex.toHex tag
                      +:+ ":" +:+ Hex.toHex ct)
    /\ JsString.split_on ":" ("enc:" +:+ Hex.toHex sim_iv +:+ ":" +:+ Hex.toHex tag
                                +:+ ":" +:+ Hex.toHex ct)
       = ["enc"; Hex.toHex sim_iv; Hex.toHex tag; Hex.toHex ct]
    /\ JsString.startsWith "enc:" ("enc:" +:+ Hex.toHex sim_iv +:+ ":"
                                     +:+ Hex.toHex tag +:+ ":" +:+ Hex.toHex ct)
       = true.
Proof.
  apply (proj1 (encrypted_value_layout toy_crypto "short key" sim_iv "s3"
                  "k" "db_password" eq_refl)).
  exact toy_gcm_correct.
Defined.

(** C7: [decryptValue] never throws. A text without the [enc:] prefix is
    returned as it is; so is a prefixed text that does not split into four
    fields, and one whose decipher step throws (authentication failure,
    rejected vector or tag), and more generally every input on which the
    [try] block throws. *)
Theorem decryptValue_never_raises :
  forall (C : NodeCrypto) (K encryptedText : string),
    (exists v, Gist.decryptValue K encryptedText = Returned v)
    /\ (JsString.startsWith "enc:" encryptedText = false ->
        Gist.decryptValue K encryptedText = Returned encryptedText)
    /\ (length (JsString.split_on ":" encryptedText) <> 4 ->
        Gist.decryptValue K encryptedText = Returned encryptedText)
    /\ (forall parts,
          JsString.split_on ":" encryptedText = parts ->
          aes256gcm_open (Gist.getEncryptionKey K)
            (Hex.fromHex (nth 1 parts "")) (Hex.fromHex (nth 2 parts ""))
            (Hex.fromHex (nth 3 parts "")) = None ->
          Gist.decryptValue K encryptedText = Returned encryptedText)
    /\ (forall e,
          Gist.decryptValue_try K encryptedText = Thrown e ->
          Gist.decryptValue K encryptedText = Returned encryptedText).
Proof.
  intros C K t. unfold Gist.decryptValue, Gist.decryptValue_try.
  repeat split.
  - destruct (negb (JsString.startsWith "enc:" t)); [by eexists|].
    destruct (negb _); [by eexists|].
    destruct (aes256gcm_open _ _ _ _); by eexists.
  - by intros ->.
  - intros Hlen. destruct (negb (JsString.startsWith "enc:" t)); [done|].
    apply Nat.eqb_neq in Hlen. by rewrite Hlen.
  - intros parts <- Hopen.
    destruct (negb (JsString.startsWith "enc:" t)); [done|].
    destruct (negb _); [done|]. by rewrite Hopen.
  - intros e He. by rewrite He.
Qed.

Lemma decryptValue_never_raises_witness :
  Gist.decryptValue (C:=toy_crypto) "short key"
    "enc:30313233343536373839616263646566:ffffffffffffffffffffffffffffffff:7333"
  = Returned
      "enc:30313233343536373839616263646566:ffffffffffffffffffffffffffffffff:7333".
Proof.
  apply (proj1 (proj2 (proj2 (proj2
           (decryptValue_never_raises toy_crypto "short key"
              "enc:30313233343536373839616263646566:ffffffffffffffffffffffffffffffff:7333"))))
           ["enc"; "30313233343536373839616263646566";
            "ffffffffffffffffffffffffffffffff"; "7333"]).
  - reflexivity.
  - vm_compute. reflexivity.
Defined.

(** ** C6: the rule order of [processSecretValue] *)

(** C6: [processSecretValue] is the decision table of the specification,
    evaluated first match first: the key-store password under [hodc] or
    [pcdc] gives the hash derived from the namespace, whatever the plaintext
    and the encryption list; otherwise the encryption-key identifier gives
    the session's encryption key, whatever the encryption list; otherwise a
    key of the encryption list gives the encrypted plaintext; otherwise the
    plaintext is returned as it is. *)
Theorem processSecretValue_rule_order :
  forall (C : NodeCrypto) (iv : Buffer)
         (key plain env ns encKey : string) (keys : list string),
    Encryption.processSecretValue iv key plain env ns encKey keys
    = DecisionTable.processValue iv key plain env ns encKey keys
    /\ (key = Encryption.KEY_STORE_PASSWORD -> env = "hodc" \/ env = "pcdc" ->
        Encryption.processSecretValue iv key plain env ns encKey keys
        = Returned (Encryption.generateHash (ns +:+ "-jks")))
    /\ (key = Encryption.ENCRYPTION_KEY_ID ->
        Encryption.processSecretValue iv key plain env ns encKey keys
        = Returned encKey)
    /\ (~ (key = Encryption.KEY_STORE_PASSWORD /\ (env = "hodc" \/ env = "pcdc")) ->
        key <> Encryption.ENCRYPTION_KEY_ID ->
        key ∈ keys ->
        Encryption.processSecretValue iv key plain env ns encKey keys
        = Encryption.encryptSecret iv plain encKey key)
    /\ (~ (key = Encryption.KEY_STORE_PASSWORD /\ (env = "hodc" \/ env = "pcdc")) ->
        key <> Encryption.ENCRYPTION_KEY_ID ->
        key ∉ keys ->
        Encryption.processSecretValue iv key plain env ns encKey keys
        = Returned plain).
Proof.
  intros C iv key plain env ns encKey keys.
  assert (Hfirst :
    String.eqb key Encryption.KEY_STORE_PASSWORD
      && (String.eqb env "hodc" || String.eqb env "pcdc")
    = bool_decide (key = Encryption.KEY_STORE_PASSWORD
                   /\ (env = "hodc" \/ env = "pcdc"))).
  { destruct (String.eqb_spec key Encryption.KEY_STORE_PASSWORD) as [Hk|Hk];
    destruct (String.eqb_spec env "hodc") as [He|He];
    destruct (String.eqb_spec env "pcdc") as [He'|He']; simpl; symmetry;
      first [ apply bool_decide_eq_true; tauto
            | apply bool_decide_eq_false; tauto ]. }
  assert (Hsecond :
    String.eqb key Encryption.ENCRYPTION_KEY_ID
    = bool_decide (key = Encryption.ENCRYPTION_KEY_ID)).
  { destruct (String.eqb_spec key Encryption.ENCRYPTION_KEY_ID); symmetry;
      [by apply bool_decide_eq_true | by apply bool_decide_eq_false]. }
  unfold Encryption.processSecretValue, DecisionTable.processValue,
    JsString.includes. rewrite Hfirst, Hsecond. simpl.
  split; [reflexivity|]. repeat split.
  - intros Hk He. by rewrite bool_decide_eq_true_2.
  - intros ->. rewrite bool_decide_eq_false_2; [by rewrite bool_decide_eq_true_2|].
    intros [Hk _]. discriminate Hk.
  - intros Ha Hb Hin.
    by rewrite (bool_decide_eq_false_2 _ Ha), (bool_decide_eq_false_2 _ Hb),
      (bool_decide_eq_true_2 _ Hin).
  - intros Ha Hb Hin.
    by rewrite (bool_decide_eq_false_2 _ Ha), (bool_decide_eq_false_2 _ Hb),
      (bool_decide_eq_false_2 _ Hin).
Qed.

Lemma processSecretValue_rule_order_witness :
  Encryption.processSecretValue (C:=toy_crypto) sim_iv
    "app.key-store-password" "typed by the user" "hodc" "payments" "k"
    ["app.key-store-password"]
  = Returned (Encryption.generateHash (C:=toy_crypto) ("payments" +:+ "-jks")).
Proof.
  apply (proj1 (proj2 (processSecretValue_rule_order toy_crypto sim_iv
           "app.key-store-password" "typed by the user" "hodc" "payments" "k"
           ["app.key-store-password"]))).
  - reflexivity.
  - left. reflexivity.
Defined.

(** ** C9: fetching from the Vault *)

(** C9, the claim as written, fails: the empty document is also what
    [fetchVaultPayload] returns when the Vault answers 200 with a document
    that has no entry. *)
Lemma empty_document_without_not_found :
  fst (http_fetch {| req_method := GET; req_url := sim_vault_url;
                     req_credential := "vault-token"; req_body := NoBody |}
         (rt_world empty_document_runtime))
  = Responded {| resp_status := 200; resp_text := "";
                 resp_json := Some (vault_json ∅) |}
  /\ fst (Vault.fetchVaultPayload sim_vault_url "vault-token"
            empty_document_runtime)
     = Returned (vault_json ∅)
  /\ vault_entries (vault_json ∅) = ∅.
Proof. repeat split. Qed.

(** C9, amended: [fetchVaultPayload] sends one GET. When the answer is not
    a success, it returns the empty document if the status is 404 and
    otherwise throws an error whose message carries the status and the
    body, so among these answers it returns a value exactly for 404. When
    the answer is a success, it returns the parsed body as it is, and throws
    if the body is not JSON or is [null]. Hence it returns the empty
    document exactly when the status is 404 or the answer is a success whose
    body is the empty document. *)
Theorem fetch_not_found_is_empty :
  forall W (N : Network W) (vaultUrl vaultToken : string)
         (rt : Runtime W) (r : Response) (w' : W),
    let get := {| req_method := GET; req_url := vaultUrl;
                  req_credential := vaultToken; req_body := NoBody |} in
    http_fetch get (rt_world rt) = (Responded r, w') ->
    snd (Vault.fetchVaultPayload vaultUrl vaultToken rt)
    = {| rt_store := rt_store rt; rt_world := w';
         rt_trace := rt_trace rt ++ [get] |}
    /\ (resp_status r = 404 ->
        fst (Vault.fetchVaultPayload vaultUrl vaultToken rt)
        = Returned (vault_json ∅)
        /\ vault_entries (vault_json ∅) = ∅)
    /\ (resp_ok r = false -> resp_status r <> 404 ->
        fst (Vault.fetchVaultPayload vaultUrl vaultToken rt)
        = Thrown ("Vault fetch failed: " +:+ pretty (resp_status r) +:+ " "
                    +:+ resp_text r))
    /\ (resp_ok r = false ->
        ((exists v, fst (Vault.fetchVaultPayload vaultUrl vaultToken rt)
                    = Returned v)
         <-> resp_status r = 404))
    /\ (resp_ok r = true ->
        forall v,
          fst (Vault.fetchVaultPayload vaultUrl vaultToken rt) = Returned v
          <-> resp_json r = Some v /\ v <> JNull)
    /\ (fst (Vault.fetchVaultPayload vaultUrl vaultToken rt)
        = Returned (vault_json ∅)
        <-> resp_status r = 404
            \/ (resp_ok r = true /\ resp_json r = Some (vault_json ∅))).
Proof.
  intros W N url token rt r w' get Hget.
  assert (Hrun : Vault.fetchVaultPayload url token rt
                 = (Vault.readVaultResponse r,
                    {| rt_store := rt_store rt; rt_world := w';
                       rt_trace := rt_trace rt ++ [get] |})).
  { unfold Vault.fetchVaultPayload, eff_bind, fetch. fold get. by rewrite Hget. }
  rewrite Hrun. cbn [fst snd]. split; [done|].
  assert (H404 : resp_status r = 404 ->
                 Vault.readVaultResponse r = Returned (vault_json ∅)).
  { intros E. unfold Vault.readVaultResponse, resp_ok. by rewrite E. }
  assert (Hok : resp_ok r = true ->
                forall v, Vault.readVaultResponse r = Returned v
                          <-> resp_json r = Some v /\ v <> JNull).
  { intros E v. unfold Vault.readVaultResponse. rewrite E. cbn [negb].
    destruct (resp_json r) as [json|].
    - destruct json; cbn; split;
        first [ by intros [= <-] | by intros [[= <-] Hv] | done ].
    - split; [done | by intros [? _]]. }
  split; [by intuition|]. split.
  { intros E Hne. unfold Vault.readVaultResponse. rewrite E. cbn [negb].
    apply Nat.eqb_neq in Hne. by rewrite Hne. }
  split.
  { intros E. split; [|by eexists; apply H404].
    intros [v Hv]. unfold Vault.readVaultResponse in Hv. rewrite E in Hv.
    cbn [negb] in Hv.
    by destruct (Nat.eqb_spec (resp_status r) 404). }
  split; [exact Hok|]. split.
  - intros Hv. destruct (resp_ok r) eqn:E.
    + right. split; [done|]. by apply (Hok eq_refl).
    + left. unfold Vault.readVaultResponse in Hv. rewrite E in Hv.
      cbn [negb] in Hv. by destruct (Nat.eqb_spec (resp_status r) 404).
  - intros [E | [E Hj]]; [by apply H404|].
    by apply (Hok E).
Qed.

Lemma fetch_not_found_is_empty_witness :
  fst (Vault.fetchVaultPayload sim_vault_url "vault-token" one_key_runtime)
  = Returned (vault_json ∅)
  /\ vault_entries (vault_json ∅) = ∅.
Proof.
  apply (proj1 (proj2 (fetch_not_found_is_empty SimWorld sim_network
                         sim_vault_url "vault-token" one_key_runtime
                         {| resp_status := 404; resp_text := "not found";
                            resp_json := None |} sim_world eq_refl))).
  reflexivity.
Defined.

(** ** C8: forwarding to the Vault *)

Lemma set_own_data {A} (v : A) (props : gmap string A) :
  Js.set_own "data" v props = <["data" := v]> props.
Proof. reflexivity. Qed.

Lemma set_own_other {A} (k : string) (v : A) (props : gmap string A) :
  k <> "__proto__" -> Js.set_own k v props = <[k := v]> props.
Proof.
  intros Hk. unfold Js.set_own. apply String.eqb_neq in Hk. by rewrite Hk.
Qed.

Lemma set_own_proto {A} (v : A) (props : gmap string A) :
  props !! "__proto__" = None -> Js.set_own "__proto__" v props = props.
Proof.
  intros Hp. unfold Js.set_own. rewrite Hp.
  rewrite bool_decide_eq_false_2; [done | by intros [? ?]].
Qed.

Section PayloadFacts.

Context {JR : JsRuntime}.

(** The payload whose two levels are objects: the key is assigned in the
    inner one. *)
Lemma setPayloadKey_full key value (top mid entries : gmap string Json) :
  top !! "data" = Some (JObject mid) ->
  mid !! "data" = Some (JObject entries) ->
  Vault.setPayloadKey key value (JObject top)
  = Returned (JObject (<["data" :=
       JObject (<["data" := JObject (Js.set_own key (JString value) entries)]>
                  mid)]> top)).
Proof.
  intros Htop Hmid.
  cbv [Vault.setPayloadKey Js.ensure mbind Outcome_bind Js.get].
  rewrite Htop. cbn [Js.truthy]. rewrite Htop, Hmid. cbn [Js.truthy].
  by rewrite Hmid.
Qed.

(** The payload whose inner level is missing or falsy: it is created. *)
Lemma setPayloadKey_no_entries key value (top mid : gmap string Json) :
  top !! "data" = Some (JObject mid) ->
  Js.truthy (mid !! "data") = false ->
  Vault.setPayloadKey key value (JObject top)
  = Returned (JObject (<["data" :=
       JObject (<["data" := JObject (Js.set_own key (JString value) ∅)]>
                  mid)]> top)).
Proof.
  intros Htop Hmid.
  cbv [Vault.setPayloadKey Js.ensure mbind Outcome_bind Js.get].
  rewrite Htop. cbn [Js.truthy]. rewrite Htop, Hmid.
  cbn [Js.put]. rewrite set_own_data, lookup_insert_eq.
  cbn [Js.put Js.with_prop]. by rewrite insert_insert_eq.
Qed.

(** The payload without a truthy [data]: both levels are created. *)
Lemma setPayloadKey_no_data key value (top : gmap string Json) :
  Js.truthy (top !! "data") = false ->
  Vault.setPayloadKey key value (JObject top)
  = Returned (JObject (<["data" :=
       JObject (<["data" := JObject (Js.set_own key (JString value) ∅)]>
                  ∅)]> top)).
Proof.
  intros Htop.
  cbv [Vault.setPayloadKey Js.ensure mbind Outcome_bind Js.get].
  rewrite Htop. cbn [Js.put]. rewrite set_own_data, lookup_insert_eq.
  rewrite lookup_empty. cbn [Js.truthy Js.put].
  rewrite set_own_data, lookup_insert_eq.
  cbn [Js.put Js.with_prop]. by rewrite !insert_insert_eq.
Qed.

(** A payload that is a primitive cannot be given a [data]. *)
Lemma setPayloadKey_primitive key value (doc : Json) :
  match doc with
  | JBool _ | JNumber _ | JString _ => True
  | _ => False
  end ->
  Vault.setPayloadKey key value doc = Thrown (assignment_error "data" doc).
Proof. by destruct doc. Qed.

(** What is posted for a payload with an object under [data]. *)
Lemma vaultPayloadOf_data (top : gmap string Json) (d : gmap string Json) :
  Vault.vaultPayloadOf (JObject (<["data" := JObject d]> top))
  = Returned (JObject {[ "data" := JObject d ]}).
Proof.
  cbv [Vault.vaultPayloadOf mbind Outcome_bind Js.get].
  by rewrite lookup_insert_eq.
Qed.

Lemma stringify_view_payload (d : gmap string Json) :
  Js.stringify_view (JObject {[ "data" := JObject d ]})
  = JObject {[ "data" := JObject (Js.stringify_view <$> d) ]}.
Proof. cbn [Js.stringify_view]. by rewrite map_fmap_singleton. Qed.

End PayloadFacts.

(** C8, on the code: an accepted submission sends nothing to the Vault.
    No request of the submission route carries a document for the Vault; in
    the small world, where the Vault is empty, submitting [db_password] is
    answered with success and completes the session, the only requests are
    the membership check, the GET of the Vault document and the downstream
    dispatch, and the Vault is still empty afterwards; the same value given
    to [updateSingleVaultKey] does reach the Vault. *)
Theorem accepted_submission_never_reaches_vault :
  (forall W (N : Network W) (C : NodeCrypto) (JR : JsRuntime) (cfg : Config)
          (rq : SecretSubmission) (rt : Runtime W),
      sent_only (fun r => ~ is_vault_write r) rt
        (snd (Routes.postSecret cfg rq rt)))
  /\ fst (Routes.postSecret (C:=toy_crypto) (R:=toy_runtime) sim_config
            (sim_submission "sess-1" (Some "db_password") (Some "s3"))
            one_key_runtime)
     = Returned (ReplySubmitted "db_password" [] true)
  /\ req_method <$>
       rt_trace (snd (Routes.postSecret (C:=toy_crypto) (R:=toy_runtime) sim_config
                        (sim_submission "sess-1" (Some "db_password") (Some "s3"))
                        one_key_runtime))
     = [GET; GET; POST]
  /\ sim_vault (rt_world
       (snd (Routes.postSecret (C:=toy_crypto) (R:=toy_runtime) sim_config
               (sim_submission "sess-1" (Some "db_password") (Some "s3"))
               one_key_runtime))) !! sim_vault_url
     = None
  /\ sim_vault (rt_world
       (snd (Vault.updateSingleVaultKey (R:=toy_runtime) sim_vault_url
               "vault-token" "db_password"
               "30313233343536373839616263646566:7333"
               one_key_runtime))) !! sim_vault_url
     = Some {[ "db_password" := "30313233343536373839616263646566:7333" ]}.
Proof.
  split; [intros; apply postSecret_no_write|].
  repeat split; vm_compute; reflexivity.
Qed.

(** ** C10: the downstream trigger *)

Lemma truthy_Some_nonempty (x : string) : x <> "" -> truthy (Some x) = true.
Proof. by destruct x. Qed.

Lemma is_empty_false (x : string) : x <> "" -> JsString.is_empty x = false.
Proof. by destruct x. Qed.

(** C10, the claim as written, fails: a completed session of an
    environment without downstream job that was registered without
    [GIT_TOKEN] makes the trigger throw; the token check comes before the
    choice of the workflow. *)
Lemma trigger_throws_without_token :
  status prod_session = completed
  /\ Trigger.buildEnvOf prod_session = "prod"
  /\ Trigger.triggerDownstreamWorkflow sim_config "t2" prod_session
       (sim_runtime empty_store)
     = (Thrown "GIT_TOKEN not available", sim_runtime empty_store).
Proof. repeat split. Qed.

(** C10, amended: without a non-empty [GIT_TOKEN] in the session metadata
    the trigger throws [GIT_TOKEN not available], whatever the build
    environment, and sends nothing. With one: if the lower-cased build
    environment is neither [dev] nor [sit] the trigger returns the skipped
    result with its reason, throws nothing and sends no request; if it is
    [dev] or [sit] and a base url is known, the trigger sends exactly one
    request, the POST of the dispatch, carrying the session metadata, the
    audit log and the statistics with [pending = 0]; if it is [dev] or [sit]
    and no base url is known, it throws and sends nothing. *)
Theorem trigger_skips_or_dispatches_once :
  forall W (N : Network W) (cfg : Config) (now : string) (session : Session)
         (rt : Runtime W),
    (truthy (github_secrets_GIT_TOKEN (metadata session)) = false ->
     Trigger.triggerDownstreamWorkflow cfg now session rt
     = (Thrown "GIT_TOKEN not available", rt))
    /\ (forall gitToken,
          github_secrets_GIT_TOKEN (metadata session) = Some gitToken ->
          gitToken <> "" ->
          Trigger.buildEnvOf session <> "dev" ->
          Trigger.buildEnvOf session <> "sit" ->
          Trigger.triggerDownstreamWorkflow cfg now session rt
          = (Returned (Skipped
                         ("No downstream workflow configured for build_env="
                            +:+ Trigger.buildEnvOf session)), rt))
    /\ (forall gitToken baseUrl,
          github_secrets_GIT_TOKEN (metadata session) = Some gitToken ->
          gitToken <> "" ->
          Trigger.buildEnvOf session = "dev"
          \/ Trigger.buildEnvOf session = "sit" ->
          baseUrl = (if truthy (environment_GH_API (metadata session))
                     then default "" (environment_GH_API (metadata session))
                     else GH_BASE_URL cfg) ->
          (baseUrl = "" ->
           Trigger.triggerDownstreamWorkflow cfg now session rt
           = (Thrown "Missing workflow information", rt))
          /\ (baseUrl <> "" ->
              rt_trace (snd (Trigger.triggerDownstreamWorkflow cfg now session
                               rt))
              = rt_trace rt
                ++ [Trigger.dispatch_request baseUrl gitToken now session]
              /\ req_method
                   (Trigger.dispatch_request baseUrl gitToken now session)
                 = POST
              /\ exists payload,
                   req_body
                     (Trigger.dispatch_request baseUrl gitToken now session)
                   = DispatchBody "main" payload
                   /\ dp_metadata payload = metadata session
                   /\ dp_audit payload = audit session
                   /\ dp_status payload = completed
                   /\ dp_completedAt payload = now
                   /\ dp_total payload
                      = length (completedEntries session)
                        + length (pending session)
                   /\ dp_completed payload = length (completedEntries session)
                   /\ dp_pending payload = 0)).
Proof.
  intros W N cfg now session rt.
  unfold Trigger.triggerDownstreamWorkflow. split; [|split].
  - by intros ->.
  - intros gitToken Htok Hne Hdev Hsit.
    rewrite Htok, (truthy_Some_nonempty gitToken Hne).
    change (negb true) with false. cbv beta iota.
    apply String.eqb_neq in Hdev, Hsit. by rewrite Hdev, Hsit.
  - intros gitToken baseUrl Htok Hne Henv ->.
    rewrite Htok, (truthy_Some_nonempty gitToken Hne).
    change (negb true) with false. cbv beta iota.
    assert (String.eqb (Trigger.buildEnvOf session) "dev"
            || String.eqb (Trigger.buildEnvOf session) "sit" = true) as ->.
    { destruct Henv as [-> | ->]; reflexivity. }
    set (baseUrl := if truthy (environment_GH_API (metadata session))
                    then default "" (environment_GH_API (metadata session))
                    else GH_BASE_URL cfg) in *.
    split; [by intros ->|]. intros Hbase.
    rewrite (is_empty_false baseUrl Hbase). cbn [default from_option id].
    split; [|split; [reflexivity|]].
    + unfold eff_bind, fetch. cbv beta.
      match goal with |- context [http_fetch ?q ?w] =>
        destruct (http_fetch q w) as [[r|e] w']
      end; [|reflexivity].
      by destruct (negb (resp_ok r)).
    + eexists. split; [reflexivity|]. repeat split.
Qed.

Lemma trigger_skips_or_dispatches_once_witness :
  Trigger.triggerDownstreamWorkflow sim_config "t2"
    (fst (createSession "sess-9" "t0"
            (sim_metadata "api_key" (Some "UAT") (Some "git")) empty_store))
    (sim_runtime empty_store)
  = (Returned (Skipped "No downstream workflow configured for build_env=uat"),
     sim_runtime empty_store).
Proof.
  apply (proj1 (proj2
           (trigger_skips_or_dispatches_once SimWorld sim_network sim_config
              "t2"
              (fst (createSession "sess-9" "t0"
                      (sim_metadata "api_key" (Some "UAT") (Some "git"))
                      empty_store))
              (sim_runtime empty_store)))
           "git" eq_refl ltac:(discriminate)).
  - vm_compute. discriminate.
  - vm_compute. discriminate.
Defined.

(** * Further properties of the engine *)

(** ** Registration, lookup and purge *)

(** X1: a session created under a non-empty id for a non-empty run id is
    found by its id and by its run id (a later registration of the same run
    id takes the run id over); the sessions stored under other ids and the
    entries of other run ids are as before. *)
Theorem created_session_is_indexed :
  forall (sid now : string) (md : Metadata) (st : Store) (rid : string),
    sid <> "" -> workflow_run_id md = Some (RunIdString rid) -> rid <> "" ->
    getSession sid (snd (createSession sid now md st))
    = Some (fst (createSession sid now md st))
    /\ findSessionByWorkflowRunId rid (snd (createSession sid now md st))
       = Some (fst (createSession sid now md st))
    /\ (forall sid', sid' <> sid ->
          getSession sid' (snd (createSession sid now md st))
          = getSession sid' st)
    /\ (forall rid', rid' <> rid ->
          workflowRunIdMap (snd (createSession sid now md st)) !! rid'
          = workflowRunIdMap st !! rid').
Proof.
  intros sid now md st rid Hsid Hrid Hne.
  unfold getSession, findSessionByWorkflowRunId, createSession.
  cbn [fst snd sessions workflowRunIdMap]. rewrite Hrid.
  cbn [truthy_run_id setRunId]. rewrite (is_empty_false rid Hne).
  cbn [negb]. repeat split.
  - apply lookup_insert_eq.
  - rewrite lookup_insert_eq, (is_empty_false sid Hsid).
    apply lookup_insert_eq.
  - intros sid' Hsid'. by apply lookup_insert_ne.
  - intros rid' Hrid'. by apply lookup_insert_ne.
Qed.

Lemma created_session_is_indexed_witness :
  findSessionByWorkflowRunId "42"
    (snd (createSession "sess-1" "t0" one_key_metadata empty_store))
  = Some (fst (createSession "sess-1" "t0" one_key_metadata empty_store)).
Proof.
  apply (proj1 (proj2 (created_session_is_indexed "sess-1" "t0"
                         one_key_metadata empty_store "42"
                         ltac:(discriminate) eq_refl ltac:(discriminate)))).
Defined.

Lemma removeRunIdMapping_other rid' o sid (m : gmap string string) :
  o <> Some (RunIdString rid') ->
  removeRunIdMapping o sid m !! rid' = m !! rid'.
Proof.
  intros Hne. unfold removeRunIdMapping.
  destruct (truthy_run_id o) eqn:Ht; [|done].
  destruct o as [[r|x|b]|]; try done.
  destruct (m !! r) as [mapped|]; [|done].
  destruct (String.eqb mapped sid); [|done].
  apply lookup_delete_ne. congruence.
Qed.

Lemma removeRunIdMapping_lookup o sid (m : gmap string string) rid x :
  removeRunIdMapping o sid m !! rid = Some x -> m !! rid = Some x.
Proof.
  unfold removeRunIdMapping.
  destruct (truthy_run_id o); [|done].
  destruct o as [[r|y|b]|]; try done.
  destruct (m !! r) as [mapped|] eqn:Hm; [|done].
  destruct (String.eqb mapped sid); [|done].
  rewrite lookup_delete_Some. by intros [_ ?].
Qed.

(** X2: [purgeSession] of an unknown id answers [false] and changes
    nothing. Of a stored session it answers [true]; afterwards the id is
    unknown, a second purge answers [false], whatever the run-id index still
    finds is a session stored under another id, and the sessions under other
    ids and the entries of other run ids are as before. *)
Theorem purgeSession_removes_one_session :
  forall (sid : string) (st : Store),
    (getSession sid st = None -> purgeSession sid st = (false, st))
    /\ (forall s,
          getSession sid st = Some s ->
          fst (purgeSession sid st) = true
          /\ getSession sid (snd (purgeSession sid st)) = None
          /\ fst (purgeSession sid (snd (purgeSession sid st))) = false
          /\ (forall rid s',
                findSessionByWorkflowRunId rid (snd (purgeSession sid st))
                = Some s' ->
                exists sid', sid' <> sid /\ getSession sid' st = Some s')
          /\ (forall sid', sid' <> sid ->
                getSession sid' (snd (purgeSession sid st))
                = getSession sid' st)
          /\ (forall rid, runId s <> Some (RunIdString rid) ->
                workflowRunIdMap (snd (purgeSession sid st)) !! rid
                = workflowRunIdMap st !! rid)).
Proof.
  intros sid st. unfold getSession. split.
  - intros Hs. unfold purgeSession. by rewrite Hs.
  - intros s Hs.
    assert (E : purgeSession sid st =
                (true, {| sessions := delete sid (sessions st);
                          workflowRunIdMap :=
                            removeRunIdMapping (runId s) sid
                              (workflowRunIdMap st) |}))
      by (unfold purgeSession; by rewrite Hs).
    rewrite E. cbn [fst snd sessions workflowRunIdMap]. repeat split.
    + apply lookup_delete_eq.
    + unfold purgeSession. cbn [sessions]. by rewrite lookup_delete_eq.
    + intros rid s'. unfold findSessionByWorkflowRunId.
      cbn [sessions workflowRunIdMap].
      destruct (removeRunIdMapping _ _ _ !! rid) as [mapped|]; [|done].
      destruct (JsString.is_empty mapped); [done|].
      rewrite lookup_delete_Some. intros [Hne Hs']. by exists mapped.
    + intros sid' Hne. by apply lookup_delete_ne.
    + intros rid Hne. by apply removeRunIdMapping_other.
Qed.

Lemma purgeSession_removes_one_session_witness :
  fst (purgeSession "sess-1"
         (snd (createSession "sess-1" "t0" one_key_metadata empty_store)))
  = true
  /\ getSession "sess-1"
       (snd (purgeSession "sess-1"
          (snd (createSession "sess-1" "t0" one_key_metadata empty_store))))
     = None.
Proof.
  destruct (proj2 (purgeSession_removes_one_session "sess-1"
              (snd (createSession "sess-1" "t0" one_key_metadata empty_store)))
              (fst (createSession "sess-1" "t0" one_key_metadata empty_store)))
    as (Ht & Hg & _).
  - vm_compute. reflexivity.
  - exact (conj Ht Hg).
Defined.

(** ** Bulk purge and statistics *)

Lemma getAllSessions_elem (st : Store) s :
  s ∈ getAllSessions st <-> exists sid, sessions st !! sid = Some s.
Proof.
  unfold getAllSessions. rewrite list_elem_of_fmap. split.
  - intros ([sid s'] & -> & Hin). exists sid. by apply elem_of_map_to_list.
  - intros [sid Hs]. exists (sid, s). split; [done|].
    by apply elem_of_map_to_list.
Qed.

Lemma well_keyed_ids (st : Store) :
  well_keyed st ->
  sessionId <$> getAllSessions st = (map_to_list (sessions st)).*1.
Proof.
  intros Hwk. unfold getAllSessions. rewrite <- list_fmap_compose.
  apply list_fmap_ext. intros i [sid s] Hi. simpl.
  apply Hwk. apply elem_of_map_to_list. by eapply list_elem_of_lookup_2.
Qed.

Lemma filter_ids_NoDup (f : Session -> bool) (l : list Session) :
  NoDup (sessionId <$> l) -> NoDup (sessionId <$> List.filter f l).
Proof.
  induction l as [|s l IH]; simpl; [done|].
  rewrite NoDup_cons. intros [Hnot Hnd]. destruct (f s); simpl; [|by apply IH].
  apply NoDup_cons. split; [|by apply IH].
  intros Hin. apply Hnot. apply list_elem_of_fmap in Hin as (s' & -> & Hs').
  apply list_elem_of_fmap. exists s'. split; [done|].
  apply list_elem_of_In in Hs'. apply List.filter_In in Hs' as [Hs' _].
  by apply list_elem_of_In.
Qed.

Lemma filter_partition_length {A} (f : A -> bool) (l : list A) :
  length l = length (List.filter f l)
             + length (List.filter (fun x => negb (f x)) l).
Proof.
  induction l as [|x l IH]; simpl; [done|]. destruct (f x); simpl; lia.
Qed.

Lemma filter_all_false {A} (f : A -> bool) (l : list A) :
  (forall x, x ∈ l -> f x = false) -> List.filter f l = [].
Proof.
  induction l as [|x l IH]; intros Hall; simpl; [done|].
  rewrite (Hall x) by left. apply IH. intros y Hy. apply Hall. by right.
Qed.

(** The loop of [purgeCompletedSessions], by what it does to the session
    map, the counter and the list of ids. *)
Lemma purge_loop l st n ids :
  foldl purgeStep (st, n, ids) l
  = (fst (fst (foldl purgeStep (st, n, ids) l)), n + length l,
     ids ++ (sessionId <$> l))
  /\ sessions (fst (fst (foldl purgeStep (st, n, ids) l)))
     = foldl (fun m s => delete (sessionId s) m) (sessions st) l.
Proof.
  revert st n ids. induction l as [|s l IH]; intros st n ids; simpl.
  - by rewrite Nat.add_0_r, app_nil_r.
  - destruct (IH {| sessions := delete (sessionId s) (sessions st);
                    workflowRunIdMap :=
                      removeRunIdMapping (runId s) (sessionId s)
                        (workflowRunIdMap st) |} (S n) (ids ++ [sessionId s]))
      as [E1 E2].
    split; [|exact E2].
    rewrite E1 at 1. cbn [fst]. f_equal; [f_equal; lia|].
    by rewrite <- app_assoc.
Qed.

Lemma delete_all_lookup (l : list Session) (m : gmap string Session) k :
  foldl (fun m s => delete (sessionId s) m) m l !! k
  = if decide (k ∈ sessionId <$> l) then None else m !! k.
Proof.
  revert m. induction l as [|s l IH]; intros m; simpl; [done|].
  rewrite IH. destruct (decide (k ∈ sessionId <$> l)) as [Hin|Hnin].
  - rewrite decide_True; [done | by right].
  - destruct (decide (k = sessionId s)) as [->|Hne].
    + rewrite lookup_delete_eq, decide_True; [done | left].
    + rewrite lookup_delete_ne by done. rewrite decide_False; [done|].
      rewrite elem_of_cons. tauto.
Qed.

Lemma delete_all_size (l : list Session) (m : gmap string Session) :
  NoDup (sessionId <$> l) ->
  (forall s, s ∈ l -> is_Some (m !! sessionId s)) ->
  size (foldl (fun m s => delete (sessionId s) m) m l) + length l = size m.
Proof.
  revert m. induction l as [|s l IH]; intros m Hnd Hall; simpl; [lia|].
  apply NoDup_cons in Hnd as [Hnot Hnd].
  rewrite Nat.add_succ_r.
  rewrite IH; [| done |].
  - rewrite map_size_delete_Some by (apply Hall; left).
    destruct (Hall s) as [x Hx]; [left|].
    assert (size m <> 0) by (apply map_size_ne_0_lookup; eauto). lia.
  - intros s' Hs'. rewrite lookup_delete_ne; [apply Hall; by right|].
    intros Heq. apply Hnot. rewrite Heq. apply list_elem_of_fmap. eauto.
Qed.

Lemma completed_ids (st : Store) sid :
  well_keyed st ->
  sid ∈ sessionId <$> List.filter (has_status completed) (getAllSessions st)
  <-> exists s, sessions st !! sid = Some s /\ status s = completed.
Proof.
  intros Hwk. rewrite list_elem_of_fmap. split.
  - intros (s & -> & Hin). apply list_elem_of_In, List.filter_In in Hin as [Hin Hc].
    apply list_elem_of_In, getAllSessions_elem in Hin as [sid Hs].
    exists s. rewrite (Hwk _ _ Hs). split; [done|].
    by apply bool_decide_eq_true in Hc.
  - intros (s & Hs & Hc). exists s. split; [symmetry; by apply Hwk|].
    apply list_elem_of_In, List.filter_In. split.
    + apply list_elem_of_In, getAllSessions_elem. eauto.
    + by apply bool_decide_eq_true.
Qed.

(** What [purgeCompletedSessions] leaves and reports, on a store whose
    sessions carry their own ids. *)
Lemma purgeCompleted_spec (st : Store) :
  well_keyed st ->
  (forall sid,
     sessions (snd (purgeCompletedSessions st)) !! sid
     = match sessions st !! sid with
       | Some s => if has_status completed s then None else Some s
       | None => None
       end)
  /\ purged (fst (purgeCompletedSessions st))
     = length (List.filter (has_status completed) (getAllSessions st))
  /\ purgedSessionIds (fst (purgeCompletedSessions st))
     = sessionId <$> List.filter (has_status completed) (getAllSessions st)
  /\ remaining (fst (purgeCompletedSessions st))
     = size (sessions (snd (purgeCompletedSessions st)))
  /\ purged (fst (purgeCompletedSessions st))
     + remaining (fst (purgeCompletedSessions st))
     = size (sessions st).
Proof.
  intros Hwk. unfold purgeCompletedSessions.
  set (l := List.filter (has_status completed) (getAllSessions st)).
  destruct (purge_loop l st 0 []) as [E1 E2].
  destruct (foldl purgeStep (st, 0, []) l) as [[st' n] ids] eqn:Efold.
  cbn [fst snd] in *. injection E1 as -> ->.
  cbn [fst snd purged remaining purgedSessionIds].
  assert (Hsize : size (sessions st') + length l = size (sessions st)).
  { rewrite E2. apply delete_all_size.
    - apply filter_ids_NoDup. rewrite well_keyed_ids by done.
      apply NoDup_fst_map_to_list.
    - intros s Hs. apply list_elem_of_In, List.filter_In in Hs as [Hs _].
      apply list_elem_of_In, getAllSessions_elem in Hs as [sid Hs].
      rewrite (Hwk _ _ Hs). eauto. }
  repeat split; try done; [|lia].
  intros sid. rewrite E2, delete_all_lookup.
  destruct (decide _) as [Hin|Hnin].
  - apply completed_ids in Hin as (s & -> & Hc); [|done].
    unfold has_status. by rewrite bool_decide_eq_true_2.
  - destruct (sessions st !! sid) as [s|] eqn:Hs; [|done].
    unfold has_status. rewrite bool_decide_eq_false_2; [done|].
    intros Hc. apply Hnin. apply completed_ids; eauto.
Qed.

Lemma well_keyed_empty : well_keyed empty_store.
Proof. intros sid s. simpl. by rewrite lookup_empty. Qed.

Lemma well_keyed_create sid now md st :
  well_keyed st -> well_keyed (snd (createSession sid now md st)).
Proof.
  intros Hwk sid' s. simpl. rewrite lookup_insert. case_decide as Hsid.
  - by intros [= <-].
  - apply Hwk.
Qed.

Lemma well_keyed_update sid key ev who now st :
  well_keyed st ->
  well_keyed (snd (updateSessionSecret sid key ev who now st)).
Proof.
  intros Hwk. unfold updateSessionSecret.
  destruct (sessions st !! sid) as [s0|] eqn:Hs0; [|done].
  intros sid' s. simpl. rewrite lookup_insert. case_decide as Hsid.
  - intros [= <-]. simpl. subst sid'. by apply Hwk.
  - apply Hwk.
Qed.

(** X3: on a store whose sessions carry their own ids,
    [purgeCompletedSessions] keeps exactly the sessions that are not
    completed, unchanged; afterwards neither index finds a completed
    session; the ids it reports are exactly those of the completed sessions,
    [purged] is their number, [remaining] is the number of sessions left,
    and the two add up to the number of sessions before. *)
Theorem purgeCompleted_keeps_exactly_unfinished :
  forall (st : Store),
    well_keyed st ->
    (forall sid s,
       getSession sid (snd (purgeCompletedSessions st)) = Some s
       <-> getSession sid st = Some s /\ status s <> completed)
    /\ (forall rid s,
          findSessionByWorkflowRunId rid (snd (purgeCompletedSessions st))
          = Some s ->
          status s <> completed)
    /\ (forall sid,
          sid ∈ purgedSessionIds (fst (purgeCompletedSessions st))
          <-> exists s, getSession sid st = Some s /\ status s = completed)
    /\ purged (fst (purgeCompletedSessions st))
       = length (purgedSessionIds (fst (purgeCompletedSessions st)))
    /\ remaining (fst (purgeCompletedSessions st))
       = size (sessions (snd (purgeCompletedSessions st)))
    /\ purged (fst (purgeCompletedSessions st))
       + remaining (fst (purgeCompletedSessions st))
       = size (sessions st).
Proof.
  intros st Hwk.
  destruct (purgeCompleted_spec st Hwk) as (Hlook & Hp & Hids & Hr & Hsum).
  assert (Hkept : forall sid s,
            sessions (snd (purgeCompletedSessions st)) !! sid = Some s
            <-> sessions st !! sid = Some s /\ status s <> completed).
  { intros sid s. rewrite Hlook.
    destruct (sessions st !! sid) as [s0|]; [|by split; [|intros []]].
    unfold has_status. case_bool_decide as Hc; split.
    - done.
    - intros [[= ->] Hn]. done.
    - intros [= ->]. done.
    - by intros [? _]. }
  unfold getSession.
  split; [exact Hkept|]. split; [|split; [|split; [|split]]].
  - intros rid s. unfold findSessionByWorkflowRunId.
    destruct (_ !! rid) as [mapped|]; [|done].
    destruct (JsString.is_empty mapped); [done|].
    intros Hs. by apply Hkept in Hs as [_ ?].
  - intros sid. rewrite Hids. by apply completed_ids.
  - by rewrite Hp, Hids, length_fmap.
  - exact Hr.
  - exact Hsum.
Qed.

Lemma mixed_store_well_keyed : well_keyed mixed_store.
Proof.
  apply well_keyed_update, well_keyed_create, well_keyed_create,
    well_keyed_empty.
Qed.

Lemma purgeCompleted_keeps_exactly_unfinished_witness :
  purged (fst (purgeCompletedSessions mixed_store))
  + remaining (fst (purgeCompletedSessions mixed_store))
  = size (sessions mixed_store).
Proof.
  apply (purgeCompleted_keeps_exactly_unfinished mixed_store
           mixed_store_well_keyed).
Defined.

Lemma has_status_awaiting s :
  has_status awaiting_input s = negb (has_status completed s).
Proof. unfold has_status. by destruct (status s). Qed.

(** X4: in [getSessionStats] the total is the number of stored sessions
    and equals the awaiting count plus the completed count; right after
    [purgeCompletedSessions] (on a store whose sessions carry their own ids)
    the completed count is 0 and the total is the [remaining] the purge
    reported. *)
Theorem session_stats_add_up :
  forall (st : Store),
    stats_total (getSessionStats st) = size (sessions st)
    /\ stats_total (getSessionStats st)
       = stats_awaitingInput (getSessionStats st)
         + stats_completed (getSessionStats st)
    /\ (well_keyed st ->
        stats_completed (getSessionStats (snd (purgeCompletedSessions st))) = 0
        /\ stats_total (getSessionStats (snd (purgeCompletedSessions st)))
           = remaining (fst (purgeCompletedSessions st))).
Proof.
  intros st. unfold getSessionStats. cbn [stats_total stats_awaitingInput stats_completed].
  assert (Hsize : forall st', length (getAllSessions st') = size (sessions st')).
  { intros st'. unfold getAllSessions.
    by rewrite length_fmap, length_map_to_list. }
  split; [apply Hsize|]. split.
  - rewrite (filter_partition_length (has_status completed)).
    rewrite Nat.add_comm. f_equal. f_equal.
    apply List.filter_ext. intros s. by rewrite has_status_awaiting.
  - intros Hwk.
    destruct (purgeCompleted_spec st Hwk) as (Hlook & _ & _ & Hr & _).
    split; [|by rewrite Hsize].
    rewrite filter_all_false; [done|].
    intros s Hs. apply getAllSessions_elem in Hs as [sid Hs].
    rewrite Hlook in Hs. destruct (sessions st !! sid) as [s0|]; [|done].
    destruct (has_status completed s0) eqn:Hc; [done|]. by injection Hs as <-.
Qed.

Lemma session_stats_add_up_witness :
  stats_completed (getSessionStats (snd (purgeCompletedSessions mixed_store)))
  = 0
  /\ stats_total (getSessionStats (snd (purgeCompletedSessions mixed_store)))
     = remaining (fst (purgeCompletedSessions mixed_store)).
Proof.
  apply (proj2 (proj2 (session_stats_add_up mixed_store))
           mixed_store_well_keyed).
Defined.

(** ** Submissions only extend a session *)

Lemma filter_sublist {A} (f : A -> bool) (l : list A) :
  List.filter f l `sublist_of` l.
Proof.
  induction l as [|x l IH]; simpl; [constructor|].
  destruct (f x); by constructor.
Qed.

Lemma extends_refl s : extends s s.
Proof. by repeat split. Qed.

Lemma extends_trans a b c : extends a b -> extends b c -> extends a c.
Proof.
  intros (?&?&?&?&?&?) (?&?&?&?&?&?).
  repeat split; try congruence; by etrans.
Qed.

Lemma applySecret_extends key pv who now s :
  extends s (applySecret key pv who now s).
Proof.
  unfold extends, applySecret; simpl. repeat split.
  - destruct (_ && _); [rewrite <- app_assoc|]; by apply prefix_app_r.
  - by apply prefix_app_r.
  - apply filter_sublist.
Qed.

Section SubmissionSequences.

Context {W : Type} `{Network W} {C : NodeCrypto} {JR : JsRuntime}.
Variable cfg : Config.

Lemma postSecret_extends rq rt sid :
  (forall s, sessions (rt_store rt) !! sid = Some s ->
     exists s', sessions (rt_store (snd (Routes.postSecret cfg rq rt))) !! sid
                = Some s' /\ extends s s')
  /\ (sessions (rt_store rt) !! sid = None ->
      sessions (rt_store (snd (Routes.postSecret cfg rq rt))) !! sid = None).
Proof.
  destruct (Routes.postSecret cfg rq rt) as [o rt'] eqn:Hrun.
  destruct (postSecret_store_cases cfg rq rt o rt' Hrun)
    as (reply & _ & [[Hst _] | (key & s0 & pv & _ & Hs0 & _ & Hst & _)]);
    cbn [snd]; rewrite Hst.
  - split; [|done]. intros s Hs. exists s. split; [done | apply extends_refl].
  - cbv zeta. cbn [sessions]. split.
    + intros s Hs. rewrite lookup_insert. case_decide as Hsid.
      * eexists. split; [reflexivity|]. rewrite <- Hsid, Hs0 in Hs.
        injection Hs as <-. apply applySecret_extends.
      * exists s. split; [done | apply extends_refl].
    + intros Hs. rewrite lookup_insert_ne; [done|]. congruence.
Qed.

Lemma submissions_extend rqs rt sid :
  (forall s, sessions (rt_store rt) !! sid = Some s ->
     exists s',
       sessions (rt_store (Engine.run_ops cfg (submissions rqs) rt)) !! sid
       = Some s' /\ extends s s')
  /\ (sessions (rt_store rt) !! sid = None ->
      sessions (rt_store (Engine.run_ops cfg (submissions rqs) rt)) !! sid
      = None).
Proof.
  revert rt. induction rqs as [|rq rqs IH]; intros rt; simpl.
  - split; [|done]. intros s Hs. exists s. split; [done | apply extends_refl].
  - destruct (postSecret_extends rq rt sid) as [Hsome Hnone].
    destruct (IH (snd (Routes.postSecret cfg rq rt))) as [IHsome IHnone].
    split.
    + intros s Hs. destruct (Hsome s Hs) as (s1 & Hs1 & He1).
      destruct (IHsome s1 Hs1) as (s2 & Hs2 & He2).
      exists s2. split; [done | by eapply extends_trans].
    + intros Hs. by apply IHnone, Hnone.
Qed.

End SubmissionSequences.

(** X5: whatever sequence of requests reaches the submission route, no
    session appears or disappears, and each stored session keeps its id,
    metadata and creation time, its audit log and its completed entries only
    grow at the end (nothing is removed or rewritten), and its pending list
    only loses keys. *)
Theorem submissions_only_extend_sessions :
  forall W (N : Network W) (C : NodeCrypto) (JR : JsRuntime) (cfg : Config)
         (rqs : list SecretSubmission) (rt : Runtime W) (sid : string),
    (forall s,
       getSession sid (rt_store rt) = Some s ->
       exists s',
         getSession sid (rt_store (Engine.run_ops cfg (submissions rqs) rt))
         = Some s'
         /\ extends s s')
    /\ (getSession sid (rt_store rt) = None ->
        getSession sid (rt_store (Engine.run_ops cfg (submissions rqs) rt))
        = None).
Proof. intros. apply submissions_extend. Qed.

Lemma submissions_only_extend_sessions_witness :
  exists s',
    getSession "sess-1"
      (rt_store (Engine.run_ops (C:=toy_crypto) (R:=toy_runtime) sim_config
                   (submissions
                      [sim_submission "sess-1" (Some "db_password") (Some "s3")])
                   one_key_runtime))
    = Some s'
    /\ extends (fst (createSession "sess-1" "t0" one_key_metadata empty_store)) s'.
Proof.
  apply (proj1 (submissions_only_extend_sessions SimWorld sim_network
                  toy_crypto toy_runtime sim_config
                  [sim_submission "sess-1" (Some "db_password") (Some "s3")]
                  one_key_runtime "sess-1")).
  vm_compute. reflexivity.
Defined.

(** ** The key-status object *)

Lemma set_own_lookup {A} (k k' : string) (v : A) (props : gmap string A) :
  k' <> "__proto__" ->
  Js.set_own k v props !! k' = if decide (k' = k) then Some v else props !! k'.
Proof.
  intros Hk'. unfold Js.set_own.
  destruct (String.eqb_spec k "__proto__") as [->|Hk]; cbn [andb].
  - rewrite decide_False by done.
    destruct (negb _); [done | by rewrite lookup_insert_ne].
  - rewrite lookup_insert. by destruct (decide (k = k')), (decide (k' = k)).
Qed.

Lemma set_own_lookup_proto {A} (k : string) (v : A) (props : gmap string A) :
  props !! "__proto__" = None -> Js.set_own k v props !! "__proto__" = None.
Proof.
  intros Hp. destruct (decide (k = "__proto__")) as [->|Hk].
  - by rewrite set_own_proto.
  - rewrite set_own_other by done. by rewrite lookup_insert_ne.
Qed.

Lemma initial_key_status (l : list string) (m : gmap string KeyStatus) k :
  k <> "__proto__" ->
  foldl (fun m key => Js.set_own key key_pending m) m l !! k
  = if decide (k ∈ l) then Some key_pending else m !! k.
Proof.
  intros Hk. revert m. induction l as [|x l IH]; intros m; simpl; [done|].
  rewrite IH, set_own_lookup by done.
  destruct (decide (k ∈ l)) as [Hin|Hnin].
  - rewrite decide_True; [done | by right].
  - destruct (decide (k = x)) as [->|Hne].
    + rewrite decide_True; [done | left].
    + rewrite decide_False; [done|]. rewrite elem_of_cons. tauto.
Qed.

Lemma initial_key_status_proto (l : list string) (m : gmap string KeyStatus) :
  m !! "__proto__" = None ->
  foldl (fun m key => Js.set_own key key_pending m) m l !! "__proto__" = None.
Proof.
  revert m. induction l as [|x l IH]; intros m Hm; simpl; [done|].
  by apply IH, set_own_lookup_proto.
Qed.

Lemma createSession_mirrors sid now md st :
  key_status_mirrors (fst (createSession sid now md st)).
Proof.
  split; [by apply initial_key_status_proto|].
  intros k Hk. unfold completedKeys. simpl. split.
  - intros Hin. rewrite initial_key_status by done. by rewrite decide_True.
  - intros Hin. by apply elem_of_nil in Hin.
Qed.

Lemma applySecret_mirrors key pv who now s :
  key_status_mirrors s -> key_status_mirrors (applySecret key pv who now s).
Proof.
  intros [Hproto Hm]. split; [by apply set_own_lookup_proto|].
  intros k Hk. destruct (Hm k Hk) as [Hp Hc].
  unfold completedKeys, applySecret in *. simpl.
  rewrite set_own_lookup by done. split.
  - intros Hin. apply filter_neq_elem in Hin as [Hin Hne].
    rewrite decide_False by done. by apply Hp.
  - rewrite fmap_app, elem_of_app. simpl. rewrite list_elem_of_singleton.
    intros [Hin | ->]; [|by rewrite decide_True].
    destruct (decide (k = key)) as [->|Hne]; [done|]. by apply Hc.
Qed.

Section KeyStatus.

Context {W : Type} `{Network W} {C : NodeCrypto} {JR : JsRuntime}.
Variable cfg : Config.

Lemma run_op_mirrors op rt :
  (forall sid s, sessions (rt_store rt) !! sid = Some s -> key_status_mirrors s) ->
  forall sid s,
    sessions (rt_store (Engine.run_op cfg op rt)) !! sid = Some s ->
    key_status_mirrors s.
Proof.
  intros Hinv sid s. destruct op as [sid0 now md | rq]; simpl.
  - rewrite lookup_insert. case_decide as Hsid.
    + intros [= <-]. apply (createSession_mirrors sid0 now md (rt_store rt)).
    + apply Hinv.
  - destruct (Routes.postSecret cfg rq rt) as [o rt'] eqn:Hrun.
    destruct (postSecret_store_cases cfg rq rt o rt' Hrun)
      as (reply & _ & [[Hst _] | (key & s0 & pv & _ & Hs0 & _ & Hst & _)]);
      simpl; rewrite Hst.
    + apply Hinv.
    + simpl. rewrite lookup_insert. case_decide as Hsid.
      * intros [= <-]. apply applySecret_mirrors. by eapply Hinv.
      * apply Hinv.
Qed.

Lemma run_ops_mirrors ops rt :
  (forall sid s, sessions (rt_store rt) !! sid = Some s -> key_status_mirrors s) ->
  forall sid s,
    sessions (rt_store (Engine.run_ops cfg ops rt)) !! sid = Some s ->
    key_status_mirrors s.
Proof.
  revert rt. induction ops as [|op ops IH]; intros rt Hinv; simpl; [done|].
  apply IH. by apply run_op_mirrors.
Qed.

End KeyStatus.

(** X6: after any sequence of [createSession] calls and requests to the
    submission route, started from the empty store, the key-status object of
    every session says [pending] for each key of its pending list and
    [completed] for each key that has a completed entry, except for a key
    named [__proto__]: the object never gets an own property of that name,
    whether such a key is pending or completed. *)
Theorem key_status_follows_collections :
  forall W (N : Network W) (C : NodeCrypto) (JR : JsRuntime) (cfg : Config)
         (ops : list Op) (rt0 : Runtime W) (sid : string) (s : Session),
    rt_store rt0 = empty_store ->
    getSession sid (rt_store (Engine.run_ops cfg ops rt0)) = Some s ->
    keyStatus s !! "__proto__" = None
    /\ forall k,
         k <> "__proto__" ->
         (k ∈ pending s -> keyStatus s !! k = Some key_pending)
         /\ (k ∈ completedKeys s -> keyStatus s !! k = Some key_completed).
Proof.
  intros W N C JR cfg ops rt0 sid s Hempty Hs.
  eapply (run_ops_mirrors cfg ops rt0); [|exact Hs].
  intros sid' s'. rewrite Hempty. simpl. by rewrite lookup_empty.
Qed.

Lemma key_status_follows_collections_witness :
  keyStatus (applySecret "db_password"
               "30313233343536373839616263646566:7333" "alice" "t1"
               (fst (createSession "sess-1" "t0" two_keys_metadata
                       empty_store))) !! "db_password"
  = Some key_completed.
Proof.
  apply (proj2 (proj2 (key_status_follows_collections SimWorld sim_network
           toy_crypto toy_runtime sim_config
           [OpCreate "sess-1" "t0" two_keys_metadata;
            OpSubmit (sim_submission "sess-1" (Some "db_password") (Some "s3"))]
           (sim_runtime empty_store) "sess-1"
           (applySecret "db_password"
              "30313233343536373839616263646566:7333" "alice" "t1"
              (fst (createSession "sess-1" "t0" two_keys_metadata empty_store)))
           eq_refl ltac:(vm_compute; reflexivity))
           "db_password" ltac:(discriminate))).
  apply (bool_decide_unpack _). vm_compute. exact I.
Defined.

(** ** The downstream dispatch is sent at most once per session *)

Lemma count_dispatches_app l1 l2 :
  count_dispatches (l1 ++ l2) = count_dispatches l1 + count_dispatches l2.
Proof. unfold count_dispatches. by rewrite List.filter_app, length_app. Qed.

Lemma no_dispatch_count {W} (rt rt' : Runtime W) :
  sent_only (fun r => is_dispatch r = false) rt rt' ->
  count_dispatches (rt_trace rt') = count_dispatches (rt_trace rt).
Proof.
  intros (added & -> & Hall). rewrite count_dispatches_app.
  unfold count_dispatches at 2. rewrite filter_all_false; [simpl; lia|].
  intros r Hr. by eapply Forall_forall in Hall.
Qed.

Ltac no_dispatch_steps :=
  no_write_with ltac:(apply fetch_sent_only; reflexivity).

Section DispatchOnce.

Context {W : Type} `{Network W} {C : NodeCrypto} {JR : JsRuntime}.
Variable cfg : Config.

Lemma verifyKeyAccess_no_dispatch user key session :
  eff_step (sent_only (fun r => is_dispatch r = false))
    (TeamAccess.verifyKeyAccess cfg user key session).
Proof.
  unfold TeamAccess.verifyKeyAccess, TeamAccess.checkUserTeamMembership.
  no_dispatch_steps.
Qed.

Lemma fetchVaultPayload_no_dispatch url token :
  eff_step (sent_only (fun r => is_dispatch r = false))
    (Vault.fetchVaultPayload url token).
Proof. unfold Vault.fetchVaultPayload. no_dispatch_steps. Qed.

(** The trigger sends at most one request. *)
Lemma trigger_at_most_one now session rt :
  exists added,
    rt_trace (snd (Trigger.triggerDownstreamWorkflow cfg now session rt))
    = rt_trace rt ++ added
    /\ length added <= 1.
Proof.
  assert (Hnone : forall (o : Outcome TriggerResult),
            exists added, rt_trace (snd (o, rt)) = rt_trace rt ++ added
                          /\ length added <= 1).
  { intros o. exists []. split; [by rewrite app_nil_r | simpl; lia]. }
  unfold Trigger.triggerDownstreamWorkflow.
  destruct (negb (truthy _)); [apply Hnone|].
  destruct (_ || _); [|apply Hnone].
  destruct (JsString.is_empty _); [apply Hnone|].
  unfold eff_bind, fetch. cbv beta.
  match goal with |- context [http_fetch ?q ?w] =>
    destruct (http_fetch q w) as [[r|e] w']
  end; [destruct (negb (resp_ok r))|]; eexists [_]; split; simpl; done.
Qed.

Lemma postSecret_finish_dispatch rq session key value rt o rt' :
  Routes.postSecret_finish cfg rq session key value rt = (o, rt') ->
  (rt_store rt' = rt_store rt
   /\ count_dispatches (rt_trace rt') = count_dispatches (rt_trace rt))
  \/ exists s pv,
       sessions (rt_store rt) !! sub_sessionId rq = Some s /\
       let s' := applySecret key pv (login (sub_user rq)) (sub_now rq) s in
       rt_store rt' =
         {| sessions := <[sub_sessionId rq := s']> (sessions (rt_store rt));
            workflowRunIdMap := workflowRunIdMap (rt_store rt) |} /\
       count_dispatches (rt_trace rt')
       <= count_dispatches (rt_trace rt)
          + (if bool_decide (status s' = completed) then 1 else 0).
Proof.
  intros Hrun.
  unfold Routes.postSecret_finish, try_catch, Routes.postSecret_resume,
    Routes.postSecret_catch in Hrun.
  unfold eff_bind at 1 in Hrun.
  pose proof (verifyKeyAccess_same_store cfg (sub_user rq) key session rt)
    as Hs1.
  pose proof (no_dispatch_count _ _
                (verifyKeyAccess_no_dispatch (sub_user rq) key session rt))
    as Hc1.
  destruct (TeamAccess.verifyKeyAccess cfg (sub_user rq) key session rt)
    as [[hasAccess|e1] rt1]; simpl in Hs1, Hc1; unfold same_store in Hs1.
  2:{ simpl in Hrun. injection Hrun as <- <-. by left. }
  destruct hasAccess.
  2:{ simpl in Hrun. injection Hrun as <- <-. by left. }
  change (negb true) with false in Hrun. cbv beta iota in Hrun.
  unfold eff_bind at 1, lift_outcome at 1 in Hrun.
  destruct (Encryption.processSecretValue _ _ _ _ _ _ _) as [pv|e2].
  2:{ simpl in Hrun. injection Hrun as <- <-. by left. }
  destruct (negb (truthy (vault_url session))
            || negb (truthy (github_secrets_VAULT_TOKEN (metadata session)))).
  { simpl in Hrun. injection Hrun as <- <-. by left. }
  unfold eff_bind at 1 in Hrun.
  match type of Hrun with context [Vault.fetchVaultPayload ?u ?t rt1] =>
    pose proof (fetchVaultPayload_same_store u t rt1) as Hs2;
    pose proof (no_dispatch_count _ _
                  (fetchVaultPayload_no_dispatch u t rt1)) as Hc2;
    destruct (Vault.fetchVaultPayload u t rt1) as [[payload|e3] rt2]
  end; simpl in Hs2, Hc2; unfold same_store in Hs2.
  2:{ simpl in Hrun. injection Hrun as <- <-. left. split; congruence. }
  unfold eff_bind at 1, lift_outcome at 1 in Hrun.
  destruct (Vault.setPayloadKey key pv payload) as [logged|e5].
  2:{ simpl in Hrun. injection Hrun as <- <-. left. split; congruence. }
  unfold eff_bind at 1, on_store_try at 1, updateSessionSecret at 1 in Hrun.
  rewrite Hs2, Hs1 in Hrun.
  destruct (sessions (rt_store rt) !! sub_sessionId rq) as [s|] eqn:Es.
  2:{ simpl in Hrun. injection Hrun as <- <-. left. cbn [rt_store rt_trace].
      split; congruence. }
  unfold eff_bind at 1, read_store at 1, getSession at 1 in Hrun.
  cbn [rt_store sessions] in Hrun. rewrite lookup_insert_eq in Hrun.
  set (s' := applySecret key pv (login (sub_user rq)) (sub_now rq) s) in *.
  unfold eff_bind at 1 in Hrun.
  match type of Hrun with context [(if ?b then ?m else ?n) ?r] =>
    assert (Hfire : exists rt3, (if b then m else n) r = (Returned (), rt3)
              /\ rt_store rt3 = rt_store r
              /\ count_dispatches (rt_trace rt3)
                 <= count_dispatches (rt_trace r) + (if b then 1 else 0))
  end.
  { destruct (bool_decide (status s' = completed)).
    - unfold try_catch, eff_bind.
      match goal with |- context [Trigger.triggerDownstreamWorkflow cfg ?n ?x ?r] =>
        pose proof (trigger_same_store cfg n x r) as Hs3;
        destruct (trigger_at_most_one n x r) as (added & Ht & Hlen);
        destruct (Trigger.triggerDownstreamWorkflow cfg n x r) as [[tr|e4] rt3]
      end; simpl in Hs3, Ht; unfold same_store in Hs3;
        (eexists; split; [reflexivity|]; split; [exact Hs3|]);
        rewrite Ht, count_dispatches_app;
        (assert (count_dispatches added <= length added)
           by apply List.filter_length_le);
        cbn [rt_trace]; lia.
    - eexists; split; [reflexivity|]. split; [reflexivity | simpl; lia]. }
  destruct Hfire as (rt3 & Hfire & Hs3 & Hc3). rewrite Hfire in Hrun.
  injection Hrun as <- <-. right.
  exists s, pv. repeat split; try done.
  cbn [rt_trace] in Hc3. subst s'. lia.
Qed.

Lemma postSecret_dispatch_cases rq rt o rt' :
  Routes.postSecret cfg rq rt = (o, rt') ->
  (rt_store rt' = rt_store rt
   /\ count_dispatches (rt_trace rt') = count_dispatches (rt_trace rt))
  \/ exists key s pv,
       sessions (rt_store rt) !! sub_sessionId rq = Some s /\
       key ∈ pending s /\
       let s' := applySecret key pv (login (sub_user rq)) (sub_now rq) s in
       rt_store rt' =
         {| sessions := <[sub_sessionId rq := s']> (sessions (rt_store rt));
            workflowRunIdMap := workflowRunIdMap (rt_store rt) |} /\
       count_dispatches (rt_trace rt')
       <= count_dispatches (rt_trace rt)
          + (if bool_decide (status s' = completed) then 1 else 0).
Proof.
  rewrite postSecret_staged. intros Hrun.
  destruct (postSecret_check_cases rq rt)
    as [(reply & Hadm & Hno) | (key & value & s & Hadm & Hk & Hv & Hs & Hin)];
    rewrite Hadm in Hrun.
  - injection Hrun as <- <-. by left.
  - destruct (postSecret_finish_dispatch rq s key value rt o rt' Hrun)
      as [Hsame | (s0 & pv & Hs0 & Hst & Hc)]; [by left | right].
    assert (s0 = s) as -> by congruence.
    by exists key, s, pv.
Qed.

End DispatchOnce.

Lemma open_sessions_update (st : Store) sid s s' rmap :
  sessions st !! sid = Some s -> pending s <> [] ->
  open_sessions {| sessions := <[sid := s']> (sessions st);
                   workflowRunIdMap := rmap |}
  + (if decide (pending s' = []) then 1 else 0)
  = open_sessions st.
Proof.
  intros Hs Hopen. unfold open_sessions. cbn [sessions].
  assert (Hin : filter (fun kv : string * Session => pending kv.2 <> [])
                  (sessions st) !! sid = Some s)
    by (by apply map_lookup_filter_Some_2).
  rewrite map_filter_insert. cbn [snd].
  destruct (decide (pending s' = [])) as [Hnil|Hcons].
  - rewrite decide_False by (intros Hn; by apply Hn).
    rewrite map_filter_delete, map_size_delete_Some by eauto.
    assert (size (filter (fun kv : string * Session => pending kv.2 <> [])
                    (sessions st)) <> 0)
      by (apply map_size_ne_0_lookup; eauto).
    lia.
  - rewrite decide_True by done.
    rewrite map_size_insert_Some by eauto. lia.
Qed.

Section DispatchPotential.

Context {W : Type} `{Network W} {C : NodeCrypto} {JR : JsRuntime}.
Variable cfg : Config.

Lemma postSecret_potential rq rt :
  count_dispatches (rt_trace (snd (Routes.postSecret cfg rq rt)))
  + open_sessions (rt_store (snd (Routes.postSecret cfg rq rt)))
  <= count_dispatches (rt_trace rt) + open_sessions (rt_store rt).
Proof.
  destruct (Routes.postSecret cfg rq rt) as [o rt'] eqn:Hrun. cbn [snd].
  destruct (postSecret_dispatch_cases cfg rq rt o rt' Hrun)
    as [[-> ->] | (key & s & pv & Hs & Hin & Hst & Hc)]; [lia|].
  cbv zeta in Hst, Hc. rewrite Hst.
  pose proof (open_sessions_update (rt_store rt) (sub_sessionId rq) s
                (applySecret key pv (login (sub_user rq)) (sub_now rq) s)
                (workflowRunIdMap (rt_store rt)) Hs) as Hopen.
  assert (Hne : pending s <> []) by (intros Hn; rewrite Hn in Hin;
                                     by apply elem_of_nil in Hin).
  specialize (Hopen Hne).
  pose proof (applySecret_status_agrees key pv (login (sub_user rq))
                (sub_now rq) s) as Hag. unfold status_agrees in Hag.
  destruct (decide (pending (applySecret key pv (login (sub_user rq))
                               (sub_now rq) s) = [])) as [Hnil|Hcons].
  - destruct (bool_decide _) in Hc; lia.
  - rewrite bool_decide_eq_false_2 in Hc by (intros Hc'; by apply Hag in Hc').
    lia.
Qed.

Lemma submissions_potential rqs rt :
  count_dispatches (rt_trace (Engine.run_ops cfg (submissions rqs) rt))
  + open_sessions (rt_store (Engine.run_ops cfg (submissions rqs) rt))
  <= count_dispatches (rt_trace rt) + open_sessions (rt_store rt).
Proof.
  revert rt. induction rqs as [|rq rqs IH]; intros rt; simpl; [lia|].
  etrans; [apply IH | apply postSecret_potential].
Qed.

End DispatchPotential.

(** X7: the second part of the submission route, whenever it runs, sends
    the downstream dispatch at most once, and only if the session has status
    [completed] and no pending key after its update. A request that no other
    request overlaps sends it only when it takes the session from a
    non-empty pending list to an empty one, and over any sequence of such
    requests the number of dispatches sent plus the number of sessions that
    still have pending keys never grows. Requests that overlap can send more:
    two submissions of the last pending key, the second arriving while the
    first waits, send two dispatches for the one session. *)
Theorem dispatch_only_on_completion :
  (forall W (N : Network W) (C : NodeCrypto) (JR : JsRuntime) (cfg : Config),
     (forall (rq : SecretSubmission) (session : Session) (key value : string)
             (rt : Runtime W),
        count_dispatches
          (rt_trace (snd (Routes.postSecret_finish cfg rq session key value
                            rt)))
        = count_dispatches (rt_trace rt)
        \/ (count_dispatches
              (rt_trace (snd (Routes.postSecret_finish cfg rq session key
                                value rt)))
            = S (count_dispatches (rt_trace rt))
            /\ exists s',
                 getSession (sub_sessionId rq)
                   (rt_store (snd (Routes.postSecret_finish cfg rq session
                                     key value rt))) = Some s'
                 /\ pending s' = []
                 /\ status s' = completed))
     /\ (forall (rq : SecretSubmission) (rt : Runtime W),
           count_dispatches (rt_trace (snd (Routes.postSecret cfg rq rt)))
           = count_dispatches (rt_trace rt)
           \/ (count_dispatches (rt_trace (snd (Routes.postSecret cfg rq rt)))
               = S (count_dispatches (rt_trace rt))
               /\ exists s s',
                    getSession (sub_sessionId rq) (rt_store rt) = Some s
                    /\ pending s <> []
                    /\ getSession (sub_sessionId rq)
                         (rt_store (snd (Routes.postSecret cfg rq rt)))
                       = Some s'
                    /\ pending s' = []
                    /\ status s' = completed))
     /\ (forall (rqs : list SecretSubmission) (rt : Runtime W),
           count_dispatches
             (rt_trace (Engine.run_ops cfg (submissions rqs) rt))
           + open_sessions
               (rt_store (Engine.run_ops cfg (submissions rqs) rt))
           <= count_dispatches (rt_trace rt) + open_sessions (rt_store rt)))
  /\ open_sessions (rt_store one_key_runtime) = 1
  /\ count_dispatches (rt_trace one_key_runtime) = 0
  /\ count_dispatches
       (rt_trace (fst (Overlap.run (C:=toy_crypto) (R:=toy_runtime) sim_config
                         overlapping_events (one_key_runtime, []))))
     = 2.
Proof.
  split; [|repeat split; vm_compute; reflexivity].
  intros W N C JR cfg. split; [|split; [|apply submissions_potential]].
  - intros rq session key value rt.
    destruct (Routes.postSecret_finish cfg rq session key value rt)
      as [o rt'] eqn:Hrun. cbn [snd].
    assert (Hmono : count_dispatches (rt_trace rt)
                    <= count_dispatches (rt_trace rt')).
    { pose proof (postSecret_finish_no_write cfg rq session key value rt)
        as (added & Hadd & _).
      rewrite Hrun in Hadd. cbn [snd] in Hadd.
      rewrite Hadd, count_dispatches_app. lia. }
    destruct (postSecret_finish_dispatch cfg rq session key value rt o rt' Hrun)
      as [[_ Heq] | (s & pv & Hs & Hst & Hc)]; [by left|].
    cbv zeta in Hst, Hc.
    pose proof (applySecret_status_agrees key pv (login (sub_user rq))
                  (sub_now rq) s) as Hag. unfold status_agrees in Hag.
    case_bool_decide as Hdone; [|left; lia].
    destruct (decide (count_dispatches (rt_trace rt')
                      = count_dispatches (rt_trace rt))) as [Heq|Hneq];
      [by left | right].
    split; [lia|]. eexists. unfold getSession. rewrite Hst. cbn [sessions].
    rewrite lookup_insert_eq. split; [reflexivity|]. split; [by apply Hag|done].
  - intros rq rt.
    destruct (postSecret_no_write cfg rq rt) as (added & Hadd & _).
    destruct (Routes.postSecret cfg rq rt) as [o rt'] eqn:Hrun. cbn [snd] in *.
    assert (Hmono : count_dispatches (rt_trace rt)
                    <= count_dispatches (rt_trace rt'))
      by (rewrite Hadd, count_dispatches_app; lia).
    destruct (postSecret_dispatch_cases cfg rq rt o rt' Hrun)
      as [[_ Heq] | (key & s & pv & Hs & Hin & Hst & Hc)]; [by left|].
    cbv zeta in Hst, Hc.
    pose proof (applySecret_status_agrees key pv (login (sub_user rq))
                  (sub_now rq) s) as Hag. unfold status_agrees in Hag.
    case_bool_decide as Hdone; [|left; lia].
    destruct (decide (count_dispatches (rt_trace rt')
                      = count_dispatches (rt_trace rt))) as [Heq|Hneq];
      [by left | right].
    split; [lia|]. eexists s, _. unfold getSession. rewrite Hst. cbn [sessions].
    rewrite lookup_insert_eq. repeat split; try done.
    + intros Hn. rewrite Hn in Hin. by apply elem_of_nil in Hin.
    + by apply Hag.
Qed.

(** ** Team access *)

Lemma lower_ascii_idem c :
  JsString.lower_ascii (JsString.lower_ascii c) = JsString.lower_ascii c.
Proof. destruct c as [[] [] [] [] [] [] [] []]; vm_compute; reflexivity. Qed.

Lemma toLowerCase_idem s :
  JsString.toLowerCase (JsString.toLowerCase s) = JsString.toLowerCase s.
Proof.
  induction s as [|c s IH]; simpl; [done|]. by rewrite lower_ascii_idem, IH.
Qed.

Lemma resolve_total cfg key :
  has_default_team cfg ->
  exists team, TeamAccess.resolveTeamForSecret cfg key = Returned team.
Proof.
  intros [team Hd]. unfold TeamAccess.resolveTeamForSecret. rewrite Hd.
  match goal with |- context [List.find ?f ?l] =>
    destruct (List.find f l) as [e|]
  end; eexists; reflexivity.
Qed.

Lemma find_first {A} (f : A -> bool) (before after : list A) (x : A) :
  Forall (fun e => f e = false) before -> f x = true ->
  List.find f (before ++ x :: after) = Some x.
Proof.
  intros Hb Hx. induction Hb as [|e before He _ IH]; simpl.
  - by rewrite Hx.
  - by rewrite He.
Qed.

Lemma find_none {A} (f : A -> bool) (l : list A) :
  Forall (fun e => f e = false) l -> List.find f l = None.
Proof. intros Hl. induction Hl as [|e l He _ IH]; simpl; [done|]. by rewrite He. Qed.

Lemma define_fresh {A} (k : string) (v : A) (own : list (string * A)) :
  k ∉ own.*1 -> Js.define k v own = own ++ [(k, v)].
Proof.
  induction own as [|[k' v'] own IH]; intros Hk; simpl; [done|].
  apply not_elem_of_cons in Hk as [Hne Hk]. simpl in Hne.
  destruct (String.eqb_spec k' k) as [->|_]; [done|]. by rewrite IH.
Qed.

Lemma parse_members_distinct {A} (own members : list (string * A)) :
  NoDup ((own ++ members).*1) ->
  foldl (fun own m => Js.define (fst m) (snd m) own) own members
  = own ++ members.
Proof.
  revert own. induction members as [|[k v] members IH]; intros own Hnd; simpl.
  - by rewrite app_nil_r.
  - rewrite define_fresh.
    + rewrite IH; rewrite <- app_assoc; [done|]. exact Hnd.
    + rewrite fmap_app in Hnd. apply NoDup_app in Hnd as (_ & Hdis & _).
      intros Hin. apply (Hdis k Hin). simpl. left.
Qed.

Lemma ordered_no_index {A} (own : list (string * A)) :
  Forall (fun e => Js.array_index (fst e) = None) own -> Js.ordered own = own.
Proof.
  intros Hall. unfold Js.ordered.
  assert (E1 : foldr (fun e acc =>
                        match Js.array_index (fst e) with
                        | Some i => Js.insert_by_index i e acc
                        | None => acc
                        end) [] own = []).
  { induction Hall as [|e own He _ IH]; simpl; [done|]. by rewrite He. }
  rewrite E1. simpl. clear E1.
  induction Hall as [|e own He _ IH]; simpl; [done|].
  rewrite He. simpl. by rewrite IH.
Qed.

(** The table is walked in file order when its patterns are distinct and
    none of them is an array index. *)
Lemma entries_file_order {A} (members : list (string * A)) :
  NoDup (members.*1) ->
  Forall (fun e => Js.array_index (fst e) = None) members ->
  Js.entries members = members.
Proof.
  intros Hnd Hall. unfold Js.entries, Js.parse_members.
  rewrite (parse_members_distinct [] members) by done.
  by apply ordered_no_index.
Qed.

(** X8: [resolveTeamForSecret] does not depend on the letter case of the
    key. It returns the team of the first entry of
    [Object.entries(secretTeamConfig)], other than ["*"], whose lower-cased
    pattern occurs in the lower-cased key, whatever entries follow; when no
    pattern applies it returns the team of the ["*"] entry and throws if
    there is none. [Object.entries] lists the table in file order when its
    patterns are distinct and none of them is an array index. *)
Theorem resolveTeam_first_match_any_case :
  forall (cfg : Config) (key : string),
    TeamAccess.resolveTeamForSecret cfg (JsString.toLowerCase key)
    = TeamAccess.resolveTeamForSecret cfg key
    /\ (forall before pattern team after,
          Js.entries (secretTeamConfig cfg)
          = before ++ (pattern, team) :: after ->
          Forall (fun e =>
                    fst e = "*"
                    \/ TeamAccess.str_includes (JsString.toLowerCase (fst e))
                         (JsString.toLowerCase key) = false) before ->
          pattern <> "*" ->
          TeamAccess.str_includes (JsString.toLowerCase pattern)
            (JsString.toLowerCase key) = true ->
          TeamAccess.resolveTeamForSecret cfg key = Returned team)
    /\ (Forall (fun e =>
                  fst e = "*"
                  \/ TeamAccess.str_includes (JsString.toLowerCase (fst e))
                       (JsString.toLowerCase key) = false)
          (Js.entries (secretTeamConfig cfg)) ->
        (forall team,
           Js.member "*" (secretTeamConfig cfg) = Some team ->
           TeamAccess.resolveTeamForSecret cfg key = Returned team)
        /\ (Js.member "*" (secretTeamConfig cfg) = None ->
            exists e, TeamAccess.resolveTeamForSecret cfg key = Thrown e))
    /\ (has_default_team cfg ->
        exists team, TeamAccess.resolveTeamForSecret cfg key = Returned team)
    /\ (NoDup ((secretTeamConfig cfg).*1) ->
        Forall (fun e => Js.array_index (fst e) = None) (secretTeamConfig cfg) ->
        Js.entries (secretTeamConfig cfg) = secretTeamConfig cfg).
Proof.
  intros cfg key.
  assert (Hskip : forall l,
            Forall (fun e : string * string =>
                      fst e = "*"
                      \/ TeamAccess.str_includes (JsString.toLowerCase (fst e))
                           (JsString.toLowerCase key) = false) l ->
            Forall (fun e => TeamAccess.pattern_applies
                               (JsString.toLowerCase key) e = false) l).
  { intros l Hl. eapply Forall_impl; [exact Hl|].
    intros [pat team] [Hp | He]; unfold TeamAccess.pattern_applies;
      cbn [fst] in *.
    - by rewrite Hp.
    - rewrite He. apply andb_false_r. }
  split; [|split; [|split; [|split]]].
  - unfold TeamAccess.resolveTeamForSecret. by rewrite toLowerCase_idem.
  - intros before pattern team after Hcfg Hbefore Hne Hinc.
    unfold TeamAccess.resolveTeamForSecret. rewrite Hcfg.
    rewrite (find_first _ before after (pattern, team)); [done| |].
    + by apply Hskip.
    + unfold TeamAccess.pattern_applies. cbn [fst].
      apply String.eqb_neq in Hne. by rewrite Hne, Hinc.
  - intros Hnone. unfold TeamAccess.resolveTeamForSecret.
    rewrite find_none by (by apply Hskip). split.
    + by intros team ->.
    + intros ->. by eexists.
  - apply resolve_total.
  - apply entries_file_order.
Qed.

Lemma resolveTeam_first_match_any_case_witness :
  TeamAccess.resolveTeamForSecret sim_config "PROD_DB_PASSWORD"
  = Returned "dba-team".
Proof.
  apply (proj1 (proj2 (resolveTeam_first_match_any_case sim_config
                         "PROD_DB_PASSWORD"))
           [] "db" "dba-team" [("*", "dev-team")] eq_refl
           (Forall_nil_2 _) ltac:(discriminate) eq_refl).
Defined.

Section TeamAccessFacts.

Context {W : Type} `{Network W}.
Variable cfg : Config.

(** The organisation [verifyKeyAccess] and [filterAuthorizedKeys] use. *)
Lemma checkMembership_cases token org team username rt :
  let rq := {| req_method := GET;
               req_url := TeamAccess.strip_trailing_slash (GH_BASE_URL cfg)
                          +:+ "/orgs/" +:+ org +:+ "/teams/" +:+ team
                          +:+ "/memberships/" +:+ username;
               req_credential := "Bearer " +:+ token;
               req_body := NoBody |} in
  rt_store (snd (TeamAccess.checkUserTeamMembership cfg token org team
                   username rt)) = rt_store rt
  /\ rt_trace (snd (TeamAccess.checkUserTeamMembership cfg token org team
                      username rt)) = rt_trace rt ++ [rq]
  /\ (fst (TeamAccess.checkUserTeamMembership cfg token org team username rt)
      = Returned true ->
      exists r json,
        fst (http_fetch rq (rt_world rt)) = Responded r
        /\ resp_ok r = true
        /\ resp_json r = Some json
        /\ Js.get "state" json = Returned (Some (JString "active"))).
Proof.
  cbv zeta.
  unfold TeamAccess.checkUserTeamMembership, TeamAccess.membership_request,
    eff_bind, fetch.
  match goal with |- context [http_fetch ?q ?w] =>
    destruct (http_fetch q w) as [[r|e] w'] eqn:Hf
  end; cbn [fst snd rt_store rt_trace]; [|by repeat split].
  destruct (Nat.eqb (resp_status r) 404); [by repeat split|].
  destruct (resp_ok r) eqn:Hok; cbn [negb]; [|by repeat split].
  destruct (resp_json r) as [json|] eqn:Hj; cbn [fst snd rt_store rt_trace];
    [|by repeat split].
  unfold lift_outcome.
  destruct (Js.get "state" json) as [[[| | |st| |]|]|e] eqn:Hstate;
    cbn [fst snd rt_store rt_trace]; try by repeat split.
  repeat split. intros [= Hact]. apply String.eqb_eq in Hact. subst st.
  by exists r, json.
Qed.

End TeamAccessFacts.

(** X9: with a ["*"] entry in the team table [verifyKeyAccess] never
    throws and never touches the session store. Without an organisation name
    (neither in the session nor in the environment) it answers [false]
    without sending anything. It answers [true] only if GitHub answered the
    membership request for the resolved team with a success status and the
    state [active]; a network error, any other status or state gives
    [false]. *)
Theorem verifyKeyAccess_fails_closed :
  forall W (N : Network W) (cfg : Config) (user : User) (key : string)
         (session : Session) (rt : Runtime W),
    has_default_team cfg ->
    (exists b, fst (TeamAccess.verifyKeyAccess cfg user key session rt)
               = Returned b)
    /\ rt_store (snd (TeamAccess.verifyKeyAccess cfg user key session rt))
       = rt_store rt
    /\ (truthy (environment_ORG_NAME (metadata session)) = false ->
        truthy (ORG_NAME cfg) = false ->
        TeamAccess.verifyKeyAccess cfg user key session rt
        = (Returned false, rt))
    /\ (fst (TeamAccess.verifyKeyAccess cfg user key session rt)
        = Returned true ->
        exists team org r json,
          TeamAccess.resolveTeamForSecret cfg key = Returned team
          /\ fst (http_fetch
                    {| req_method := GET;
                       req_url :=
                         TeamAccess.strip_trailing_slash (GH_BASE_URL cfg)
                         +:+ "/orgs/" +:+ org +:+ "/teams/" +:+ team
                         +:+ "/memberships/" +:+ login user;
                       req_credential := "Bearer " +:+ accessToken user;
                       req_body := NoBody |} (rt_world rt)) = Responded r
          /\ resp_ok r = true
          /\ resp_json r = Some json
          /\ Js.get "state" json = Returned (Some (JString "active"))).
Proof.
  intros W N cfg user key session rt Hdef.
  destruct (resolve_total cfg key Hdef) as [team Hteam].
  unfold TeamAccess.verifyKeyAccess. rewrite Hteam.
  unfold eff_bind at 1 2 3 4, lift_outcome.
  set (orgName := if truthy (environment_ORG_NAME (metadata session))
                  then environment_ORG_NAME (metadata session)
                  else ORG_NAME cfg).
  destruct (truthy orgName) eqn:Horg; cbn [negb].
  - unfold try_catch.
    destruct (checkMembership_cases cfg (accessToken user) (default "" orgName)
                team (login user) rt) as (Hst & _ & Htrue).
    destruct (TeamAccess.checkUserTeamMembership cfg (accessToken user)
                (default "" orgName) team (login user) rt) as [[b|e] rt1];
      cbn [fst snd] in *.
    + split; [by eexists|]. split; [done|]. split.
      * intros H1 H2. subst orgName. rewrite H1 in Horg. congruence.
      * intros Hb. destruct (Htrue Hb) as (r & json & ? & ? & ? & ?).
        by exists team, (default "" orgName), r, json.
    + split; [by eexists|]. split; [done|]. split; [|discriminate].
      intros H1 H2. subst orgName. rewrite H1 in Horg. congruence.
  - cbn [fst snd]. split; [by eexists|]. split; [done|].
    split; [done | discriminate].
Qed.

Lemma verifyKeyAccess_fails_closed_witness :
  exists b,
    fst (TeamAccess.verifyKeyAccess sim_config sim_user "db_password"
           (fst (createSession "sess-1" "t0" one_key_metadata empty_store))
           one_key_runtime)
    = Returned b.
Proof.
  apply (proj1 (verifyKeyAccess_fails_closed SimWorld sim_network sim_config
                  sim_user "db_password"
                  (fst (createSession "sess-1" "t0" one_key_metadata
                          empty_store))
                  one_key_runtime
                  (ex_intro _ "dev-team" eq_refl))).
Defined.

Section FilterKeys.

Context {W : Type} `{Network W}.
Variable cfg : Config.
Hypothesis Hdef : has_default_team cfg.

Lemma filterLoop_cons user orgName key keys acc rt team :
  TeamAccess.resolveTeamForSecret cfg key = Returned team ->
  TeamFilter.filterLoop cfg user orgName (key :: keys) acc rt
  = match TeamAccess.checkUserTeamMembership cfg (accessToken user)
            (template orgName) team (login user) rt with
    | (Returned b, rt1) =>
        TeamFilter.filterLoop cfg user orgName keys
          (if b then acc ++ [key] else acc) rt1
    | (Thrown _, rt1) => TeamFilter.filterLoop cfg user orgName keys acc rt1
    end.
Proof.
  intros Hteam. cbn [TeamFilter.filterLoop]. rewrite Hteam.
  unfold eff_bind, lift_outcome, try_catch.
  by destruct (TeamAccess.checkUserTeamMembership _ _ _ _ _ rt) as [[b|e] rt1].
Qed.

Lemma filterLoop_spec user orgName keys acc rt :
  exists kept,
    fst (TeamFilter.filterLoop cfg user orgName keys acc rt)
    = Returned (acc ++ kept)
    /\ kept `sublist_of` keys
    /\ rt_store (snd (TeamFilter.filterLoop cfg user orgName keys acc rt))
       = rt_store rt
    /\ exists added,
         rt_trace (snd (TeamFilter.filterLoop cfg user orgName keys acc rt))
         = rt_trace rt ++ added
         /\ length added = length keys
         /\ Forall (fun r => req_method r = GET) added.
Proof.
  revert acc rt. induction keys as [|key keys IH]; intros acc rt.
  - exists []. simpl. rewrite !app_nil_r. repeat split; [done|].
    exists []. by rewrite app_nil_r.
  - destruct (resolve_total cfg key Hdef) as [team Hteam].
    rewrite (filterLoop_cons user orgName key keys acc rt team Hteam).
    destruct (checkMembership_cases cfg (accessToken user) (template orgName)
                team (login user) rt) as (Hst & Htr & _). cbv zeta in Htr.
    destruct (TeamAccess.checkUserTeamMembership cfg (accessToken user)
                (template orgName) team (login user) rt) as [[b|e] rt1];
      cbn [fst snd] in Hst, Htr.
    + destruct (IH (if b then acc ++ [key] else acc) rt1)
        as (kept & Hk & Hsub & Hs & added & Ha & Hlen & Hget).
      exists (if b then key :: kept else kept). rewrite Hk.
      split; [destruct b; by rewrite <- ?app_assoc|].
      split; [destruct b; by constructor|]. split; [congruence|].
      eexists (_ :: added). rewrite Ha, Htr, <- app_assoc.
      split; [done|]. split; [simpl; lia | by constructor].
    + destruct (IH acc rt1)
        as (kept & Hk & Hsub & Hs & added & Ha & Hlen & Hget).
      exists kept. rewrite Hk.
      split; [done|]. split; [by constructor|]. split; [congruence|].
      eexists (_ :: added). rewrite Ha, Htr, <- app_assoc.
      split; [done|]. split; [simpl; lia | by constructor].
Qed.

End FilterKeys.

(** X10: with a ["*"] entry in the team table [filterAuthorizedKeys]
    never throws, whatever GitHub answers: it returns some of the given
    keys, in their order, after exactly one GET per key, and leaves the session
    store as it was. *)
Theorem filterAuthorizedKeys_keeps_a_sublist :
  forall W (N : Network W) (cfg : Config) (user : User)
         (pendingKeys : list string) (session : Session) (rt : Runtime W),
    has_default_team cfg ->
    exists kept added,
      fst (TeamFilter.filterAuthorizedKeys cfg user pendingKeys session rt)
      = Returned kept
      /\ kept `sublist_of` pendingKeys
      /\ rt_store (snd (TeamFilter.filterAuthorizedKeys cfg user pendingKeys
                          session rt)) = rt_store rt
      /\ rt_trace (snd (TeamFilter.filterAuthorizedKeys cfg user pendingKeys
                          session rt)) = rt_trace rt ++ added
      /\ length added = length pendingKeys
      /\ Forall (fun r => req_method r = GET) added.
Proof.
  intros W N cfg user keys session rt Hdef.
  unfold TeamFilter.filterAuthorizedKeys.
  destruct (filterLoop_spec cfg Hdef user
              (if truthy (environment_ORG_NAME (metadata session))
               then environment_ORG_NAME (metadata session)
               else ORG_NAME cfg) keys [] rt)
    as (kept & Hk & Hsub & Hs & added & Ha & Hlen & Hget).
  by exists kept, added.
Qed.

Lemma filterAuthorizedKeys_keeps_a_sublist_witness :
  exists kept added,
    fst (TeamFilter.filterAuthorizedKeys sim_config sim_user
           ["db_password"; "api_key"]
           (fst (createSession "sess-1" "t0" two_keys_metadata empty_store))
           (sim_runtime empty_store))
    = Returned kept
    /\ kept `sublist_of` ["db_password"; "api_key"]
    /\ rt_store (snd (TeamFilter.filterAuthorizedKeys sim_config sim_user
                        ["db_password"; "api_key"]
                        (fst (createSession "sess-1" "t0" two_keys_metadata
                                empty_store))
                        (sim_runtime empty_store)))
       = rt_store (sim_runtime empty_store)
    /\ rt_trace (snd (TeamFilter.filterAuthorizedKeys sim_config sim_user
                        ["db_password"; "api_key"]
                        (fst (createSession "sess-1" "t0" two_keys_metadata
                                empty_store))
                        (sim_runtime empty_store)))
       = rt_trace (sim_runtime empty_store) ++ added
    /\ length added = length ["db_password"; "api_key"]
    /\ Forall (fun r => req_method r = GET) added.
Proof.
  apply (filterAuthorizedKeys_keeps_a_sublist SimWorld sim_network sim_config
           sim_user ["db_password"; "api_key"]
           (fst (createSession "sess-1" "t0" two_keys_metadata empty_store))
           (sim_runtime empty_store) (ex_intro _ "dev-team" eq_refl)).
Defined.

(** ** Encryption keys *)

Lemma utf8_bytes_app a b : utf8_bytes (a +:+ b) = utf8_bytes a ++ utf8_bytes b.
Proof. induction a as [|c a IH]; simpl; [done|]. by rewrite IH. Qed.

Lemma utf8_bytes_length a : length (utf8_bytes a) = String.length a.
Proof. induction a as [|c a IH]; simpl; [done|]. by rewrite IH. Qed.

Lemma normalize_key_long k extra :
  32 <= length k -> normalize_key (k ++ extra) = normalize_key k.
Proof.
  intros Hlen. unfold normalize_key.
  destruct (Nat.ltb_spec (length (k ++ extra)) 32) as [Hlt|_].
  - rewrite length_app in Hlt. lia.
  - destruct (Nat.ltb_spec (length k) 32); [lia|].
    by rewrite take_app_le.
Qed.

Lemma normalize_key_zero_padded k n :
  normalize_key (k ++ replicate n Ascii.zero) = normalize_key k.
Proof.
  unfold normalize_key. rewrite length_app, length_replicate.
  destruct (Nat.ltb_spec (length k + n) 32) as [Hlt|Hge].
  - destruct (Nat.ltb_spec (length k) 32); [|lia].
    rewrite <- app_assoc, <- replicate_add. do 2 f_equal. lia.
  - destruct (Nat.ltb_spec (length k) 32) as [Hk|Hk].
    + rewrite take_app_ge by lia. f_equal.
      rewrite take_replicate. f_equal. lia.
    + by rewrite take_app_le.
Qed.

(** X11: both encryptions use only the first 32 bytes of the key: a key of
    at least 32 bytes and the same key followed by anything else give the
    same [encryptSecret], [encryptValue] and [decryptValue], and the key
    actually handed to the cipher always has 32 bytes; a key followed by
    NUL bytes is the same key. *)
Theorem only_first_32_key_bytes_count :
  forall (C : NodeCrypto) (key extra : string) (iv : Buffer)
         (text name : string),
    length (normalize_key (utf8_bytes key)) = 32
    /\ (32 <= String.length key ->
        Encryption.encryptSecret iv text (key +:+ extra) name
        = Encryption.encryptSecret iv text key name
        /\ Gist.encryptValue (key +:+ extra) iv text
           = Gist.encryptValue key iv text
        /\ Gist.decryptValue (key +:+ extra) text
           = Gist.decryptValue key text)
    /\ (forall n,
          normalize_key (utf8_bytes key ++ replicate n Ascii.zero)
          = normalize_key (utf8_bytes key)).
Proof.
  intros C key extra iv text name. split; [apply normalize_key_length|].
  split; [|intros n; apply normalize_key_zero_padded].
  intros Hlen.
  assert (Hk : normalize_key (utf8_bytes (key +:+ extra))
               = normalize_key (utf8_bytes key)).
  { rewrite utf8_bytes_app. apply normalize_key_long.
    by rewrite utf8_bytes_length. }
  unfold Encryption.encryptSecret, Gist.encryptValue, Gist.decryptValue,
    Gist.decryptValue_try, Gist.getEncryptionKey.
  by rewrite Hk.
Qed.

Lemma only_first_32_key_bytes_count_witness :
  Encryption.encryptSecret (C:=toy_crypto) sim_iv "s3"
    ("0123456789abcdef0123456789abcdef" +:+ "-and-more") "db_password"
  = Encryption.encryptSecret (C:=toy_crypto) sim_iv "s3"
      "0123456789abcdef0123456789abcdef" "db_password".
Proof.
  apply (proj1 (proj1 (proj2 (only_first_32_key_bytes_count toy_crypto
           "0123456789abcdef0123456789abcdef" "-and-more" sim_iv "s3"
           "db_password")) ltac:(vm_compute; lia))).
Defined.

Lemma substring_prefix n s :
  exists rest, s = String.substring 0 n s +:+ rest.
Proof.
  revert s. induction n as [|n IH]; intros s.
  - exists s. destruct s; reflexivity.
  - destruct s as [|c s]; [exists ""; reflexivity|].
    destruct (IH s) as [rest Hrest]. exists rest.
    change (String c s = String c (String.substring 0 n s +:+ rest)).
    congruence.
Qed.

Lemma substring_length n s :
  String.length (String.substring 0 n s) = Nat.min n (String.length s).
Proof.
  revert s. induction n as [|n IH]; intros s.
  - by destruct s.
  - destruct s as [|c s]; [done|]. simpl. by rewrite IH.
Qed.

(** X12: [generateHash] returns a prefix of the SHA-1 hex digest of at
    most 32 characters, and exactly 32 characters when the digest has at
    least 32 (a SHA-1 hex digest has 40). *)
Theorem generateHash_is_a_32_char_prefix :
  forall (C : NodeCrypto) (input : string),
    (exists rest, sha1_hex input = Encryption.generateHash input +:+ rest)
    /\ String.length (Encryption.generateHash input) <= 32
    /\ (32 <= String.length (sha1_hex input) ->
        String.length (Encryption.generateHash input) = 32).
Proof.
  intros C input. unfold Encryption.generateHash, JsString.take.
  split; [apply substring_prefix|]. rewrite substring_length. lia.
Qed.

Lemma generateHash_is_a_32_char_prefix_witness :
  String.length
    (Encryption.generateHash (C:=toy_crypto)
       "a namespace whose toy digest is longer than 32 characters")
  = 32.
Proof.
  apply (proj2 (proj2 (generateHash_is_a_32_char_prefix toy_crypto
           "a namespace whose toy digest is longer than 32 characters"))).
  vm_compute. lia.
Defined.

Lemma get_not_null (k : string) (v : Json) :
  v <> JNull -> Js.get k v = Returned (Js.get_opt k (Some v)).
Proof. by destruct v. Qed.

Section EncKeyFacts.

Context {W : Type} `{Network W} {C : NodeCrypto}.

Lemma getAbsoluteEncKey_run url tok def ns (rt : Runtime W) :
  EncKey.getAbsoluteEncKey url tok def ns rt
  = match http_fetch {| req_method := GET; req_url := url;
                        req_credential := tok; req_body := NoBody |}
            (rt_world rt) with
    | (fr, w1) =>
        (Returned
           match fr with
           | Responded r =>
               match Vault.readVaultResponse r with
               | Returned doc =>
                   match EncKey.encKeyFromVault doc with
                   | Returned held =>
                       match EncKey.chooseEncKey held def ns with
                       | Returned key => key
                       | Thrown _ => def
                       end
                   | Thrown _ => def
                   end
               | Thrown _ => def
               end
           | NetworkError _ => def
           end,
         {| rt_store := rt_store rt; rt_world := w1;
            rt_trace := rt_trace rt ++
              [{| req_method := GET; req_url := url; req_credential := tok;
                  req_body := NoBody |}] |})
    end.
Proof.
  unfold EncKey.getAbsoluteEncKey, try_catch, eff_bind,
    Vault.fetchVaultPayload, eff_bind, fetch, lift_outcome.
  destruct (http_fetch _ (rt_world rt)) as [[r|e] w1]; [|done].
  destruct (Vault.readVaultResponse r) as [doc|]; [|done].
  destruct (EncKey.encKeyFromVault doc) as [held|]; [|done].
  by destruct (EncKey.chooseEncKey held def ns).
Qed.

(** What a successful answer with a JSON body makes of the key. *)
Lemma readVault_choose (r : Response) (doc : Json) def ns :
  resp_ok r = true -> resp_json r = Some doc ->
  let held := Js.get_opt Encryption.ENCRYPTION_KEY_ID
                (Js.get_opt "data" (Js.get_opt "data" (Some doc))) in
  match Vault.readVaultResponse r with
  | Returned doc =>
      match EncKey.encKeyFromVault doc with
      | Returned held =>
          match EncKey.chooseEncKey held def ns with
          | Returned key => key
          | Thrown _ => def
          end
      | Thrown _ => def
      end
  | Thrown _ => def
  end
  = if Js.truthy held then
      match held with
      | Some (JString v) =>
          if String.eqb v "TBD" then Encryption.generateHash ns
          else if JsString.is_empty (JsString.trim v) then def
          else JsString.trim v
      | _ => def
      end
    else def.
Proof.
  intros Hok Hj held. unfold Vault.readVaultResponse. rewrite Hok, Hj.
  cbn [negb].
  assert (doc = JNull \/ doc <> JNull) as [->|Hdoc]
    by (destruct doc; first [by left | by right]); [done|].
  unfold EncKey.encKeyFromVault. rewrite (get_not_null "data" doc Hdoc).
  cbv [mbind Outcome_bind]. rewrite (get_not_null "data" doc Hdoc).
  fold held. unfold EncKey.chooseEncKey.
  destruct (Js.truthy held) eqn:Ht; [|done].
  destruct held as [[| | |v| |]|]; try done.
  destruct (String.eqb v "TBD"); cbn [negb andb]; [done|].
  by destruct (JsString.is_empty (JsString.trim v)).
Qed.

End EncKeyFacts.

(** X13: [getAbsoluteEncKey] never throws, sends exactly one GET and
    leaves the session store alone. It returns the default key when the
    Vault cannot be read (network error, any non-success status, 404
    included) or holds no usable value (none, a falsy one, or one that is no
    string); the hash of the namespace when the Vault holds exactly [TBD];
    and otherwise the trimmed value the Vault holds, provided that value is
    not blank. *)
Theorem getAbsoluteEncKey_falls_back_to_default :
  forall W (N : Network W) (C : NodeCrypto)
         (url tok def ns : string) (rt : Runtime W),
    let get := {| req_method := GET; req_url := url; req_credential := tok;
                  req_body := NoBody |} in
    (exists key, fst (EncKey.getAbsoluteEncKey url tok def ns rt) = Returned key)
    /\ rt_store (snd (EncKey.getAbsoluteEncKey url tok def ns rt)) = rt_store rt
    /\ rt_trace (snd (EncKey.getAbsoluteEncKey url tok def ns rt))
       = rt_trace rt ++ [get]
    /\ (forall e, fst (http_fetch get (rt_world rt)) = NetworkError e ->
          fst (EncKey.getAbsoluteEncKey url tok def ns rt) = Returned def)
    /\ (forall r, fst (http_fetch get (rt_world rt)) = Responded r ->
          resp_ok r = false ->
          fst (EncKey.getAbsoluteEncKey url tok def ns rt) = Returned def)
    /\ (forall r, fst (http_fetch get (rt_world rt)) = Responded r ->
          resp_ok r = true -> resp_json r = None ->
          fst (EncKey.getAbsoluteEncKey url tok def ns rt) = Returned def)
    /\ (forall r doc, fst (http_fetch get (rt_world rt)) = Responded r ->
          resp_ok r = true -> resp_json r = Some doc ->
          let held := Js.get_opt Encryption.ENCRYPTION_KEY_ID
                        (Js.get_opt "data" (Js.get_opt "data" (Some doc))) in
          (Js.truthy held = false ->
           fst (EncKey.getAbsoluteEncKey url tok def ns rt) = Returned def)
          /\ (held = Some (JString "TBD") ->
              fst (EncKey.getAbsoluteEncKey url tok def ns rt)
              = Returned (Encryption.generateHash ns))
          /\ (forall v, held = Some (JString v) -> v <> "TBD" ->
                fst (EncKey.getAbsoluteEncKey url tok def ns rt)
                = Returned (if JsString.is_empty (JsString.trim v) then def
                            else JsString.trim v))
          /\ (forall j, held = Some j -> (forall v, j <> JString v) ->
                fst (EncKey.getAbsoluteEncKey url tok def ns rt)
                = Returned def)).
Proof.
  intros W N C url tok def ns rt get.
  rewrite (getAbsoluteEncKey_run url tok def ns rt). fold get.
  destruct (http_fetch get (rt_world rt)) as [fr w1] eqn:Hf. cbn [fst snd].
  split; [by eexists|]. split; [done|]. split; [done|].
  split; [by intros e ->|]. split; [|split].
  - intros r -> Hok. unfold Vault.readVaultResponse. rewrite Hok. cbn [negb].
    by destruct (Nat.eqb (resp_status r) 404).
  - intros r -> Hok Hj. unfold Vault.readVaultResponse. by rewrite Hok, Hj.
  - intros r doc -> Hok Hj.
    pose proof (readVault_choose r doc def ns Hok Hj) as Hc.
    cbv zeta in Hc. rewrite Hc. clear Hc.
    set (held := Js.get_opt Encryption.ENCRYPTION_KEY_ID
                   (Js.get_opt "data" (Js.get_opt "data" (Some doc)))).
    split; [by intros ->|]. split; [by intros ->|]. split.
    + intros v -> Hv. apply String.eqb_neq in Hv. rewrite Hv.
      destruct v as [|c v]; [done|]. done.
    + intros j -> Hj'. destruct (Js.truthy (Some j)); [|done].
      destruct j as [| | |v| |]; try done. by destruct (Hj' v).
Qed.

Lemma getAbsoluteEncKey_falls_back_to_default_witness :
  fst (EncKey.getAbsoluteEncKey (C:=toy_crypto) sim_vault_url "vault-token"
         "default-key" "payments" one_key_runtime)
  = Returned "default-key".
Proof.
  apply (proj1 (proj2 (proj2 (proj2 (proj2
           (getAbsoluteEncKey_falls_back_to_default SimWorld sim_network
              toy_crypto sim_vault_url "vault-token" "default-key" "payments"
              one_key_runtime)))))
           {| resp_status := 404; resp_text := "not found";
              resp_json := None |}).
  - reflexivity.
  - reflexivity.
Defined.

(** ** Writing one key to the Vault *)

Lemma set_own_lookup_ne {A} (k k' : string) (v : A) (props : gmap string A) :
  k' <> k -> Js.set_own k v props !! k' = props !! k'.
Proof.
  intros Hne. unfold Js.set_own.
  destruct (_ && _); [done | by rewrite lookup_insert_ne].
Qed.

Lemma set_own_lookup_eq {A} (k : string) (v : A) (props : gmap string A) :
  k <> "__proto__" \/ is_Some (props !! k) ->
  Js.set_own k v props !! k = Some v.
Proof.
  intros Hk. unfold Js.set_own.
  destruct (String.eqb_spec k "__proto__") as [->|Hne]; cbn [andb].
  - destruct Hk as [Hk | Hk]; [done|].
    rewrite bool_decide_eq_true_2 by done. apply lookup_insert_eq.
  - apply lookup_insert_eq.
Qed.

Section VaultFacts.

Context {W : Type} `{Network W} {JR : JsRuntime}.

Lemma updateSingleVaultKey_run url tok key value (rt : Runtime W) :
  let get := {| req_method := GET; req_url := url; req_credential := tok;
                req_body := NoBody |} in
  Vault.updateSingleVaultKey url tok key value rt
  = match http_fetch get (rt_world rt) with
    | (NetworkError e, w1) =>
        (Thrown e, {| rt_store := rt_store rt; rt_world := w1;
                      rt_trace := rt_trace rt ++ [get] |})
    | (Responded r, w1) =>
        match doc ← Vault.readVaultResponse r;
              updated ← Vault.setPayloadKey key value doc;
              Vault.vaultPayloadOf updated with
        | Thrown e =>
            (Thrown e, {| rt_store := rt_store rt; rt_world := w1;
                          rt_trace := rt_trace rt ++ [get] |})
        | Returned vaultPayload =>
            let post :=
              {| req_method := POST; req_url := url; req_credential := tok;
                 req_body := VaultBody (Js.stringify_view vaultPayload) |} in
            match http_fetch post w1 with
            | (fr, w2) =>
                (updateOutcome fr,
                 {| rt_store := rt_store rt; rt_world := w2;
                    rt_trace := (rt_trace rt ++ [get]) ++ [post] |})
            end
        end
    end.
Proof.
  cbv zeta.
  unfold Vault.updateSingleVaultKey, Vault.fetchVaultPayload,
    Vault.updateVaultPayload.
  unfold eff_bind at 1 2 3. unfold fetch at 1.
  destruct (http_fetch _ (rt_world rt)) as [[r|e] w1]; [|done].
  unfold lift_outcome. cbv [mbind Outcome_bind].
  destruct (Vault.readVaultResponse r) as [doc|e]; [|done].
  destruct (Vault.setPayloadKey key value doc) as [updated|e]; [|done].
  unfold eff_bind at 1.
  destruct (Vault.vaultPayloadOf updated) as [vaultPayload|e]; [|done].
  unfold eff_bind, fetch. cbn [rt_world rt_trace rt_store].
  destruct (http_fetch _ w1) as [[r2|e2] w2]; [|done].
  cbn [updateOutcome].
  destruct (negb (resp_ok r2)); [done|]. by destruct (resp_json r2).
Qed.

(** A payload that came back with an object under [data] is posted with the
    properties of that object. *)
Lemma updateSingleVaultKey_posts url tok key value (rt : Runtime W)
  r doc top d :
  let get := {| req_method := GET; req_url := url; req_credential := tok;
                req_body := NoBody |} in
  let post := {| req_method := POST; req_url := url; req_credential := tok;
                 req_body := VaultBody
                   (Js.stringify_view (JObject {[ "data" := JObject d ]})) |} in
  fst (http_fetch get (rt_world rt)) = Responded r ->
  Vault.readVaultResponse r = Returned doc ->
  Vault.setPayloadKey key value doc
  = Returned (JObject (<["data" := JObject d]> top)) ->
  Vault.updateSingleVaultKey url tok key value rt
  = (updateOutcome
       (fst (http_fetch post (snd (http_fetch get (rt_world rt))))),
     {| rt_store := rt_store rt;
        rt_world := snd (http_fetch post (snd (http_fetch get (rt_world rt))));
        rt_trace := rt_trace rt ++ [get; post] |}).
Proof.
  intros get post Hget Hread Hset.
  pose proof (updateSingleVaultKey_run url tok key value rt) as Hrun.
  cbv zeta in Hrun. fold get in Hrun. rewrite Hrun. clear Hrun.
  destruct (http_fetch get (rt_world rt)) as [fr w1]. cbn [fst snd] in *.
  subst fr. rewrite Hread. cbv [mbind Outcome_bind]. rewrite Hset.
  rewrite vaultPayloadOf_data. fold post.
  destruct (http_fetch post w1) as [fr2 w2]. cbn [fst snd].
  by rewrite <- app_assoc.
Qed.

End VaultFacts.

(** X14: [updateSingleVaultKey] writes nothing when it could not read: if
    the GET fails on the network, or is answered with a non-success status
    other than 404, or with a success whose body is not JSON, the call throws
    after that single GET and no POST is sent. *)
Theorem single_key_update_needs_a_read :
  forall W (N : Network W) (JR : JsRuntime) (url tok key value : string)
         (rt : Runtime W),
    let get := {| req_method := GET; req_url := url; req_credential := tok;
                  req_body := NoBody |} in
    (forall e, fst (http_fetch get (rt_world rt)) = NetworkError e ->
       fst (Vault.updateSingleVaultKey url tok key value rt) = Thrown e
       /\ rt_trace (snd (Vault.updateSingleVaultKey url tok key value rt))
          = rt_trace rt ++ [get])
    /\ (forall r, fst (http_fetch get (rt_world rt)) = Responded r ->
          (resp_ok r = false /\ resp_status r <> 404)
          \/ (resp_ok r = true /\ resp_json r = None) ->
          (exists e, fst (Vault.updateSingleVaultKey url tok key value rt)
                     = Thrown e)
          /\ rt_trace (snd (Vault.updateSingleVaultKey url tok key value rt))
             = rt_trace rt ++ [get]).
Proof.
  intros W N JR url tok key value rt get.
  pose proof (updateSingleVaultKey_run url tok key value rt) as Hrun.
  cbv zeta in Hrun. fold get in Hrun. rewrite Hrun.
  destruct (http_fetch get (rt_world rt)) as [fr w1]. cbn [fst]. split.
  - by intros e ->.
  - intros r -> Hbad.
    assert (exists e, Vault.readVaultResponse r = Thrown e) as [e ->].
    { unfold Vault.readVaultResponse.
      destruct Hbad as [[-> Hs] | [-> ->]]; cbn [negb]; [|by eexists].
      apply Nat.eqb_neq in Hs. rewrite Hs. by eexists. }
    split; [by eexists | done].
Qed.

Lemma single_key_update_needs_a_read_witness :
  (exists e,
     fst (Vault.updateSingleVaultKey (H:=outage) (R:=toy_runtime)
            sim_vault_url "vault-token" "db_password" "v" outage_runtime)
     = Thrown e)
  /\ rt_trace
       (snd (Vault.updateSingleVaultKey (H:=outage) (R:=toy_runtime)
               sim_vault_url "vault-token" "db_password" "v" outage_runtime))
     = rt_trace outage_runtime
       ++ [{| req_method := GET; req_url := sim_vault_url;
              req_credential := "vault-token"; req_body := NoBody |}].
Proof.
  apply (proj2 (single_key_update_needs_a_read unit outage toy_runtime
                  sim_vault_url "vault-token" "db_password" "v"
                  outage_runtime)
           {| resp_status := 503; resp_text := "sealed"; resp_json := None |}).
  - reflexivity.
  - left. split; [reflexivity | discriminate].
Defined.



(** ** The other routes and the pipeline middleware *)



Lemma prefix_split p s :
  String.prefix p s = true -> s = p +:+ drop_chars (String.length p) s.
Proof.
  revert s. induction p as [|a p IH]; intros s; [done|].
  destruct s as [|b s]; [done|]. simpl.
  destruct (ascii_dec a b) as [->|]; [|done].
  intros Hp. change (String b s = String b (p +:+ drop_chars (String.length p) s)).
  f_equal. by apply IH.
Qed.

Lemma prefix_append p r : String.prefix p (p +:+ r) = true.
Proof.
  induction p as [|a p IH]; simpl; [by destruct r|].
  by destruct (ascii_dec a a).
Qed.

Lemma drop_chars_append p r : drop_chars (String.length p) (p +:+ r) = r.
Proof. induction p as [|a p IH]; simpl; [by destruct r | done]. Qed.

(** X17: [verifyPipelineToken] lets a request through exactly when its
    authorization header is [Bearer ] followed by the configured token;
    without a configured token no request gets through; a missing header
    or one that does not start with [Bearer ] is refused with 401, a wrong
    token with 403. *)
Theorem pipeline_token_gate :
  forall (expected authHeader : option string),
    (forall tok,
       expected = Some tok ->
       (verifyPipelineToken expected authHeader = Next
        <-> authHeader = Some ("Bearer " +:+ tok)))
    /\ (expected = None -> verifyPipelineToken expected authHeader <> Next)
    /\ (truthy authHeader = false
        \/ JsString.startsWith "Bearer " (default "" authHeader) = false ->
        verifyPipelineToken expected authHeader
        = Refused 401 "Missing or invalid authorization header")
    /\ (forall tok',
          authHeader = Some ("Bearer " +:+ tok') -> expected <> Some tok' ->
          verifyPipelineToken expected authHeader
          = Refused 403 "Invalid pipeline token").
Proof.
  intros expected authHeader. unfold verifyPipelineToken, JsString.startsWith.
  split; [|split; [|split]].
  - intros tok ->. split.
    + destruct (truthy authHeader) eqn:Ht; [|done]. cbn [negb orb].
      destruct (String.prefix "Bearer " (default "" authHeader)) eqn:Hp;
        [|done]. cbn [negb].
      case_bool_decide as Htok; [|done]. intros _.
      destruct authHeader as [h|]; [|done]. cbn [default from_option id] in *.
      apply prefix_split in Hp. injection Htok as Htok.
      subst tok. f_equal. exact Hp.
    + intros ->. cbn [truthy default from_option id].
      change (JsString.is_empty ("Bearer " +:+ tok)) with false.
      rewrite (prefix_append "Bearer " tok). cbn [negb orb].
      change 7 with (String.length "Bearer ").
      rewrite drop_chars_append. by rewrite bool_decide_eq_true_2.
  - intros ->. destruct (_ || _); [done|]. by rewrite bool_decide_eq_false_2.
  - intros [-> | ->]; [done | by rewrite orb_true_r].
  - intros tok' -> Hne. cbn [truthy default from_option id].
    change (JsString.is_empty ("Bearer " +:+ tok')) with false.
    rewrite (prefix_append "Bearer " tok'). cbn [negb orb].
    change 7 with (String.length "Bearer ").
    rewrite drop_chars_append. rewrite bool_decide_eq_false_2; [done|].
    congruence.
Qed.

Lemma pipeline_token_gate_witness :
  verifyPipelineToken (Some "s3cr3t") (Some "Bearer s3cr3t") = Next.
Proof.
  apply (proj2 (proj1 (pipeline_token_gate (Some "s3cr3t")
                         (Some "Bearer s3cr3t")) "s3cr3t" eq_refl)).
  reflexivity.
Defined.

Lemma sim_reads_are_quiet : reads_are_quiet sim_network.
Proof.
  intros rq w Hget. unfold http_fetch, sim_network. rewrite Hget.
  destruct (bool_decide _); [done|]. by destruct (sim_vault w !! req_url rq).
Qed.

Section ShownKeys.

Context {W : Type} `{N : Network W}.
Variable cfg : Config.

(** The membership check answers [true] exactly when GitHub's answer says
    [active] with a success status, and it changes the world as its one GET
    does. *)
Lemma checkMembership_says_active token org team username rt :
  let rq := TeamAccess.membership_request cfg token org team username in
  (fst (TeamAccess.checkUserTeamMembership cfg token org team username rt)
   = Returned true
   <-> says_active (fst (http_fetch rq (rt_world rt))) = true)
  /\ rt_world (snd (TeamAccess.checkUserTeamMembership cfg token org team
                      username rt))
     = snd (http_fetch rq (rt_world rt)).
Proof.
  cbv zeta. unfold TeamAccess.checkUserTeamMembership, eff_bind, fetch.
  destruct (http_fetch _ (rt_world rt)) as [[r|e] w'] eqn:Hf;
    cbn [fst snd rt_world says_active]; [|by split].
  unfold resp_ok.
  destruct (Nat.eqb_spec (resp_status r) 404) as [E|_];
    [by rewrite E|].
  fold (resp_ok r). destruct (resp_ok r); cbn [negb andb]; [|by split].
  destruct (resp_json r) as [json|]; cbn [fst snd rt_world]; [|by split].
  unfold lift_outcome.
  destruct (Js.get "state" json) as [[[| | |st| |]|]|e];
    cbn [fst snd rt_world]; try by split.
  split; [|done]. split; [by intros [= ->] | by intros ->].
Qed.

Hypothesis Hquiet : reads_are_quiet N.
Hypothesis Hdef : has_default_team cfg.

(** With GET requests that leave GitHub as it is, the loop keeps exactly
    the keys for which GitHub, asked in the state of the world at the start,
    says [active]. *)
Lemma filterLoop_quiet user orgName keys acc rt :
  fst (TeamFilter.filterLoop cfg user orgName keys acc rt)
  = Returned (acc ++ List.filter
                       (github_grants cfg user (template orgName)
                          (rt_world rt)) keys)
  /\ rt_world (snd (TeamFilter.filterLoop cfg user orgName keys acc rt))
     = rt_world rt.
Proof.
  revert acc rt. induction keys as [|key keys IH]; intros acc rt.
  - simpl. by rewrite app_nil_r.
  - destruct (resolve_total cfg key Hdef) as [team Hteam].
    rewrite (filterLoop_cons cfg user orgName key keys acc rt team Hteam).
    destruct (checkMembership_says_active (accessToken user)
                (template orgName) team (login user) rt) as [Hiff Hw].
    cbv zeta in Hiff, Hw. rewrite Hquiet in Hw by done.
    cbn [List.filter]. unfold github_grants at 1. rewrite Hteam.
    destruct (TeamAccess.checkUserTeamMembership cfg (accessToken user)
                (template orgName) team (login user) rt) as [[b|e] rt1];
      cbn [fst snd] in Hiff, Hw.
    + destruct (IH (if b then acc ++ [key] else acc) rt1) as [IH1 IH2].
      rewrite IH1, IH2, Hw. split; [|done].
      destruct b.
      * rewrite (proj1 Hiff eq_refl). by rewrite <- app_assoc.
      * destruct (says_active _) eqn:Hs; [|done].
        by specialize (proj2 Hiff eq_refl).
    + destruct (IH acc rt1) as [IH1 IH2]. rewrite IH1, IH2, Hw.
      split; [|done].
      destruct (says_active _) eqn:Hs; [|done].
      by specialize (proj2 Hiff eq_refl).
Qed.

End ShownKeys.



(** ** What the store keeps of a submission *)

Section StoreInvariant.

Context {W : Type} `{Network W} {C : NodeCrypto} {JR : JsRuntime}.
Variable cfg : Config.
Variable P : Session -> Prop.
Hypothesis P_create : forall sid now md st, P (fst (createSession sid now md st)).
Hypothesis P_apply :
  forall key pv who now s, P s -> P (applySecret key pv who now s).

Lemma run_ops_invariant ops rt :
  (forall sid s, sessions (rt_store rt) !! sid = Some s -> P s) ->
  forall sid s,
    sessions (rt_store (Engine.run_ops cfg ops rt)) !! sid = Some s -> P s.
Proof.
  revert rt. induction ops as [|op ops IH]; intros rt Hinv; simpl; [done|].
  apply IH. clear IH. intros sid s. destruct op as [sid0 now md | rq]; simpl.
  - rewrite lookup_insert. case_decide as Hsid.
    + intros [= <-]. apply (P_create sid0 now md (rt_store rt)).
    + apply Hinv.
  - destruct (Routes.postSecret cfg rq rt) as [o rt'] eqn:Hrun.
    destruct (postSecret_store_cases cfg rq rt o rt' Hrun)
      as (reply & _ & [[Hst _] | (key & s0 & pv & _ & Hs0 & _ & Hst & _)]);
      simpl; rewrite Hst.
    + apply Hinv.
    + simpl. rewrite lookup_insert. case_decide as Hsid.
      * intros [= <-]. apply P_apply. by eapply Hinv.
      * apply Hinv.
Qed.

End StoreInvariant.

Lemma applySecret_masked key pv who now s :
  values_masked s -> values_masked (applySecret key pv who now s).
Proof.
  unfold values_masked, applySecret. simpl. intros Hm.
  apply Forall_app. split; [done|]. by constructor.
Qed.

(** X19: the session store never holds a submitted value. After any sequence
    of registrations and requests to the submission route, started from
    the empty store, every completed entry of every session carries the mask
    [*****] in place of the value, whatever was submitted and whatever
    [processSecretValue] made of it. *)
Theorem store_keeps_no_secret_value :
  forall W (N : Network W) (C : NodeCrypto) (JR : JsRuntime) (cfg : Config)
         (ops : list Op) (rt0 : Runtime W) (sid : string) (s : Session),
    rt_store rt0 = empty_store ->
    getSession sid (rt_store (Engine.run_ops cfg ops rt0)) = Some s ->
    forall e, e ∈ completedEntries s -> ce_encryptedValue e = "*****".
Proof.
  intros W N C JR cfg ops rt0 sid s Hempty Hs.
  apply Forall_forall.
  refine (run_ops_invariant cfg values_masked _ _ ops rt0 _ sid s Hs).
  - intros. apply Forall_nil_2.
  - intros. by apply applySecret_masked.
  - intros sid' s'. rewrite Hempty. simpl. by rewrite lookup_empty.
Qed.

Lemma store_keeps_no_secret_value_witness :
  values_masked
    (applySecret "db_password"
       "30313233343536373839616263646566:7333" "alice" "t1"
       (fst (createSession "sess-1" "t0" two_keys_metadata empty_store))).
Proof.
  apply Forall_forall.
  apply (store_keeps_no_secret_value SimWorld sim_network toy_crypto toy_runtime
           sim_config
           [OpCreate "sess-1" "t0" two_keys_metadata;
            OpSubmit (sim_submission "sess-1" (Some "db_password") (Some "s3"))]
           (sim_runtime empty_store) "sess-1"
           (applySecret "db_password"
              "30313233343536373839616263646566:7333" "alice" "t1"
              (fst (createSession "sess-1" "t0" two_keys_metadata empty_store)))).
  - reflexivity.
  - vm_compute. reflexivity.
Defined.

(** ** The audit trail *)

Lemma filter_length_app {A} (f : A -> bool) (l1 l2 : list A) :
  length (List.filter f (l1 ++ l2))
  = length (List.filter f l1) + length (List.filter f l2).
Proof. by rewrite List.filter_app, length_app. Qed.

Lemma applySecret_audit_faithful key pv who now s :
  audit_faithful s -> audit_faithful (applySecret key pv who now s).
Proof.
  unfold audit_faithful, submission_records, completion_records, applySecret.
  cbn [status pending completedEntries audit].
  intros (Hdone & Hsub & Hcompl).
  set (pending' := List.filter (fun k => negb (String.eqb k key)) (pending s)).
  assert (Hwas : status s = completed -> pending' = []).
  { intros Hc. unfold pending'. by rewrite (Hdone Hc). }
  destruct (Nat.eqb (length pending') 0) eqn:Hlen.
  - apply Nat.eqb_eq in Hlen. apply length_zero_iff_nil in Hlen.
    rewrite (bool_decide_eq_true_2 (completed = completed)) by done.
    cbn [andb]. split; [done|].
    destruct (bool_decide (status s = completed)) eqn:Hs; cbn [negb].
    + rewrite !filter_length_app, length_app. cbn. lia.
    + rewrite !filter_length_app, length_app. cbn. lia.
  - apply Nat.eqb_neq in Hlen.
    rewrite (bool_decide_eq_false_2 (awaiting_input = completed)) by done.
    cbn [andb]. split; [done|].
    rewrite bool_decide_eq_false_2 in Hcompl.
    + rewrite !filter_length_app, length_app. cbn. lia.
    + intros Hc. apply Hlen. by rewrite (Hwas Hc).
Qed.

(** X20: the audit trail follows the bookkeeping. After any sequence of
    registrations and requests to the submission route, started from the
    empty store, every session has as many [secret_submitted] records as
    completed entries, and exactly one [all_secrets_completed] record when its
    status is [completed] and none otherwise; a completed session has no pending
    key. *)
Theorem audit_trail_follows_bookkeeping :
  forall W (N : Network W) (C : NodeCrypto) (JR : JsRuntime) (cfg : Config)
         (ops : list Op) (rt0 : Runtime W) (sid : string) (s : Session),
    rt_store rt0 = empty_store ->
    getSession sid (rt_store (Engine.run_ops cfg ops rt0)) = Some s ->
    (status s = completed -> pending s = [])
    /\ submission_records s = length (completedEntries s)
    /\ completion_records s = (if bool_decide (status s = completed) then 1 else 0).
Proof.
  intros W N C JR cfg ops rt0 sid s Hempty Hs.
  refine (run_ops_invariant cfg audit_faithful _ _ ops rt0 _ sid s Hs).
  - intros. by split.
  - intros. by apply applySecret_audit_faithful.
  - intros sid' s'. rewrite Hempty. simpl. by rewrite lookup_empty.
Qed.

Lemma audit_trail_follows_bookkeeping_witness :
  completion_records
    (applySecret "db_password"
       "30313233343536373839616263646566:7333" "alice" "t1"
       (fst (createSession "sess-1" "t0" one_key_metadata empty_store)))
  = 1.
Proof.
  apply (proj2 (proj2
           (audit_trail_follows_bookkeeping SimWorld sim_network toy_crypto toy_runtime
              sim_config
              [OpCreate "sess-1" "t0" one_key_metadata;
               OpSubmit (sim_submission "sess-1" (Some "db_password")
                           (Some "s3"))]
              (sim_runtime empty_store) "sess-1"
              (applySecret "db_password"
                 "30313233343536373839616263646566:7333" "alice" "t1"
                 (fst (createSession "sess-1" "t0" one_key_metadata
                         empty_store)))
              eq_refl ltac:(vm_compute; reflexivity)))).
Defined.
